(** * Echo Genesis: physics, world and entity core

    A shallow embedding of the simulation core of the Echo Genesis
    platformer (Vector2, GameObject, Physics, SpatialGrid, World, Player,
    Enemy) together with the properties its specification states.

    JavaScript numbers are kept abstract behind the class [JSNumber], so
    that every function is transcribed once and can be read in two
    arithmetics:
    - exact rationals ([Q]), for the algebraic properties;
    - IEEE-754 binary64 ([float], the kernel's primitive floats), which is
      what a JavaScript engine computes, for everything that depends on
      infinities and NaN.

    Objects are JavaScript references: they live in a [Heap] and the engine
    passes [Ref]s around, so that an object shared between the world's
    lists, the spatial grid and a collision pair is one object. *)

From Stdlib Require Import ZArith QArith Qround Qabs Qminmax Lqa Lia.
From Stdlib Require Import Floats.
From Stdlib Require Import List Bool String.
From Stdlib Require Import Sorted Permutation.
Import ListNotations.

Set Implicit Arguments.

(* ================================================================= *)
(** ** JavaScript numbers *)

(** The operations of a JavaScript number that the engine uses.  [lit] reads
    a numeric literal of the source ([0.8], [200], ...). *)
Class JSNumber (num : Type) : Type := {
  lit : Q -> num;
  nadd : num -> num -> num;
  nsub : num -> num -> num;
  nmul : num -> num -> num;
  ndiv : num -> num -> num;
  nneg : num -> num;
  nltb : num -> num -> bool;
  nleb : num -> num -> bool;
  neqb : num -> num -> bool;
  nmin : num -> num -> num;
  nmax : num -> num -> num;
  nabs : num -> num;
  nsign : num -> num;
  nsqrt : num -> num
}.

(** [Math.floor], where the result is used as an integer (grid cells), for
    an arithmetic in which every number has a whole floor.  The rationals
    are one.  Binary64 is not: [Math.floor(NaN)] is NaN, and the loops of
    [getCellsForBounds] then file the box under no cell.  So the grid is
    read in rationals, and what is said of a run in binary64 is said for
    every choice of cells. *)
Class JSFloor (num : Type) : Type := {
  nfloor : num -> Z
}.

Declare Scope js_scope.
Delimit Scope js_scope with js.
Notation "a + b" := (nadd a b) : js_scope.
Notation "a - b" := (nsub a b) : js_scope.
Notation "a * b" := (nmul a b) : js_scope.
Notation "a / b" := (ndiv a b) : js_scope.
Notation "- a" := (nneg a) : js_scope.
Notation "a <? b" := (nltb a b) (at level 70) : js_scope.
Notation "a <=? b" := (nleb a b) (at level 70) : js_scope.
Notation "a >? b" := (nltb b a) (at level 70) : js_scope.
Notation "a >=? b" := (nleb b a) (at level 70) : js_scope.
Notation "a === b" := (neqb a b) (at level 70) : js_scope.
Notation "a !== b" := (negb (neqb a b)) (at level 70) : js_scope.

(** *** Exact rationals *)

Module ExactNum.

Definition ltb (a b : Q) : bool :=
  match Qcompare a b with Lt => true | _ => false end.

Definition sign (a : Q) : Q :=
  match Qcompare a 0 with Lt => -(1) | Eq => 0 | Gt => 1 end.

(** Square root of a rational [n/d] as [floor (sqrt (n*d)) / d]: exact on
    the squares of rationals, rounded down to a multiple of [1/d]
    elsewhere (and [0] on negative arguments). *)
Definition sqrt (a : Q) : Q :=
  match Qnum a with
  | Zpos n => Z.sqrt (Zpos n * Zpos (Qden a)) # Qden a
  | _ => 0
  end.

End ExactNum.

(** Division is [Qdiv], which returns [0] on a zero divisor: the exact
    reading is only meant away from zero divisors; what JavaScript does at a
    zero divisor is read in [float]. *)
#[export] Instance QNumber : JSNumber Q := {
  lit := fun q => q;
  nadd := Qplus;
  nsub := Qminus;
  nmul := Qmult;
  ndiv := Qdiv;
  nneg := Qopp;
  nltb := ExactNum.ltb;
  nleb := Qle_bool;
  neqb := Qeq_bool;
  nmin := Qmin;
  nmax := Qmax;
  nabs := Qabs;
  nsign := ExactNum.sign;
  nsqrt := ExactNum.sqrt
}.

#[export] Instance QFloor : JSFloor Q := {
  nfloor := Qfloor
}.

(** *** IEEE-754 binary64 *)

Module IEEE.

Definition of_pos (p : positive) : float :=
  PrimFloat.of_uint63 (Uint63.of_pos p).

Definition of_Z (z : Z) : float :=
  match z with
  | Z0 => PrimFloat.zero
  | Zpos p => of_pos p
  | Zneg p => PrimFloat.opp (of_pos p)
  end.

(** A literal [n/d] with small [n] and [d] is the correctly rounded
    quotient, which is the double a JavaScript parser reads. *)
Definition literal (q : Q) : float :=
  PrimFloat.div (of_Z (Qnum q)) (of_pos (Qden q)).

(** [Math.min] and [Math.max]: NaN if either argument is NaN, and
    [-0] below [+0]. *)
Definition min (a b : float) : float :=
  if PrimFloat.is_nan a then PrimFloat.nan
  else if PrimFloat.is_nan b then PrimFloat.nan
  else if PrimFloat.ltb a b then a
  else if PrimFloat.ltb b a then b
  else if PrimFloat.get_sign a then a else b.

Definition max (a b : float) : float :=
  if PrimFloat.is_nan a then PrimFloat.nan
  else if PrimFloat.is_nan b then PrimFloat.nan
  else if PrimFloat.ltb a b then b
  else if PrimFloat.ltb b a then a
  else if PrimFloat.get_sign a then b else a.

(** [Math.sign]: NaN and the zeros are returned as they are. *)
Definition sign (a : float) : float :=
  if PrimFloat.ltb PrimFloat.zero a then PrimFloat.one
  else if PrimFloat.ltb a PrimFloat.zero then PrimFloat.opp PrimFloat.one
  else a.

Definition is_finite (a : float) : bool :=
  negb (PrimFloat.is_nan a) && negb (PrimFloat.is_infinity a).

End IEEE.

#[export] Instance FloatNumber : JSNumber float := {
  lit := IEEE.literal;
  nadd := PrimFloat.add;
  nsub := PrimFloat.sub;
  nmul := PrimFloat.mul;
  ndiv := PrimFloat.div;
  nneg := PrimFloat.opp;
  nltb := PrimFloat.ltb;
  nleb := PrimFloat.leb;
  neqb := PrimFloat.eqb;
  nmin := IEEE.min;
  nmax := IEEE.max;
  nabs := PrimFloat.abs;
  nsign := IEEE.sign;
  nsqrt := PrimFloat.sqrt
}.

(* ================================================================= *)
(** ** Vector2 (src/js/utils/Vector2.js) *)

Module Vector2.

Record t (num : Type) : Type := mk { x : num; y : num }.
Arguments mk {num} _ _.
Arguments x {num} _.
Arguments y {num} _.

Section Ops.
Context {num : Type} {N : JSNumber num}.
Local Open Scope js_scope.

Definition zero : t num := mk (lit 0) (lit 0).
Definition down : t num := mk (lit 0) (lit 1).

Definition add (a b : t num) : t num := mk (x a + x b) (y a + y b).
Definition subtract (a b : t num) : t num := mk (x a - x b) (y a - y b).

(** [multiply] and [divide] by a scalar (the [typeof === 'number']
    branch, the only one the engine takes). *)
Definition multiply (a : t num) (scalar : num) : t num :=
  mk (x a * scalar) (y a * scalar).
Definition divide (a : t num) (scalar : num) : t num :=
  mk (x a / scalar) (y a / scalar).

Definition magnitude (a : t num) : num := nsqrt (x a * x a + y a * y a).
Definition magnitudeSquared (a : t num) : num := x a * x a + y a * y a.

Definition normalized (a : t num) : t num :=
  let mag := magnitude a in
  if mag === lit 0 then zero else mk (x a / mag) (y a / mag).

(** The in-place [normalize], returning the new value of [this]. *)
Definition normalize (a : t num) : t num :=
  let mag := magnitude a in
  if mag >? lit 0 then mk (x a / mag) (y a / mag) else a.

Definition dot (a b : t num) : num := x a * x b + y a * y b.

Definition one : t num := mk (lit 1) (lit 1).
Definition up : t num := mk (lit 0) (- lit 1).
Definition left : t num := mk (- lit 1) (lit 0).
Definition right : t num := mk (lit 1) (lit 0).

Definition distance (a other : t num) : num :=
  let dx := x a - x other in
  let dy := y a - y other in
  nsqrt (dx * dx + dy * dy).

Definition distanceSquared (a other : t num) : num :=
  let dx := x a - x other in
  let dy := y a - y other in
  dx * dx + dy * dy.

Definition cross (a other : t num) : num := x a * y other - y a * x other.

Definition lerp (a other : t num) (t : num) :=
  mk (x a + (x other - x a) * t) (y a + (y other - y a) * t).

Definition clamp (a min max : t num) : t num :=
  mk (nmax (x min) (nmin (x max) (x a))) (nmax (y min) (nmin (y max) (y a))).

Definition clampMagnitude (a : t num) (maxLength : num) : t num :=
  let mag := magnitude a in
  if mag >? maxLength then multiply (normalized a) maxLength
  else mk (x a) (y a).

Definition reflect (a normal : t num) : t num :=
  let dot := dot a normal in
  subtract a (multiply normal (lit 2 * dot)).

Definition perpendicular (a : t num) : t num := mk (- y a) (x a).

Definition copy (a : t num) : t num := mk (x a) (y a).

(** [equals(other, tolerance)] and [isZero(tolerance)]; the default
    tolerance is [0.0001]. *)
Definition defaultTolerance : num := lit 0.0001.

Definition equals (a other : t num) (tolerance : num) : bool :=
  (nabs (x a - x other) <? tolerance) && (nabs (y a - y other) <? tolerance).

Definition isZero (a : t num) (tolerance : num) : bool :=
  (nabs (x a) <? tolerance) && (nabs (y a) <? tolerance).

Definition abs (a : t num) : t num := mk (nabs (x a)) (nabs (y a)).

End Ops.

End Vector2.

(* ================================================================= *)
(** ** GameObject (src/js/core/GameObject.js) *)

(** The axis-aligned box returned by [getBounds]. *)
Module Bounds.

Record t (num : Type) : Type := mk { x : num; y : num; width : num; height : num }.
Arguments mk {num} _ _ _ _.
Arguments x {num} _.
Arguments y {num} _.
Arguments width {num} _.
Arguments height {num} _.

End Bounds.

(** A handler slot ([onCollision], [onTriggerEnter]) is an own property of
    the object.  The constructor of [GameObject] stores [null] in it, and an
    assignment may store a function, which is named, not run: calling it is
    recorded as an event (see [Physics.Event]).  The own property is found
    before any method of the same name that a subclass declares, so the
    methods [onCollision] of [Player] and [Enemy] and [onTriggerEnter] of
    [PowerUp] are hidden on every instance; no code of the program assigns
    a slot. *)
Definition Callback : Type := string.

(** The value of [obj.id].  [GameObject.generateId] hands out the whole
    numbers 1, 2, ...; [World.createEntityFromData] and
    [World.loadCheckpoints] overwrite the identifier of an entity with the
    one of its level data, which [LevelData.generateId] makes as the string
    ['id_' + Date.now() + '_' + ...].  [LevelId suffix] is the string
    ['id_' ++ suffix].  Identifiers of other forms, which a level file
    could hold, are left out. *)
Inductive Id : Type :=
| WholeId (n : Z)
| LevelId (suffix : string).

Module GameObject.

(** The fields of a [GameObject] that the simulation reads or writes
    (rendering, animation and component fields play no part in it). *)
Record t (num : Type) : Type := mk {
  position : Vector2.t num;
  velocity : Vector2.t num;
  acceleration : Vector2.t num;
  size : Vector2.t num;
  mass : num;
  friction : num;
  bounciness : num;
  gravityScale : num;
  active : bool;
  solid : bool;
  destroyed : bool;
  collisionBounds : option (Bounds.t num);
  collisionLayers : option (list string);
  collisionMask : option (list string);
  isTrigger : bool;
  tags : list string;
  onCollision : option Callback;
  onTriggerEnter : option Callback;
  id : Id;
  layer : option string
}.

Section Methods.
Context {num : Type} {N : JSNumber num}.
Local Open Scope js_scope.

(** [new GameObject(x, y, width, height)] with the identifier handed out by
    [generateId]. *)
Definition new (x y width height : num) (newId : Z) : t num :=
  {| position := Vector2.mk x y;
     velocity := Vector2.mk (lit 0) (lit 0);
     acceleration := Vector2.mk (lit 0) (lit 0);
     size := Vector2.mk width height;
     mass := lit 1;
     friction := lit 0.8;
     bounciness := lit 0;
     gravityScale := lit 1;
     active := true;
     solid := true;
     destroyed := false;
     collisionBounds := None;
     collisionLayers := Some ["default"%string];
     collisionMask := Some ["default"%string];
     isTrigger := false;
     tags := [];
     onCollision := None;
     onTriggerEnter := None;
     id := WholeId newId;
     layer := None |}.

Definition set_position (o : t num) (p : Vector2.t num) : t num :=
  {| position := p; velocity := velocity o; acceleration := acceleration o;
     size := size o; mass := mass o; friction := friction o;
     bounciness := bounciness o; gravityScale := gravityScale o;
     active := active o; solid := solid o; destroyed := destroyed o;
     collisionBounds := collisionBounds o; collisionLayers := collisionLayers o;
     collisionMask := collisionMask o; isTrigger := isTrigger o; tags := tags o;
     onCollision := onCollision o; onTriggerEnter := onTriggerEnter o;
     id := id o; layer := layer o |}.

Definition set_velocity (o : t num) (v : Vector2.t num) : t num :=
  {| position := position o; velocity := v; acceleration := acceleration o;
     size := size o; mass := mass o; friction := friction o;
     bounciness := bounciness o; gravityScale := gravityScale o;
     active := active o; solid := solid o; destroyed := destroyed o;
     collisionBounds := collisionBounds o; collisionLayers := collisionLayers o;
     collisionMask := collisionMask o; isTrigger := isTrigger o; tags := tags o;
     onCollision := onCollision o; onTriggerEnter := onTriggerEnter o;
     id := id o; layer := layer o |}.

Definition set_acceleration (o : t num) (a : Vector2.t num) : t num :=
  {| position := position o; velocity := velocity o; acceleration := a;
     size := size o; mass := mass o; friction := friction o;
     bounciness := bounciness o; gravityScale := gravityScale o;
     active := active o; solid := solid o; destroyed := destroyed o;
     collisionBounds := collisionBounds o; collisionLayers := collisionLayers o;
     collisionMask := collisionMask o; isTrigger := isTrigger o; tags := tags o;
     onCollision := onCollision o; onTriggerEnter := onTriggerEnter o;
     id := id o; layer := layer o |}.

Definition getBounds (o : t num) : Bounds.t num :=
  match collisionBounds o with
  | Some cb =>
      Bounds.mk (Vector2.x (position o) + Bounds.x cb)
                (Vector2.y (position o) + Bounds.y cb)
                (Bounds.width cb) (Bounds.height cb)
  | None =>
      Bounds.mk (Vector2.x (position o)) (Vector2.y (position o))
                (Vector2.x (size o)) (Vector2.y (size o))
  end.

Definition getCenter (o : t num) : Vector2.t num :=
  let bounds := getBounds o in
  Vector2.mk (Bounds.x bounds + Bounds.width bounds / lit 2)
             (Bounds.y bounds + Bounds.height bounds / lit 2).

Definition hasTag (o : t num) (tag : string) : bool :=
  existsb (String.eqb tag) (tags o).

Definition addForce (o : t num) (force : Vector2.t num) : t num :=
  set_acceleration o (Vector2.add (acceleration o) (Vector2.divide force (mass o))).

Definition addImpulse (o : t num) (impulse : Vector2.t num) : t num :=
  set_velocity o (Vector2.add (velocity o) (Vector2.divide impulse (mass o))).

(** [updatePhysics]: acceleration into velocity, friction damping, velocity
    into position, acceleration reset. *)
Definition updatePhysics (o : t num) (deltaTime : num) : t num :=
  let o1 := set_velocity o
              (Vector2.add (velocity o) (Vector2.multiply (acceleration o) deltaTime)) in
  let o2 := set_velocity o1 (Vector2.multiply (velocity o1) (friction o1)) in
  let o3 := set_position o2
              (Vector2.add (position o2) (Vector2.multiply (velocity o2) deltaTime)) in
  set_acceleration o3 (Vector2.mk (lit 0) (lit 0)).

(** [destroy]: the object is flagged, not removed from any list. *)
Definition destroy (o : t num) : t num :=
  {| position := position o; velocity := velocity o; acceleration := acceleration o;
     size := size o; mass := mass o; friction := friction o;
     bounciness := bounciness o; gravityScale := gravityScale o;
     active := false; solid := solid o; destroyed := true;
     collisionBounds := collisionBounds o; collisionLayers := collisionLayers o;
     collisionMask := collisionMask o; isTrigger := isTrigger o; tags := tags o;
     onCollision := onCollision o; onTriggerEnter := onTriggerEnter o;
     id := id o; layer := layer o |}.

Definition set_tags (o : t num) (newTags : list string) : t num :=
  {| position := position o; velocity := velocity o; acceleration := acceleration o;
     size := size o; mass := mass o; friction := friction o;
     bounciness := bounciness o; gravityScale := gravityScale o;
     active := active o; solid := solid o; destroyed := destroyed o;
     collisionBounds := collisionBounds o; collisionLayers := collisionLayers o;
     collisionMask := collisionMask o; isTrigger := isTrigger o; tags := newTags;
     onCollision := onCollision o; onTriggerEnter := onTriggerEnter o;
     id := id o; layer := layer o |}.

(** The assignment [obj.onTriggerEnter = f]. *)
Definition set_onTriggerEnter (o : t num) (handler : option Callback) : t num :=
  {| position := position o; velocity := velocity o; acceleration := acceleration o;
     size := size o; mass := mass o; friction := friction o;
     bounciness := bounciness o; gravityScale := gravityScale o;
     active := active o; solid := solid o; destroyed := destroyed o;
     collisionBounds := collisionBounds o; collisionLayers := collisionLayers o;
     collisionMask := collisionMask o; isTrigger := isTrigger o; tags := tags o;
     onCollision := onCollision o; onTriggerEnter := handler;
     id := id o; layer := layer o |}.

(** The assignment [obj.id = newId]. *)
Definition set_id (o : t num) (newId : Id) : t num :=
  {| position := position o; velocity := velocity o; acceleration := acceleration o;
     size := size o; mass := mass o; friction := friction o;
     bounciness := bounciness o; gravityScale := gravityScale o;
     active := active o; solid := solid o; destroyed := destroyed o;
     collisionBounds := collisionBounds o; collisionLayers := collisionLayers o;
     collisionMask := collisionMask o; isTrigger := isTrigger o; tags := tags o;
     onCollision := onCollision o; onTriggerEnter := onTriggerEnter o;
     id := newId; layer := layer o |}.

(** [tags] is a [Set], kept in insertion order: [add] of a member changes
    nothing, [delete] removes the member. *)
Definition addTag (o : t num) (tag : string) : t num :=
  if hasTag o tag then o else set_tags o (tags o ++ [tag]).

Definition removeTag (o : t num) (tag : string) : t num :=
  set_tags o (filter (fun member => negb (String.eqb tag member)) (tags o)).

Definition overlaps (o other : t num) : bool :=
  let a := getBounds o in
  let b := getBounds other in
  (Bounds.x a <? Bounds.x b + Bounds.width b)
  && (Bounds.x a + Bounds.width a >? Bounds.x b)
  && (Bounds.y a <? Bounds.y b + Bounds.height b)
  && (Bounds.y a + Bounds.height a >? Bounds.y b).

Definition contains (o : t num) (point : Vector2.t num) : bool :=
  let bounds := getBounds o in
  (Vector2.x point >=? Bounds.x bounds)
  && (Vector2.x point <=? Bounds.x bounds + Bounds.width bounds)
  && (Vector2.y point >=? Bounds.y bounds)
  && (Vector2.y point <=? Bounds.y bounds + Bounds.height bounds).

Definition distanceTo (o other : t num) : num :=
  Vector2.distance (getCenter o) (getCenter other).

Definition directionTo (o other : t num) : Vector2.t num :=
  Vector2.normalized (Vector2.subtract (getCenter other) (getCenter o)).

End Methods.

End GameObject.

(** The animation fields of a [GameObject] and the methods that work on
    them alone. *)
Module Animation.

(** A source rectangle of the sprite sheet. *)
Record Frame (num : Type) : Type := mkFrame {
  frameX : num; frameY : num; frameWidth : num; frameHeight : num
}.

(** An entry of [this.animations]. *)
Record Clip (num : Type) : Type := mkClip {
  frames : list (Frame num);
  loop : bool;
  onComplete : option Callback
}.

Record t (num : Type) : Type := mk {
  currentFrame : Z;
  frameTime : num;
  animationSpeed : num;
  animations : list (string * Clip num);
  currentAnimation : option string
}.

Section Methods.
Context {num : Type} {N : JSNumber num}.
Local Open Scope js_scope.

(** The animation fields set by [new GameObject()]. *)
Definition new : t num :=
  {| currentFrame := 0; frameTime := lit 0; animationSpeed := lit 100;
     animations := []; currentAnimation := None |}.

(** [animations.get(name)]. *)
Definition get (l : list (string * Clip num)) (name : string) : option (Clip num) :=
  match find (fun entry => String.eqb (fst entry) name) l with
  | Some entry => Some (snd entry)
  | None => None
  end.

(** [animations.set(name, clip)]: a known key keeps its place. *)
Fixpoint set (l : list (string * Clip num)) (name : string) (clip : Clip num)
  : list (string * Clip num) :=
  match l with
  | [] => [(name, clip)]
  | (k, v) :: rest =>
      if String.eqb k name then (k, clip) :: rest
      else (k, v) :: set rest name clip
  end.

Definition addAnimation (a : t num) (name : string) (clipFrames : list (Frame num))
  (isLoop : bool) (complete : option Callback) : t num :=
  {| currentFrame := currentFrame a; frameTime := frameTime a;
     animationSpeed := animationSpeed a;
     animations := set (animations a) name (mkClip clipFrames isLoop complete);
     currentAnimation := currentAnimation a |}.

Definition playAnimation (a : t num) (name : string) (reset : bool) : t num :=
  let same :=
    match currentAnimation a with
    | Some current => String.eqb current name
    | None => false
    end in
  if same && negb reset then a
  else {| currentFrame := 0; frameTime := lit 0; animationSpeed := animationSpeed a;
          animations := animations a; currentAnimation := Some name |}.

Definition stopAnimation (a : t num) : t num :=
  {| currentFrame := 0; frameTime := lit 0; animationSpeed := animationSpeed a;
     animations := animations a; currentAnimation := None |}.

(** [updateAnimation(deltaTime)]: the new fields and the [onComplete]
    handlers called.  An empty name is falsy, like [null]. *)
Definition updateAnimation (a : t num) (deltaTime : num) : t num * list Callback :=
  match currentAnimation a with
  | None => (a, [])
  | Some name =>
      if String.eqb name "" then (a, [])
      else
        match get (animations a) name with
        | None => (a, [])
        | Some animation =>
            let frameTime1 := frameTime a + deltaTime in
            if frameTime1 >=? animationSpeed a then
              let currentFrame1 := (currentFrame a + 1)%Z in
              let len := Z.of_nat (List.length (frames animation)) in
              let '(currentFrame2, calls) :=
                if (currentFrame1 >=? len)%Z then
                  if loop animation then (0%Z, [])
                  else ((len - 1)%Z,
                        match onComplete animation with
                        | Some handler => [handler]
                        | None => []
                        end)
                else (currentFrame1, []) in
              ({| currentFrame := currentFrame2; frameTime := lit 0;
                  animationSpeed := animationSpeed a; animations := animations a;
                  currentAnimation := currentAnimation a |}, calls)
            else
              ({| currentFrame := currentFrame a; frameTime := frameTime1;
                  animationSpeed := animationSpeed a; animations := animations a;
                  currentAnimation := currentAnimation a |}, [])
        end
  end.

End Methods.

End Animation.

(* ================================================================= *)
(** ** CollisionDetection (src/js/utils/CollisionDetection.js) *)

(** Rectangles are [{x, y, width, height}] ([Bounds.t]) and points are
    [{x, y}] ([Vector2.t]). *)
Module CollisionDetection.

Record Circle (num : Type) : Type := mkCircle {
  centerX : num;
  centerY : num;
  radius : num
}.

Section Ops.
Context {num : Type} {N : JSNumber num}.
Local Open Scope js_scope.

Definition rectOverlap (rect1 rect2 : Bounds.t num) : bool :=
  (Bounds.x rect1 <? Bounds.x rect2 + Bounds.width rect2)
  && (Bounds.x rect1 + Bounds.width rect1 >? Bounds.x rect2)
  && (Bounds.y rect1 <? Bounds.y rect2 + Bounds.height rect2)
  && (Bounds.y rect1 + Bounds.height rect1 >? Bounds.y rect2).

Definition pointInRect (point : Vector2.t num) (rect : Bounds.t num) : bool :=
  (Vector2.x point >=? Bounds.x rect)
  && (Vector2.x point <=? Bounds.x rect + Bounds.width rect)
  && (Vector2.y point >=? Bounds.y rect)
  && (Vector2.y point <=? Bounds.y rect + Bounds.height rect).

Definition circleOverlap (circle1 circle2 : Circle num) : bool :=
  let dx := centerX circle1 - centerX circle2 in
  let dy := centerY circle1 - centerY circle2 in
  let distance := nsqrt (dx * dx + dy * dy) in
  distance <? radius circle1 + radius circle2.

Definition circleRectOverlap (circle : Circle num) (rect : Bounds.t num) : bool :=
  let closestX :=
    nmax (Bounds.x rect) (nmin (centerX circle) (Bounds.x rect + Bounds.width rect)) in
  let closestY :=
    nmax (Bounds.y rect) (nmin (centerY circle) (Bounds.y rect + Bounds.height rect)) in
  let dx := centerX circle - closestX in
  let dy := centerY circle - closestY in
  (dx * dx + dy * dy) <? (radius circle * radius circle).

Definition getOverlapRect (rect1 rect2 : Bounds.t num) : option (Bounds.t num) :=
  if negb (rectOverlap rect1 rect2) then None
  else
    let left := nmax (Bounds.x rect1) (Bounds.x rect2) in
    let right := nmin (Bounds.x rect1 + Bounds.width rect1)
                      (Bounds.x rect2 + Bounds.width rect2) in
    let top := nmax (Bounds.y rect1) (Bounds.y rect2) in
    let bottom := nmin (Bounds.y rect1 + Bounds.height rect1)
                       (Bounds.y rect2 + Bounds.height rect2) in
    Some (Bounds.mk left top (right - left) (bottom - top)).

(** [getMTV(rect1, rect2)]: the translation of the moving [rect1]. *)
Definition getMTV (rect1 rect2 : Bounds.t num) : option (Vector2.t num) :=
  match getOverlapRect rect1 rect2 with
  | None => None
  | Some overlap =>
      if Bounds.width overlap <? Bounds.height overlap then
        (* Separate horizontally *)
        Some (Vector2.mk
                (if Bounds.x rect1 + Bounds.width rect1 / lit 2
                    <? Bounds.x rect2 + Bounds.width rect2 / lit 2
                 then - Bounds.width overlap else Bounds.width overlap)
                (lit 0))
      else
        (* Separate vertically *)
        Some (Vector2.mk
                (lit 0)
                (if Bounds.y rect1 + Bounds.height rect1 / lit 2
                    <? Bounds.y rect2 + Bounds.height rect2 / lit 2
                 then - Bounds.height overlap else Bounds.height overlap))
  end.

Definition lineIntersection (line1Start line1End line2Start line2End : Vector2.t num)
  : option (Vector2.t num) :=
  let x1 := Vector2.x line1Start in let y1 := Vector2.y line1Start in
  let x2 := Vector2.x line1End in let y2 := Vector2.y line1End in
  let x3 := Vector2.x line2Start in let y3 := Vector2.y line2Start in
  let x4 := Vector2.x line2End in let y4 := Vector2.y line2End in
  let denom := (x1 - x2) * (y3 - y4) - (y1 - y2) * (x3 - x4) in
  if nabs denom <? lit (1 # 10000000000) then None (* Lines are parallel *)
  else
    let t := ((x1 - x3) * (y3 - y4) - (y1 - y3) * (x3 - x4)) / denom in
    let u := (- ((x1 - x2) * (y1 - y3) - (y1 - y2) * (x1 - x3))) / denom in
    if (t >=? lit 0) && (t <=? lit 1) && (u >=? lit 0) && (u <=? lit 1)
    then Some (Vector2.mk (x1 + t * (x2 - x1)) (y1 + t * (y2 - y1)))
    else None.

Definition distanceSquared (point1 point2 : Vector2.t num) : num :=
  let dx := Vector2.x point1 - Vector2.x point2 in
  let dy := Vector2.y point1 - Vector2.y point2 in
  dx * dx + dy * dy.

Definition distance (point1 point2 : Vector2.t num) : num :=
  nsqrt (distanceSquared point1 point2).

(** The loop of [lineRectIntersection] that keeps the closest of the
    intersections; the first of two at the same distance wins. *)
Definition closestTo (lineStart : Vector2.t num) (first : Vector2.t num)
  (others : list (Vector2.t num)) : Vector2.t num :=
  fst (fold_left
         (fun best candidate =>
            let dist := distanceSquared lineStart candidate in
            if dist <? snd best then (candidate, dist) else best)
         others (first, distanceSquared lineStart first)).

Definition lineRectIntersection (lineStart lineEnd : Vector2.t num) (rect : Bounds.t num)
  : option (Vector2.t num) :=
  let left := Bounds.x rect in
  let right := Bounds.x rect + Bounds.width rect in
  let top := Bounds.y rect in
  let bottom := Bounds.y rect + Bounds.height rect in
  let found (edgeStart edgeEnd : Vector2.t num) : list (Vector2.t num) :=
    match lineIntersection lineStart lineEnd edgeStart edgeEnd with
    | Some point => [point]
    | None => []
    end in
  let intersections :=
    found (Vector2.mk left top) (Vector2.mk right top)          (* Top edge *)
    ++ found (Vector2.mk left bottom) (Vector2.mk right bottom) (* Bottom edge *)
    ++ found (Vector2.mk left top) (Vector2.mk left bottom)     (* Left edge *)
    ++ found (Vector2.mk right top) (Vector2.mk right bottom)   (* Right edge *) in
  match intersections with
  | [] => None
  | first :: others => Some (closestTo lineStart first others)
  end.

(** [pointOnLine(point, lineStart, lineEnd, tolerance)]; the default
    tolerance is [1]. *)
Definition pointOnLine (point lineStart lineEnd : Vector2.t num) (tolerance : num) : bool :=
  let dist1 := distance point lineStart in
  let dist2 := distance point lineEnd in
  let lineLength := distance lineStart lineEnd in
  nabs (dist1 + dist2 - lineLength) <? tolerance.

Definition closestPointOnLine (point lineStart lineEnd : Vector2.t num) : Vector2.t num :=
  let dx := Vector2.x lineEnd - Vector2.x lineStart in
  let dy := Vector2.y lineEnd - Vector2.y lineStart in
  if (dx === lit 0) && (dy === lit 0) then Vector2.mk (Vector2.x lineStart) (Vector2.y lineStart)
  else
    let t := ((Vector2.x point - Vector2.x lineStart) * dx
              + (Vector2.y point - Vector2.y lineStart) * dy)
             / (dx * dx + dy * dy) in
    let clampedT := nmax (lit 0) (nmin (lit 1) t) in
    Vector2.mk (Vector2.x lineStart + clampedT * dx) (Vector2.y lineStart + clampedT * dy).

Definition rectInside (inner outer : Bounds.t num) : bool :=
  (Bounds.x inner >=? Bounds.x outer)
  && (Bounds.y inner >=? Bounds.y outer)
  && (Bounds.x inner + Bounds.width inner <=? Bounds.x outer + Bounds.width outer)
  && (Bounds.y inner + Bounds.height inner <=? Bounds.y outer + Bounds.height outer).

Definition expandRect (rect : Bounds.t num) (amount : num) : Bounds.t num :=
  Bounds.mk (Bounds.x rect - amount) (Bounds.y rect - amount)
            (Bounds.width rect + amount * lit 2) (Bounds.height rect + amount * lit 2).

(** The state of the loop of [boundingBox]: [(minX, maxX, minY, maxY)]. *)
Definition extend (box : num * num * num * num) (point : Vector2.t num)
  : num * num * num * num :=
  let '(minX, maxX, minY, maxY) := box in
  (nmin minX (Vector2.x point), nmax maxX (Vector2.x point),
   nmin minY (Vector2.y point), nmax maxY (Vector2.y point)).

Definition boundingBox (points : list (Vector2.t num)) : Bounds.t num :=
  match points with
  | [] => Bounds.mk (lit 0) (lit 0) (lit 0) (lit 0)
  | first :: others =>
      let '(minX, maxX, minY, maxY) :=
        fold_left extend others
          (Vector2.x first, Vector2.x first, Vector2.y first, Vector2.y first) in
      Bounds.mk minX minY (maxX - minX) (maxY - minY)
  end.

End Ops.

End CollisionDetection.

(* ================================================================= *)
(** ** The heap of objects *)

(** A [Ref] is a JavaScript object reference; [===] on objects is equality
    of references. *)
Definition Ref : Type := nat.
Bind Scope nat_scope with Ref.

Definition Heap (num : Type) : Type := list (GameObject.t num).

Module Heap.

Section Ops.
Context {num : Type}.

Definition lookup (h : Heap num) (r : Ref) : option (GameObject.t num) :=
  nth_error h r.

Fixpoint write (h : Heap num) (r : Ref) (o : GameObject.t num) : Heap num :=
  match h, r with
  | [], _ => []
  | _ :: rest, O => o :: rest
  | first :: rest, S r' => first :: write rest r' o
  end.

(** Run a method that mutates the object behind [r]. *)
Definition modify (f : GameObject.t num -> GameObject.t num) (h : Heap num) (r : Ref)
  : Heap num :=
  match lookup h r with
  | Some o => write h r (f o)
  | None => h
  end.

End Ops.

End Heap.

(** The ray object [{origin, direction, maxDistance}] built by [raycast]. *)
Module Ray.

Record t (num : Type) : Type := mk {
  origin : Vector2.t num;
  direction : Vector2.t num;
  maxDistance : num
}.

End Ray.

(* ================================================================= *)
(** ** SpatialGrid (src/js/core/Physics.js) *)

(** What a JavaScript call completes with: a value or a thrown error. *)
Inductive Completion (A : Type) : Type :=
| Normal (value : A)
| Throw (error : string).
Arguments Normal {A} _.
Arguments Throw {A} _.

(** How a method that works on the state of the game ends: it returns, or
    it throws an error that nothing catches; the state is then left as it
    is at the throw. *)
Inductive Ending : Type :=
| Returned
| Thrown (error : string).

Module SpatialGrid.

(** The key [`${x},${y}`] of a cell, as the pair of integers it prints. *)
Definition CellKey : Type := (Z * Z)%type.

(** What [Math.min] and [Math.max] make of an identifier: a whole number,
    or [NaN] ([None]) for a string that is not a numeric literal. *)
Definition toNumber (i : Id) : option Z :=
  match i with
  | WholeId n => Some n
  | LevelId _ => None
  end.

(** The key [`${min}-${max}`] of a pair of object identifiers, as the two
    values it prints: two whole numbers, or ['NaN-NaN']. *)
Definition PairKey : Type := (option Z * option Z)%type.

Definition part_eqb (a b : option Z) : bool :=
  match a, b with
  | Some x, Some y => Z.eqb x y
  | None, None => true
  | _, _ => false
  end.

Definition cell_eqb (c d : CellKey) : bool :=
  Z.eqb (fst c) (fst d) && Z.eqb (snd c) (snd d).

Definition pairKey_eqb (c d : PairKey) : bool :=
  part_eqb (fst c) (fst d) && part_eqb (snd c) (snd d).

(** The [Map] from cell key to the array of objects in the cell: a [Map]
    iterates in the order its keys were first set. *)
Definition Grid : Type := list (CellKey * list Ref).

Record t (num : Type) : Type := mk {
  cellSize : num;
  grid : Grid
}.

(** The integers [lo, lo+1, ..., hi] of a [for (let i = lo; i <= hi; i++)]. *)
Definition range (lo hi : Z) : list Z :=
  map (fun i => (lo + Z.of_nat i)%Z) (seq 0 (Z.to_nat (hi - lo + 1))).

(** [grid.get(cellKey).push(obj)], after [grid.set(cellKey, [])] when the
    key is new. *)
Fixpoint push (g : Grid) (cellKey : CellKey) (obj : Ref) : Grid :=
  match g with
  | [] => [(cellKey, [obj])]
  | (k, objects) :: rest =>
      if cell_eqb k cellKey then (k, objects ++ [obj]) :: rest
      else (k, objects) :: push rest cellKey obj
  end.

Definition get (g : Grid) (cellKey : CellKey) : option (list Ref) :=
  match find (fun entry => cell_eqb (fst entry) cellKey) g with
  | Some entry => Some (snd entry)
  | None => None
  end.

(** The pairs [(objects[i], objects[j])], [i < j], in the order of the two
    nested loops. *)
Fixpoint cellPairs (objects : list Ref) : list (Ref * Ref) :=
  match objects with
  | [] => []
  | first :: rest => map (pair first) rest ++ cellPairs rest
  end.

Section Ops.
Context {num : Type} {N : JSNumber num} {F : JSFloor num}.
Local Open Scope js_scope.

Definition clear (this : t num) : t num := mk (cellSize this) [].

Definition getCellsForBounds (this : t num) (bounds : Bounds.t num) : list CellKey :=
  let startX := nfloor (Bounds.x bounds / cellSize this) in
  let endX := nfloor ((Bounds.x bounds + Bounds.width bounds) / cellSize this) in
  let startY := nfloor (Bounds.y bounds / cellSize this) in
  let endY := nfloor ((Bounds.y bounds + Bounds.height bounds) / cellSize this) in
  flat_map (fun x => map (fun y => (x, y)) (range startY endY)) (range startX endX).

Definition addObject (h : Heap num) (this : t num) (obj : Ref) : t num :=
  match Heap.lookup h obj with
  | Some o =>
      let cells := getCellsForBounds this (GameObject.getBounds o) in
      mk (cellSize this) (fold_left (fun g cellKey => push g cellKey obj) cells (grid this))
  | None => this
  end.

Definition isLive (h : Heap num) (obj : Ref) : bool :=
  match Heap.lookup h obj with
  | Some o => GameObject.active o && negb (GameObject.destroyed o)
  | None => false
  end.

Definition addObjects (h : Heap num) (this : t num) (objects : list Ref) : t num :=
  fold_left (fun g obj => if isLive h obj then addObject h g obj else g) objects this.

Definition idOf (h : Heap num) (obj : Ref) : Id :=
  match Heap.lookup h obj with
  | Some o => GameObject.id o
  | None => WholeId 0
  end.

(** [Math.min] and [Math.max] of two identifiers: [NaN] as soon as one of
    them is [NaN]. *)
Definition minId (a b : Id) : option Z :=
  match toNumber a, toNumber b with
  | Some x, Some y => Some (Z.min x y)
  | _, _ => None
  end.

Definition maxId (a b : Id) : option Z :=
  match toNumber a, toNumber b with
  | Some x, Some y => Some (Z.max x y)
  | _, _ => None
  end.

Definition pairKey (h : Heap num) (p : Ref * Ref) : PairKey :=
  (minId (idOf h (fst p)) (idOf h (snd p)), maxId (idOf h (fst p)) (idOf h (snd p))).

(** The body of the innermost loop of [getPotentialCollisionPairs]; the
    state is [(pairs, checked)]. *)
Definition visitPair (h : Heap num) (st : list (Ref * Ref) * list PairKey)
  (p : Ref * Ref) : list (Ref * Ref) * list PairKey :=
  let key := pairKey h p in
  if existsb (pairKey_eqb key) (snd st) then st
  else (fst st ++ [p], key :: snd st).

Definition getPotentialCollisionPairs (h : Heap num) (this : t num) : list (Ref * Ref) :=
  fst (fold_left
         (fun st entry => fold_left (visitPair h) (cellPairs (snd entry)) st)
         (grid this) ([], [])).

(** [getObjectsInRay]: [distance] is declared [const], so the statement
    [distance += step] that ends the first turn of the loop throws a
    TypeError; the function returns only when the loop is not entered. *)
Definition getObjectsInRay (this : t num) (ray : Ray.t num)
  : Completion (list Ref) :=
  let distance := lit 0 in
  if distance <? Ray.maxDistance ray
  then Throw "TypeError"
  else Normal [].

End Ops.

End SpatialGrid.

(* ================================================================= *)
(** ** Physics (src/js/core/Physics.js) *)

Module Physics.

(** The collision record produced by the narrow phase. *)
Record Collision (num : Type) : Type := mkCollision {
  normal : Vector2.t num;
  penetration : num;
  point : Vector2.t num
}.

(** An entry of [this.collisionPairs]. *)
Record Pair (num : Type) : Type := mkPair {
  objectA : Ref;
  objectB : Ref;
  collision : Collision num
}.

(** A call of a handler of an entity, [self.onTriggerEnter(other, collision)]
    or [self.onCollision(other, collision)].  The handlers are entity code;
    the physics step is followed up to the call. *)
Inductive Event (num : Type) : Type :=
| OnTriggerEnter (self other : Ref) (c : Collision num)
| OnCollision (self other : Ref) (c : Collision num).

(** What [raycastAABB] returns when it is not [null]. *)
Record Hit (num : Type) : Type := mkHit {
  hitPoint : Vector2.t num;
  hitNormal : Vector2.t num;
  hitDistance : num
}.

Section NarrowPhase.
Context {num : Type} {N : JSNumber num}.
Local Open Scope js_scope.

Definition includes (l : list string) (s : string) : bool :=
  existsb (String.eqb s) l.

(** [layers || ['default']]: an array, even an empty one, is truthy. *)
Definition orDefault (l : option (list string)) : list string :=
  match l with
  | Some layers => layers
  | None => ["default"%string]
  end.

Definition shouldCheckCollision (a b : Ref) (objA objB : GameObject.t num) : bool :=
  (* Skip if same object *)
  if Nat.eqb a b then false
  (* Skip if either is destroyed or inactive *)
  else if GameObject.destroyed objA || GameObject.destroyed objB
          || negb (GameObject.active objA) || negb (GameObject.active objB)
  then false
  (* Skip if neither is solid (unless one is a trigger) *)
  else if negb (GameObject.solid objA) && negb (GameObject.solid objB)
          && negb (GameObject.isTrigger objA) && negb (GameObject.isTrigger objB)
  then false
  else
    let layersA := orDefault (GameObject.collisionLayers objA) in
    let layersB := orDefault (GameObject.collisionLayers objB) in
    let maskA := orDefault (GameObject.collisionMask objA) in
    let maskB := orDefault (GameObject.collisionMask objB) in
    existsb (fun layerA =>
      existsb (fun layerB => includes maskA layerB || includes maskB layerA) layersB)
      layersA.

Definition checkAABBCollision (objA objB : GameObject.t num) : option (Collision num) :=
  let boundsA := GameObject.getBounds objA in
  let boundsB := GameObject.getBounds objB in
  if (Bounds.x boundsA + Bounds.width boundsA <=? Bounds.x boundsB)
     || (Bounds.x boundsB + Bounds.width boundsB <=? Bounds.x boundsA)
     || (Bounds.y boundsA + Bounds.height boundsA <=? Bounds.y boundsB)
     || (Bounds.y boundsB + Bounds.height boundsB <=? Bounds.y boundsA)
  then None
  else
    let overlapX :=
      nmin (Bounds.x boundsA + Bounds.width boundsA) (Bounds.x boundsB + Bounds.width boundsB)
      - nmax (Bounds.x boundsA) (Bounds.x boundsB) in
    let overlapY :=
      nmin (Bounds.y boundsA + Bounds.height boundsA) (Bounds.y boundsB + Bounds.height boundsB)
      - nmax (Bounds.y boundsA) (Bounds.y boundsB) in
    let contact :=
      Vector2.mk (nmax (Bounds.x boundsA) (Bounds.x boundsB) + overlapX / lit 2)
                 (nmax (Bounds.y boundsA) (Bounds.y boundsB) + overlapY / lit 2) in
    if overlapX <? overlapY then
      (* Horizontal collision *)
      Some (mkCollision
              (if Bounds.x boundsA <? Bounds.x boundsB
               then Vector2.mk (- lit 1) (lit 0) else Vector2.mk (lit 1) (lit 0))
              overlapX contact)
    else
      (* Vertical collision *)
      Some (mkCollision
              (if Bounds.y boundsA <? Bounds.y boundsB
               then Vector2.mk (lit 0) (- lit 1) else Vector2.mk (lit 0) (lit 1))
              overlapY contact).

(** The resolution functions mutate the two objects of a pair; they are
    only called on pairs that passed [shouldCheckCollision], hence on two
    different objects, and return the new states of both. *)
Definition positionalCorrection (objA objB : GameObject.t num) (c : Collision num)
  : GameObject.t num * GameObject.t num :=
  let correction := Vector2.multiply (normal c) (penetration c * lit 0.8) in
  let totalMass := GameObject.mass objA + GameObject.mass objB in
  let ratioA := GameObject.mass objB / totalMass in
  let ratioB := GameObject.mass objA / totalMass in
  if GameObject.solid objA && GameObject.solid objB then
    (GameObject.set_position objA
       (Vector2.subtract (GameObject.position objA) (Vector2.multiply correction ratioA)),
     GameObject.set_position objB
       (Vector2.add (GameObject.position objB) (Vector2.multiply correction ratioB)))
  else if GameObject.solid objA then
    (objA,
     GameObject.set_position objB (Vector2.add (GameObject.position objB) correction))
  else if GameObject.solid objB then
    (GameObject.set_position objA (Vector2.subtract (GameObject.position objA) correction),
     objB)
  else (objA, objB).

Definition applyFriction (objA objB : GameObject.t num) (c : Collision num)
  (normalImpulse : num) : GameObject.t num * GameObject.t num :=
  let relativeVelocity :=
    Vector2.subtract (GameObject.velocity objB) (GameObject.velocity objA) in
  let tangent0 :=
    Vector2.subtract relativeVelocity
      (Vector2.multiply (normal c) (Vector2.dot relativeVelocity (normal c))) in
  if Vector2.magnitudeSquared tangent0 <? lit 0.001 then (objA, objB)
  else
    let tangent := Vector2.normalize tangent0 in
    let frictionCoefficient :=
      nsqrt (GameObject.friction objA * GameObject.friction objB) in
    let frictionImpulse :=
      (- Vector2.dot relativeVelocity tangent)
      / (lit 1 / GameObject.mass objA + lit 1 / GameObject.mass objB) in
    let frictionMagnitude := nabs normalImpulse * frictionCoefficient in
    let friction :=
      if nabs frictionImpulse <? frictionMagnitude
      then Vector2.multiply tangent frictionImpulse
      else Vector2.multiply tangent ((- frictionMagnitude) * nsign frictionImpulse) in
    let objA' :=
      if GameObject.solid objA && negb (GameObject.hasTag objA "static")
      then GameObject.set_velocity objA
             (Vector2.subtract (GameObject.velocity objA)
                (Vector2.multiply friction (lit 1 / GameObject.mass objA)))
      else objA in
    let objB' :=
      if GameObject.solid objB && negb (GameObject.hasTag objB "static")
      then GameObject.set_velocity objB
             (Vector2.add (GameObject.velocity objB)
                (Vector2.multiply friction (lit 1 / GameObject.mass objB)))
      else objB in
    (objA', objB').

Definition resolveVelocity (objA objB : GameObject.t num) (c : Collision num)
  : GameObject.t num * GameObject.t num :=
  let relativeVelocity :=
    Vector2.subtract (GameObject.velocity objB) (GameObject.velocity objA) in
  let velocityAlongNormal := Vector2.dot relativeVelocity (normal c) in
  (* Don't resolve if velocities are separating *)
  if velocityAlongNormal >? lit 0 then (objA, objB)
  else
    let restitution := nmin (GameObject.bounciness objA) (GameObject.bounciness objB) in
    let impulseScalar :=
      ((- (lit 1 + restitution)) * velocityAlongNormal)
      / (lit 1 / GameObject.mass objA + lit 1 / GameObject.mass objB) in
    let impulse := Vector2.multiply (normal c) impulseScalar in
    let objA' :=
      if GameObject.solid objA && negb (GameObject.hasTag objA "static")
      then GameObject.set_velocity objA
             (Vector2.subtract (GameObject.velocity objA)
                (Vector2.multiply impulse (lit 1 / GameObject.mass objA)))
      else objA in
    let objB' :=
      if GameObject.solid objB && negb (GameObject.hasTag objB "static")
      then GameObject.set_velocity objB
             (Vector2.add (GameObject.velocity objB)
                (Vector2.multiply impulse (lit 1 / GameObject.mass objB)))
      else objB in
    applyFriction objA' objB' c impulseScalar.

Definition isSome {A : Type} (o : option A) : bool :=
  match o with Some _ => true | None => false end.

Definition handleTriggerCollision (a b : Ref) (objA objB : GameObject.t num)
  (c : Collision num) : list (Event num) :=
  (if GameObject.isTrigger objA && isSome (GameObject.onTriggerEnter objA)
   then [OnTriggerEnter a b c] else [])
  ++
  (if GameObject.isTrigger objB && isSome (GameObject.onTriggerEnter objB)
   then [OnTriggerEnter b a c] else []).

Definition handleCollisionCallbacks (a b : Ref) (objA objB : GameObject.t num)
  (c : Collision num) : list (Event num) :=
  (if isSome (GameObject.onCollision objA) then [OnCollision a b c] else [])
  ++
  (if isSome (GameObject.onCollision objB) then [OnCollision b a c] else []).

(** [resolveCollision] on the two objects of a pair: their new states and
    the handler calls made, in order. *)
Definition resolveCollisionObjects (a b : Ref) (objA objB : GameObject.t num)
  (c : Collision num) : GameObject.t num * GameObject.t num * list (Event num) :=
  (* Handle trigger collisions *)
  if GameObject.isTrigger objA || GameObject.isTrigger objB then
    (objA, objB, handleTriggerCollision a b objA objB c)
  (* Skip if neither object is solid *)
  else if negb (GameObject.solid objA) && negb (GameObject.solid objB) then
    (objA, objB, [])
  else
    let '(objA1, objB1) := positionalCorrection objA objB c in
    let '(objA2, objB2) := resolveVelocity objA1 objB1 c in
    (objA2, objB2, handleCollisionCallbacks a b objA2 objB2 c).

(** [raycastAABB]: the slab test, with no test of the direction's
    components before the divisions. *)
Definition raycastAABB (ray : Ray.t num) (obj : GameObject.t num) : option (Hit num) :=
  let bounds := GameObject.getBounds obj in
  let tMin :=
    Vector2.mk ((Bounds.x bounds - Vector2.x (Ray.origin ray)) / Vector2.x (Ray.direction ray))
               ((Bounds.y bounds - Vector2.y (Ray.origin ray)) / Vector2.y (Ray.direction ray)) in
  let tMax :=
    Vector2.mk ((Bounds.x bounds + Bounds.width bounds - Vector2.x (Ray.origin ray))
                  / Vector2.x (Ray.direction ray))
               ((Bounds.y bounds + Bounds.height bounds - Vector2.y (Ray.origin ray))
                  / Vector2.y (Ray.direction ray)) in
  let t1 := Vector2.mk (nmin (Vector2.x tMin) (Vector2.x tMax))
                       (nmin (Vector2.y tMin) (Vector2.y tMax)) in
  let t2 := Vector2.mk (nmax (Vector2.x tMin) (Vector2.x tMax))
                       (nmax (Vector2.y tMin) (Vector2.y tMax)) in
  let tNear := nmax (Vector2.x t1) (Vector2.y t1) in
  let tFar := nmin (Vector2.x t2) (Vector2.y t2) in
  if (tNear >? tFar) || (tFar <? lit 0) || (tNear >? Ray.maxDistance ray) then None
  else
    let distance := if tNear >? lit 0 then tNear else tFar in
    let point := Vector2.add (Ray.origin ray) (Vector2.multiply (Ray.direction ray) distance) in
    let normal :=
      if nabs (tNear - Vector2.x t1) <? lit 0.001
      then Vector2.mk (if Vector2.x (Ray.direction ray) >? lit 0 then - lit 1 else lit 1) (lit 0)
      else Vector2.mk (lit 0) (if Vector2.y (Ray.direction ray) >? lit 0 then - lit 1 else lit 1) in
    Some (mkHit point normal distance).

End NarrowPhase.

(** *** The physics step over the heap *)

Record t (num : Type) : Type := mk {
  gravity : Vector2.t num;
  terminalVelocity : num;
  spatialGrid : SpatialGrid.t num;
  collisionMatrix : list (string * list string);
  subSteps : nat
}.

(** A hit of [raycast]: the object and what [raycastAABB] found. *)
Record RayHit (num : Type) : Type := mkRayHit {
  object : Ref;
  hit : Hit num
}.

(** [collisionMatrix.set(layer1, new Set(layers))]. *)
Fixpoint setLayerCollision (m : list (string * list string)) (layer1 : string)
  (layers : list string) : list (string * list string) :=
  match m with
  | [] => [(layer1, layers)]
  | (k, v) :: rest =>
      if String.eqb k layer1 then (k, layers) :: rest
      else (k, v) :: setLayerCollision rest layer1 layers
  end.

Definition setupDefaultCollisionLayers : list (string * list string) :=
  let m0 := [] in
  let m1 := setLayerCollision m0 "player" ["solid"; "platform"; "enemy"; "pickup"]%string in
  let m2 := setLayerCollision m1 "enemy" ["solid"; "platform"; "player"; "projectile"]%string in
  let m3 := setLayerCollision m2 "projectile" ["solid"; "enemy"]%string in
  let m4 := setLayerCollision m3 "pickup" ["player"]%string in
  let m5 := setLayerCollision m4 "solid" ["player"; "enemy"; "projectile"]%string in
  setLayerCollision m5 "platform" ["player"; "enemy"]%string.

Section Engine.
Context {num : Type} {N : JSNumber num} {F : JSFloor num}.
Local Open Scope js_scope.

(** [new Physics()]. *)
Definition new : t num :=
  {| gravity := Vector2.mk (lit 0) (lit 980);
     terminalVelocity := lit 1000;
     spatialGrid := SpatialGrid.mk (lit 64) [];
     collisionMatrix := setupDefaultCollisionLayers;
     subSteps := 4 |}.

(** [layer1Collisions && layer1Collisions.has(layer2)], as a truth value. *)
Definition canLayersCollide (this : t num) (layer1 layer2 : string) : bool :=
  match find (fun entry => String.eqb (fst entry) layer1) (collisionMatrix this) with
  | Some entry => includes (snd entry) layer2
  | None => false
  end.

Definition isLive (o : GameObject.t num) : bool :=
  GameObject.active o && negb (GameObject.destroyed o).

(** The body of the loop of [applyGravity], on one object. *)
Definition applyGravityTo (this : t num) (obj : GameObject.t num) : GameObject.t num :=
  if isLive obj && (GameObject.gravityScale obj >? lit 0) then
    let gravityForce :=
      Vector2.multiply (gravity this) (GameObject.gravityScale obj * GameObject.mass obj) in
    let obj1 := GameObject.addForce obj gravityForce in
    (* Apply terminal velocity *)
    if Vector2.y (GameObject.velocity obj1) >? terminalVelocity this
    then GameObject.set_velocity obj1
           (Vector2.mk (Vector2.x (GameObject.velocity obj1)) (terminalVelocity this))
    else obj1
  else obj.

Definition applyGravity (this : t num) (objects : list Ref) (deltaTime : num)
  (h : Heap num) : Heap num :=
  fold_left (Heap.modify (applyGravityTo this)) objects h.

Definition integrateVelocity (obj : GameObject.t num) (deltaTime : num) : GameObject.t num :=
  let obj1 := GameObject.set_velocity obj
                (Vector2.add (GameObject.velocity obj)
                   (Vector2.multiply (GameObject.acceleration obj) deltaTime)) in
  GameObject.set_acceleration obj1 (Vector2.mk (lit 0) (lit 0)).

Definition integratePosition (obj : GameObject.t num) (deltaTime : num) : GameObject.t num :=
  GameObject.set_position obj
    (Vector2.add (GameObject.position obj)
       (Vector2.multiply (GameObject.velocity obj) deltaTime)).

(** [detectCollisions]: the value given to [this.collisionPairs]. *)
Definition detectCollisions (this : t num) (h : Heap num) : list (Pair num) :=
  let potentialPairs := SpatialGrid.getPotentialCollisionPairs h (spatialGrid this) in
  flat_map
    (fun pair : Ref * Ref =>
       let (a, b) := pair in
       match Heap.lookup h a, Heap.lookup h b with
       | Some objA, Some objB =>
           if shouldCheckCollision a b objA objB then
             match checkAABBCollision objA objB with
             | Some c => [mkPair a b c]
             | None => []
             end
           else []
       | _, _ => []
       end)
    potentialPairs.

(** [Array.prototype.sort] is stable; the comparator
    [(a, b) => b.collision.penetration - a.collision.penetration] puts the
    deeper penetration first. *)
Fixpoint insertByPenetration (p : Pair num) (sorted : list (Pair num)) : list (Pair num) :=
  match sorted with
  | [] => [p]
  | q :: rest =>
      if penetration (collision p) <? penetration (collision q)
      then q :: insertByPenetration p rest
      else p :: q :: rest
  end.

Definition sortByPenetration (pairs : list (Pair num)) : list (Pair num) :=
  fold_right insertByPenetration [] pairs.

Definition resolveCollision (st : Heap num * list (Event num)) (pair : Pair num)
  : Heap num * list (Event num) :=
  let (h, log) := st in
  match Heap.lookup h (objectA pair), Heap.lookup h (objectB pair) with
  | Some objA, Some objB =>
      let '(objA', objB', events) :=
        resolveCollisionObjects (objectA pair) (objectB pair) objA objB (collision pair) in
      (Heap.write (Heap.write h (objectA pair) objA') (objectB pair) objB', log ++ events)
  | _, _ => st
  end.

Definition resolveCollisions (collisionPairs : list (Pair num))
  (st : Heap num * list (Event num)) : Heap num * list (Event num) :=
  fold_left resolveCollision (sortByPenetration collisionPairs) st.

Definition physicsSubStep (this : t num) (objects : list Ref) (deltaTime : num)
  (st : Heap num * list (Event num)) : Heap num * list (Event num) :=
  let (h, log) := st in
  (* Move objects *)
  let h1 :=
    fold_left
      (Heap.modify (fun obj =>
         if isLive obj && (GameObject.gravityScale obj !== lit 0)
         then integrateVelocity obj deltaTime else obj))
      objects h in
  (* Detect and resolve collisions *)
  let collisionPairs := detectCollisions this h1 in
  let (h2, log2) := resolveCollisions collisionPairs (h1, log) in
  (* Update positions *)
  let h3 :=
    fold_left
      (Heap.modify (fun obj => if isLive obj then integratePosition obj deltaTime else obj))
      objects h2 in
  (h3, log2).

Fixpoint repeat_step {St : Type} (n : nat) (step : St -> St) (s : St) : St :=
  match n with
  | O => s
  | S n' => repeat_step n' step (step s)
  end.

Definition withGrid (this : t num) (g : SpatialGrid.t num) : t num :=
  {| gravity := gravity this; terminalVelocity := terminalVelocity this;
     spatialGrid := g; collisionMatrix := collisionMatrix this;
     subSteps := subSteps this |}.

(** [update(world, deltaTime)], on [world.gameObjects]: the physics object
    with its rebuilt grid, the heap and the handler calls made. *)
Definition update (this : t num) (gameObjects : list Ref) (deltaTime : num)
  (h : Heap num) : t num * Heap num * list (Event num) :=
  (* Apply gravity to all physics objects *)
  let h1 := applyGravity this gameObjects deltaTime h in
  (* Update spatial grid *)
  let g := SpatialGrid.addObjects h1 (SpatialGrid.clear (spatialGrid this)) gameObjects in
  let this1 := withGrid this g in
  (* Perform collision detection and resolution in substeps *)
  let subDeltaTime := deltaTime / lit (inject_Z (Z.of_nat (subSteps this))) in
  let (h2, log) :=
    repeat_step (subSteps this) (physicsSubStep this1 gameObjects subDeltaTime) (h1, []) in
  (this1, h2, log).

Definition setGravity (this : t num) (x y : num) : t num :=
  {| gravity := Vector2.mk x y; terminalVelocity := terminalVelocity this;
     spatialGrid := spatialGrid this; collisionMatrix := collisionMatrix this;
     subSteps := subSteps this |}.

(** [n] calls of [update] in a row on the same object list: the physics
    object and the heap after the last one. *)
Fixpoint updates (n : nat) (this : t num) (gameObjects : list Ref) (deltaTime : num)
  (h : Heap num) : t num * Heap num :=
  match n with
  | O => (this, h)
  | S n' =>
      let '(this1, h1, _) := update this gameObjects deltaTime h in
      updates n' this1 gameObjects deltaTime h1
  end.

Definition objectMatchesLayerMask (obj : GameObject.t num) (layerMask : list string) : bool :=
  existsb (includes layerMask) (orDefault (GameObject.collisionLayers obj)).

Fixpoint insertByDistance (x : RayHit num) (sorted : list (RayHit num)) : list (RayHit num) :=
  match sorted with
  | [] => [x]
  | q :: rest =>
      if hitDistance (hit q) <? hitDistance (hit x)
      then q :: insertByDistance x rest
      else x :: q :: rest
  end.

(** [raycast(origin, direction, maxDistance, layerMask)]. *)
Definition raycast (this : t num) (h : Heap num) (origin direction : Vector2.t num)
  (maxDistance : num) (layerMask : option (list string)) : Completion (list (RayHit num)) :=
  let ray := Ray.mk origin (Vector2.normalized direction) maxDistance in
  match SpatialGrid.getObjectsInRay (spatialGrid this) ray with
  | Throw e => Throw e
  | Normal potentialObjects =>
      let hits :=
        flat_map
          (fun obj : Ref =>
             match Heap.lookup h obj with
             | Some o =>
                 let skip :=
                   match layerMask with
                   | Some mask => negb (objectMatchesLayerMask o mask)
                   | None => false
                   end in
                 if skip then []
                 else match raycastAABB ray o with
                      | Some found => [mkRayHit obj found]
                      | None => []
                      end
             | None => []
             end)
          potentialObjects in
      Normal (fold_right insertByDistance [] hits)
  end.

(** [isGrounded(obj, groundDistance)] and [isTouchingWall(obj, direction,
    wallDistance)]: [hits.length > 0], when [raycast] returns.  Both
    distances default to [5]. *)
Definition defaultProbeDistance : num := lit 5.

Definition isGrounded (this : t num) (h : Heap num) (obj : GameObject.t num)
  (groundDistance : num) : Completion bool :=
  let bounds := GameObject.getBounds obj in
  let rayOrigin :=
    Vector2.mk (Bounds.x bounds + Bounds.width bounds / lit 2)
               (Bounds.y bounds + Bounds.height bounds) in
  let rayDirection := Vector2.down in
  match raycast this h rayOrigin rayDirection groundDistance
          (Some ["solid"; "platform"]%string) with
  | Throw e => Throw e
  | Normal hits => Normal (Nat.ltb 0 (List.length hits))
  end.

Definition isTouchingWall (this : t num) (h : Heap num) (obj : GameObject.t num)
  (direction : Vector2.t num) (wallDistance : num) : Completion bool :=
  let bounds := GameObject.getBounds obj in
  let rayOrigin :=
    Vector2.mk (Bounds.x bounds + Bounds.width bounds / lit 2
                + Vector2.x direction * Bounds.width bounds / lit 2)
               (Bounds.y bounds + Bounds.height bounds / lit 2) in
  match raycast this h rayOrigin direction wallDistance (Some ["solid"%string]) with
  | Throw e => Throw e
  | Normal hits => Normal (Nat.ltb 0 (List.length hits))
  end.

End Engine.

End Physics.

(* ================================================================= *)
(** ** World (src/unnamed/part_003) *)

Module World.

(** A layer of [this.layers]: its [zIndex] and its [objects]. *)
Record Layer : Type := mkLayer {
  zIndex : Z;
  objects : list Ref
}.

(** A value of the [Map] [this.layers]: a layer, as [setupDefaultLayers]
    makes it, or the array of tile numbers that [loadLevel] stores under
    ['background'], ['collision'] and ['foreground'].  An array has no
    [objects]. *)
Inductive Entry : Type :=
| Group (layer : Layer)
| Tiles (data : list Z).

Record t (num : Type) : Type := mk {
  gameObjects : list Ref;
  toAdd : list Ref;
  toRemove : list Ref;
  layers : list (string * Entry);
  paused : bool;
  timeScale : num;
  worldTime : num
}.

(** What the [update] of an entity asks of the world and of other objects
    while the world walks its object list. *)
Inductive Call : Type :=
| CallAddObject (obj : Ref)
| CallRemoveObject (obj : Ref)
| CallDestroy (obj : Ref).

Definition setupDefaultLayers : list (string * Entry) :=
  [ ("background", Group (mkLayer (-100) []));
    ("tiles", Group (mkLayer (-50) []));
    ("platforms", Group (mkLayer (-10) []));
    ("entities", Group (mkLayer 0 []));
    ("player", Group (mkLayer 50 []));
    ("projectiles", Group (mkLayer 60 []));
    ("effects", Group (mkLayer 100 []));
    ("ui", Group (mkLayer 1000 [])) ]%string.

(** [layers.set(name, entry)]: a known key keeps its place, a new one goes
    last. *)
Fixpoint setEntry (ls : list (string * Entry)) (name : string) (entry : Entry)
  : list (string * Entry) :=
  match ls with
  | [] => [(name, entry)]
  | (k, v) :: rest =>
      if String.eqb k name then (k, entry) :: rest
      else (k, v) :: setEntry rest name entry
  end.

(** What [loadLevel] does to the layers: its three [layers.set], with the
    tile arrays of the level data ([[]] for a missing one). *)
Definition loadTileLayers (ls : list (string * Entry))
  (background collision foreground : list Z) : list (string * Entry) :=
  setEntry (setEntry (setEntry ls "background" (Tiles background))
              "collision" (Tiles collision))
    "foreground" (Tiles foreground).

(** [indexOf] then [splice(index, 1)]: the first occurrence goes. *)
Fixpoint removeFirst (obj : Ref) (l : list Ref) : list Ref :=
  match l with
  | [] => []
  | first :: rest => if Nat.eqb first obj then rest else first :: removeFirst obj rest
  end.

Definition includes (l : list Ref) (obj : Ref) : bool := existsb (Nat.eqb obj) l.

Section Ops.
Context {num : Type} {N : JSNumber num}.
Local Open Scope js_scope.

(** [new World()]. *)
Definition new : t num :=
  {| gameObjects := []; toAdd := []; toRemove := [];
     layers := setupDefaultLayers;
     paused := false; timeScale := lit 1; worldTime := lit 0 |}.

Definition set_lists (w : t num) (live added removed : list Ref)
  (ls : list (string * Entry)) : t num :=
  {| gameObjects := live; toAdd := added; toRemove := removed; layers := ls;
     paused := paused w; timeScale := timeScale w; worldTime := worldTime w |}.

Definition addObject (w : t num) (obj : Ref) : t num :=
  set_lists w (gameObjects w) (toAdd w ++ [obj]) (toRemove w) (layers w).

Definition removeObject (w : t num) (obj : Ref) : t num :=
  if negb (includes (toRemove w) obj)
  then set_lists w (gameObjects w) (toAdd w) (toRemove w ++ [obj]) (layers w)
  else w.

(** [obj.layer || 'entities']. *)
Definition layerNameOf (h : Heap num) (obj : Ref) : string :=
  match Heap.lookup h obj with
  | Some o =>
      match GameObject.layer o with
      | Some name => if String.eqb name "" then "entities"%string else name
      | None => "entities"%string
      end
  | None => "entities"%string
  end.

(** [layers.get(layerName)], then [layer.objects.push(obj)] when the entry
    exists: an array is an entry, and has no [objects] to push to. *)
Fixpoint pushToLayer (ls : list (string * Entry)) (layerName : string) (obj : Ref)
  : Completion (list (string * Entry)) :=
  match ls with
  | [] => Normal []
  | (name, entry) :: rest =>
      if String.eqb name layerName then
        match entry with
        | Group layer =>
            Normal ((name, Group (mkLayer (zIndex layer) (objects layer ++ [obj]))) :: rest)
        | Tiles _ => Throw "TypeError"
        end
      else
        match pushToLayer rest layerName obj with
        | Normal rest' => Normal ((name, entry) :: rest')
        | Throw e => Throw e
        end
  end.

Definition addObjectToLayer (h : Heap num) (ls : list (string * Entry)) (obj : Ref)
  : Completion (list (string * Entry)) :=
  pushToLayer ls (layerNameOf h obj) obj.

(** The entries are walked in the order of the [Map]; the first layer that
    holds the object loses its first occurrence and ends the walk.  An
    array met on the way has no [objects] to search: [indexOf] of
    [undefined] throws, with the layers as they were. *)
Fixpoint removeObjectFromLayer (ls : list (string * Entry)) (obj : Ref)
  : Completion (list (string * Entry)) :=
  match ls with
  | [] => Normal []
  | (name, entry) :: rest =>
      match entry with
      | Group layer =>
          if includes (objects layer) obj
          then Normal ((name, Group (mkLayer (zIndex layer) (removeFirst obj (objects layer))))
                         :: rest)
          else
            match removeObjectFromLayer rest obj with
            | Normal rest' => Normal ((name, entry) :: rest')
            | Throw e => Throw e
            end
      | Tiles _ => Throw "TypeError"
      end
  end.

Definition isDestroyed (h : Heap num) (obj : Ref) : bool :=
  match Heap.lookup h obj with
  | Some o => GameObject.destroyed o
  | None => false
  end.

(** The first loop of [processObjectChanges], over the objects of
    [toAdd] that are left. *)
Fixpoint drainAdded (h : Heap num) (added : list Ref) (w : t num) : t num * Ending :=
  match added with
  | [] => (w, Returned)
  | obj :: rest =>
      let w1 := set_lists w (gameObjects w ++ [obj]) (toAdd w) (toRemove w) (layers w) in
      match addObjectToLayer h (layers w1) obj with
      | Normal ls =>
          drainAdded h rest (set_lists w1 (gameObjects w1) (toAdd w1) (toRemove w1) ls)
      | Throw e => (w1, Thrown e)
      end
  end.

(** Its second loop, over the objects of [toRemove] that are left. *)
Fixpoint drainRemoved (removed : list Ref) (w : t num) : t num * Ending :=
  match removed with
  | [] => (w, Returned)
  | obj :: rest =>
      if includes (gameObjects w) obj then
        let w1 := set_lists w (removeFirst obj (gameObjects w)) (toAdd w) (toRemove w)
                    (layers w) in
        match removeObjectFromLayer (layers w1) obj with
        | Normal ls =>
            drainRemoved rest (set_lists w1 (gameObjects w1) (toAdd w1) (toRemove w1) ls)
        | Throw e => (w1, Thrown e)
        end
      else drainRemoved rest w
  end.

Definition processObjectChanges (h : Heap num) (w : t num) : t num * Ending :=
  (* Add new objects *)
  match drainAdded h (toAdd w) w with
  | (w1, Thrown e) => (w1, Thrown e)
  | (w1, Returned) =>
      let w2 := set_lists w1 (gameObjects w1) [] (toRemove w1) (layers w1) in
      (* Remove destroyed objects *)
      match drainRemoved (toRemove w2) w2 with
      | (w3, Thrown e) => (w3, Thrown e)
      | (w3, Returned) =>
          let w4 := set_lists w3 (gameObjects w3) (toAdd w3) [] (layers w3) in
          (* Clean up destroyed objects *)
          (set_lists w4 (filter (fun obj => negb (isDestroyed h obj)) (gameObjects w4))
             (toAdd w4) (toRemove w4) (layers w4),
           Returned)
      end
  end.

Definition runCall (st : Heap num * t num) (c : Call) : Heap num * t num :=
  let (h, w) := st in
  match c with
  | CallAddObject obj => (h, addObject w obj)
  | CallRemoveObject obj => (h, removeObject w obj)
  | CallDestroy obj => (Heap.modify GameObject.destroy h obj, w)
  end.

Definition isLive (h : Heap num) (obj : Ref) : bool :=
  match Heap.lookup h obj with
  | Some o => GameObject.active o && negb (GameObject.destroyed o)
  | None => false
  end.

(** [updateGameObjects]: every object that is live when its turn comes runs
    [obj.update(deltaTime)], that is [GameObject.updatePhysics] and then the
    entity's own code, given by [script] as the calls it makes. *)
Definition updateGameObjects (script : Ref -> list Call) (deltaTime : num)
  (st : Heap num * t num) : Heap num * t num :=
  fold_left
    (fun acc obj =>
       if isLive (fst acc) obj then
         let h1 :=
           Heap.modify (fun o => GameObject.updatePhysics o deltaTime) (fst acc) obj in
         fold_left runCall (script obj) (h1, snd acc)
       else acc)
    (gameObjects (snd st)) st.

(** [update(deltaTime)].  The steps that follow the object updates
    (particle systems, weather, level transitions, audio zones, world
    events) are left out: they write neither the object list nor the two
    queues.  The level-transition check calls [startLevelTransition], which
    the class does not define; it is reached only when the player overlaps
    an object tagged ['transition']. *)
Definition update (script : Ref -> list Call) (deltaTime : num)
  (st : Heap num * t num) : Heap num * t num * Ending :=
  let (h, w) := st in
  if paused w then (st, Returned)
  else
    let deltaTime1 := deltaTime * timeScale w in
    let w1 :=
      {| gameObjects := gameObjects w; toAdd := toAdd w; toRemove := toRemove w;
         layers := layers w; paused := paused w; timeScale := timeScale w;
         worldTime := worldTime w + deltaTime1 |} in
    (* Process object additions and removals *)
    match processObjectChanges h w1 with
    | (w2, Thrown e) => ((h, w2), Thrown e)
    | (w2, Returned) =>
        (* Update all game objects *)
        (updateGameObjects script deltaTime1 (h, w2), Returned)
    end.

(** [layer ? layer.objects : []]: the objects of the layer, [[]] for a
    missing entry and [undefined] ([None]) for an array. *)
Definition getObjectsForLayer (w : t num) (layerName : string) : option (list Ref) :=
  match find (fun entry => String.eqb (fst entry) layerName) (layers w) with
  | Some (_, Group layer) => Some (objects layer)
  | Some (_, Tiles _) => None
  | None => Some []
  end.

(** [obj.hasTag(tag)] on a reference. *)
Definition hasTag (h : Heap num) (obj : Ref) (tag : string) : bool :=
  match Heap.lookup h obj with
  | Some o => GameObject.hasTag o tag
  | None => false
  end.

Definition getPlayer (h : Heap num) (w : t num) : option Ref :=
  find (fun obj => hasTag h obj "player") (gameObjects w).

Definition getObjectsWithTag (h : Heap num) (w : t num) (tag : string) : list Ref :=
  filter (fun obj => hasTag h obj tag) (gameObjects w).

Definition boundsOverlap (a b : Bounds.t num) : bool :=
  negb ((Bounds.x a + Bounds.width a <=? Bounds.x b)
        || (Bounds.x b + Bounds.width b <=? Bounds.x a)
        || (Bounds.y a + Bounds.height a <=? Bounds.y b)
        || (Bounds.y b + Bounds.height b <=? Bounds.y a)).

(** [tag && !obj.hasTag(tag)]: no tag, or the empty one, filters nothing. *)
Definition missesTag (h : Heap num) (obj : Ref) (tag : option string) : bool :=
  match tag with
  | Some name => negb (String.eqb name "") && negb (hasTag h obj name)
  | None => false
  end.

Definition getObjectsInRadius (h : Heap num) (w : t num) (center : Vector2.t num)
  (radius : num) (tag : option string) : list Ref :=
  filter
    (fun obj =>
       if missesTag h obj tag then false
       else match Heap.lookup h obj with
            | Some o => Vector2.distance center (GameObject.getCenter o) <=? radius
            | None => false
            end)
    (gameObjects w).

Definition getObjectsInArea (h : Heap num) (w : t num) (bounds : Bounds.t num)
  (tag : option string) : list Ref :=
  filter
    (fun obj =>
       if missesTag h obj tag then false
       else match Heap.lookup h obj with
            | Some o => boundsOverlap bounds (GameObject.getBounds o)
            | None => false
            end)
    (gameObjects w).

Definition set_paused (w : t num) (flag : bool) : t num :=
  {| gameObjects := gameObjects w; toAdd := toAdd w; toRemove := toRemove w;
     layers := layers w; paused := flag; timeScale := timeScale w;
     worldTime := worldTime w |}.

Definition pause (w : t num) : t num := set_paused w true.
Definition resume (w : t num) : t num := set_paused w false.

Definition setTimeScale (w : t num) (scale : num) : t num :=
  {| gameObjects := gameObjects w; toAdd := toAdd w; toRemove := toRemove w;
     layers := layers w; paused := paused w; timeScale := nmax (lit 0) scale;
     worldTime := worldTime w |}.

End Ops.

End World.

(** The [collectibles] map of a [World], from item id to
    [{type, collected: true, time}], and the methods that work on it
    alone. *)
Module Collectibles.

Record Item (num : Type) : Type := mkItem {
  itemType : string;
  collected : bool;
  time : num
}.

Definition t (num : Type) : Type := list (string * Item num).

Section Ops.
Context {num : Type}.

(** [collectibles.set(id, item)]: a known id keeps its place. *)
Fixpoint set (m : t num) (id : string) (item : Item num) : t num :=
  match m with
  | [] => [(id, item)]
  | (k, v) :: rest =>
      if String.eqb k id then (k, item) :: rest
      else (k, v) :: set rest id item
  end.

(** [collectItem(id, type)], at the world time [worldTime]. *)
Definition collectItem (m : t num) (worldTime : num) (id type : string) : t num :=
  set m id (mkItem type true worldTime).

Definition isItemCollected (m : t num) (id : string) : bool :=
  existsb (fun entry => String.eqb (fst entry) id) m.

Definition getCollectionCount (m : t num) (type : string) : nat :=
  fold_left
    (fun count entry => if String.eqb (itemType (snd entry)) type then S count else count)
    m 0%nat.

End Ops.

End Collectibles.

(* ================================================================= *)
(** ** Tilemap (src/unnamed/part_003) *)

Module Tilemap.

(** An entry of [tileProperties]. *)
Record TileProperties : Type := mkTileProperties { solid : bool }.

(** [tiles] is a JavaScript array of tile ids: a slot may be a hole, which
    reads as [undefined].  Coordinates and sizes are integers. *)
Record t (num : Type) : Type := mk {
  width : Z;
  height : Z;
  tileSize : num;
  tiles : list (option Z);
  tileProperties : list (Z * TileProperties)
}.

(** [array[index] = value]: an index past the end extends the array with
    holes. *)
Fixpoint assign (l : list (option Z)) (index : nat) (value : Z) : list (option Z) :=
  match index, l with
  | O, [] => [Some value]
  | O, _ :: rest => Some value :: rest
  | S index', [] => None :: assign [] index' value
  | S index', first :: rest => first :: assign rest index' value
  end.

(** A solid tile listed by [getSolidTiles]: [{x, y, id}]. *)
Record SolidTile : Type := mkSolidTile { tileX : Z; tileY : Z; tileId : Z }.

Section Ops.
Context {num : Type}.

Definition outside (this : t num) (x y : Z) : bool :=
  ((x <? 0) || (x >=? width this) || (y <? 0) || (y >=? height this))%Z.

(** [this.tiles[y * this.width + x] || 0]. *)
Definition getTile (this : t num) (x y : Z) : Z :=
  if outside this x y then 0%Z
  else
    match nth_error (tiles this) (Z.to_nat (y * width this + x)) with
    | Some (Some tile) => tile
    | _ => 0%Z
    end.

Definition setTile (this : t num) (x y tile : Z) : t num :=
  if outside this x y then this
  else
    {| width := width this; height := height this; tileSize := tileSize this;
       tiles := assign (tiles this) (Z.to_nat (y * width this + x)) tile;
       tileProperties := tileProperties this |}.

(** [properties && properties.solid], as a truth value. *)
Definition isTileSolid (this : t num) (tile : Z) : bool :=
  match find (fun entry => Z.eqb (fst entry) tile) (tileProperties this) with
  | Some entry => solid (snd entry)
  | None => false
  end.

(** The integers [0, 1, ..., n - 1] of a [for (let i = 0; i < n; i++)]. *)
Definition upTo (n : Z) : list Z := map Z.of_nat (seq 0 (Z.to_nat n)).

Definition getSolidTiles (this : t num) : list SolidTile :=
  flat_map
    (fun y =>
       flat_map
         (fun x =>
            let tile := getTile this x y in
            if isTileSolid this tile then [mkSolidTile x y tile] else [])
         (upTo (width this)))
    (upTo (height this)).

End Ops.

End Tilemap.

(* ================================================================= *)
(** ** Game.update (src/js/core/Physics.js, class Game) *)

Module Game.

Record t (num : Type) : Type := mk {
  paused : bool;
  gameState : string;
  world : World.t num;
  physics : Physics.t num;
  heap : Heap num
}.

Section Ops.
Context {num : Type} {N : JSNumber num} {F : JSFloor num}.

(** The list of objects that [physics.update(world, deltaTime)] walks in a
    frame: [world.gameObjects] once [world.update] has run.  There is no
    pass in a frame whose [world.update] throws. *)
Definition physicsPass (script : Ref -> list World.Call) (deltaTime : num) (g : t num)
  : option (list Ref) :=
  match World.update script deltaTime (heap g, world g) with
  | ((_, w1), Returned) => Some (World.gameObjects w1)
  | (_, Thrown _) => None
  end.

(** One frame: the world update, then the physics update; the handler
    calls of the physics step and the way the frame ends are returned with
    the new state.  Nothing catches what [world.update] throws: the frame
    ends there, and [gameLoop] with it. *)
Definition update (script : Ref -> list World.Call) (deltaTime : num) (g : t num)
  : t num * list (Physics.Event num) * Ending :=
  if paused g || String.eqb (gameState g) "menu" then (g, [], Returned)
  else
    match World.update script deltaTime (heap g, world g) with
    | ((h1, w1), Thrown e) =>
        ({| paused := paused g; gameState := gameState g;
            world := w1; physics := physics g; heap := h1 |}, [], Thrown e)
    | ((h1, w1), Returned) =>
        let '(p1, h2, log) :=
          Physics.update (physics g) (World.gameObjects w1) deltaTime h1 in
        ({| paused := paused g; gameState := gameState g;
            world := w1; physics := p1; heap := h2 |}, log, Returned)
    end.

End Ops.

End Game.

(* ================================================================= *)
(** ** Player (src/unnamed/part_001) *)

Module Player.

(** An entry of [this.abilities], with the properties that damage handling
    reads; [active] is set by the ability's code and is absent (falsy)
    otherwise. *)
Record Ability (num : Type) : Type := mkAbility {
  enabled : bool;
  level : num;
  cooldown : num;
  maxCooldown : num;
  abilityActive : bool
}.

(** What the player asks of the game: [playSound] and [gameOver]. *)
Inductive Effect : Type :=
| PlaySound (soundName : string)
| GameOver.

(** What the player asks the UI to show: [showAbilityUnlocked(name)] and
    [showAbilityUpgraded(name, level)]. *)
Inductive Notice (num : Type) : Type :=
| AbilityUnlocked (abilityName : string)
| AbilityUpgraded (abilityName : string) (newLevel : num).
Arguments AbilityUnlocked {num} _.

(** A [Player] is a [GameObject] ([base]) with its own fields. *)
Record t (num : Type) : Type := mk {
  base : GameObject.t num;
  maxHealth : num;
  health : num;
  lives : num;
  invulnerabilityTime : num;
  invulnerabilityDuration : num;
  abilities : list (string * Ability num)
}.

Section Ops.
Context {num : Type} {N : JSNumber num}.
Local Open Scope js_scope.

Definition getAbility (p : t num) (name : string) : option (Ability num) :=
  match find (fun entry => String.eqb (fst entry) name) (abilities p) with
  | Some entry => Some (snd entry)
  | None => None
  end.

(** [ability && ability.enabled], as a truth value. *)
Definition hasAbility (p : t num) (name : string) : bool :=
  match getAbility p name with
  | Some ability => enabled ability
  | None => false
  end.

Definition set_base (p : t num) (b : GameObject.t num) : t num :=
  {| base := b; maxHealth := maxHealth p; health := health p; lives := lives p;
     invulnerabilityTime := invulnerabilityTime p;
     invulnerabilityDuration := invulnerabilityDuration p;
     abilities := abilities p |}.

Definition set_health (p : t num) (hp : num) : t num :=
  {| base := base p; maxHealth := maxHealth p; health := hp; lives := lives p;
     invulnerabilityTime := invulnerabilityTime p;
     invulnerabilityDuration := invulnerabilityDuration p;
     abilities := abilities p |}.

Definition set_lives (p : t num) (n : num) : t num :=
  {| base := base p; maxHealth := maxHealth p; health := health p; lives := n;
     invulnerabilityTime := invulnerabilityTime p;
     invulnerabilityDuration := invulnerabilityDuration p;
     abilities := abilities p |}.

Definition set_invulnerabilityTime (p : t num) (time : num) : t num :=
  {| base := base p; maxHealth := maxHealth p; health := health p; lives := lives p;
     invulnerabilityTime := time;
     invulnerabilityDuration := invulnerabilityDuration p;
     abilities := abilities p |}.

(** [addAbility(name, properties)]: every ability of the source is declared
    with [cooldown: 0], so [cooldown] and [maxCooldown] start at [0]. *)
Definition addAbility (l : list (string * Ability num)) (name : string)
  (isEnabled : bool) (lvl : num) : list (string * Ability num) :=
  l ++ [(name, mkAbility isEnabled lvl (lit 0) (lit 0) false)].

Definition setupDefaultAbilities : list (string * Ability num) :=
  let locked := fun l name => addAbility l name false (lit 0) in
  let l1 := addAbility [] "move" true (lit 1) in
  let l2 := addAbility l1 "jump" true (lit 1) in
  fold_left locked
    [ "doubleJump"; "tripleJump"; "dash"; "wallSlide"; "wallJump"; "wallClimb";
      "glide"; "attack"; "rangedAttack"; "noFallDamage"; "swim"; "phaseThrough";
      "magnetism"; "timeFreeze"; "invisibility"; "shield"; "speedBoost";
      "highJump"; "lightSource" ]%string
    l2.

(** [new Player(x, y)]. *)
Definition new (x y : num) (newId : Z) : t num :=
  let o := GameObject.new x y (lit 24) (lit 32) newId in
  {| base :=
       {| GameObject.position := GameObject.position o;
          GameObject.velocity := GameObject.velocity o;
          GameObject.acceleration := GameObject.acceleration o;
          GameObject.size := GameObject.size o;
          GameObject.mass := lit 1;
          GameObject.friction := lit 0.15;
          GameObject.bounciness := lit 0;
          GameObject.gravityScale := lit 1;
          GameObject.active := true; GameObject.solid := true;
          GameObject.destroyed := false;
          GameObject.collisionBounds := None;
          GameObject.collisionLayers := Some ["player"%string];
          GameObject.collisionMask :=
            Some ["solid"; "platform"; "enemy"; "pickup"; "hazard"]%string;
          GameObject.isTrigger := false;
          GameObject.tags := ["player"%string];
          GameObject.onCollision := None;
          GameObject.onTriggerEnter := None;
          GameObject.id := GameObject.id o;
          GameObject.layer := None |};
     maxHealth := lit 100;
     health := lit 100;
     lives := lit 3;
     invulnerabilityTime := lit 0;
     invulnerabilityDuration := lit 1;
     abilities := setupDefaultAbilities |}.

(** [respawn]; [checkpoint] is the position of
    [window.game.world.getCurrentCheckpoint()] when there is one. *)
Definition respawn (checkpoint : option (Vector2.t num)) (p : t num) : t num :=
  let p1 := set_health p (maxHealth p) in
  let p2 := set_invulnerabilityTime p1 (invulnerabilityDuration p1 * lit 2) in
  let p3 :=
    match checkpoint with
    | Some position => set_base p2 (GameObject.set_position (base p2) position)
    | None => p2
    end in
  set_base p3 (GameObject.set_velocity (base p3) (Vector2.mk (lit 0) (lit 0))).

Definition die (checkpoint : option (Vector2.t num)) (p : t num) : t num * list Effect :=
  let p1 := set_lives p (lives p - lit 1) in
  if lives p1 >? lit 0
  then (respawn checkpoint p1, [PlaySound "death"])
  else (p1, [GameOver; PlaySound "death"]).

(** [takeDamage(amount, source)]: the returned boolean, the player after
    the call and the effects asked of the game. *)
Definition takeDamage (checkpoint : option (Vector2.t num)) (p : t num) (amount : num)
  (source : option (GameObject.t num)) : bool * t num * list Effect :=
  if invulnerabilityTime p >? lit 0 then (false, p, [])
  else if hasAbility p "shield"
          && match getAbility p "shield" with
             | Some shield => abilityActive shield
             | None => false
             end
  then (false, p, []) (* Block damage *)
  else
    let p1 := set_health p (health p - amount) in
    let p2 := set_invulnerabilityTime p1 (invulnerabilityDuration p1) in
    (* Knockback *)
    let p3 :=
      match source with
      | Some src =>
          let knockbackDirection :=
            Vector2.normalized
              (Vector2.subtract (GameObject.getCenter (base p2)) (GameObject.getCenter src)) in
          set_base p2
            (GameObject.addImpulse (base p2) (Vector2.multiply knockbackDirection (lit 200)))
      | None => p2
      end in
    (* Check for death *)
    let (p4, effects) :=
      if health p3 <=? lit 0 then die checkpoint p3 else (p3, []) in
    (true, p4, effects ++ [PlaySound "hurt"]).

Definition heal (p : t num) (amount : num) : t num * list Effect :=
  (set_health p (nmin (maxHealth p) (health p + amount)), [PlaySound "heal"]).

Definition set_abilities (p : t num) (l : list (string * Ability num)) : t num :=
  {| base := base p; maxHealth := maxHealth p; health := health p; lives := lives p;
     invulnerabilityTime := invulnerabilityTime p;
     invulnerabilityDuration := invulnerabilityDuration p;
     abilities := l |}.

(** A method that mutates the ability object [abilities.get(name)]; the
    map is searched from its first entry. *)
Fixpoint mutateAbility (l : list (string * Ability num)) (name : string)
  (f : Ability num -> Ability num) : list (string * Ability num) :=
  match l with
  | [] => []
  | (k, ability) :: rest =>
      if String.eqb k name then (k, f ability) :: rest
      else (k, ability) :: mutateAbility rest name f
  end.

(** [unlockAbility(name, level)]; [level] defaults to [1]. *)
Definition unlockAbility (p : t num) (name : string) (lvl : num)
  : t num * list (Notice num) * list Effect :=
  match getAbility p name with
  | Some _ =>
      (set_abilities p
         (mutateAbility (abilities p) name
            (fun ability =>
               mkAbility true lvl (cooldown ability) (maxCooldown ability)
                 (abilityActive ability))),
       [AbilityUnlocked name], [PlaySound "abilityUnlock"])
  | None => (p, [], [])
  end.

Definition upgradeAbility (p : t num) (name : string) (lvl : num)
  : t num * list (Notice num) :=
  if hasAbility p name then
    (set_abilities p
       (mutateAbility (abilities p) name
          (fun ability =>
             mkAbility (enabled ability) lvl (cooldown ability) (maxCooldown ability)
               (abilityActive ability))),
     [AbilityUpgraded name lvl])
  else (p, []).

Definition getAbilityLevel (p : t num) (name : string) : num :=
  match getAbility p name with
  | Some ability => level ability
  | None => lit 0
  end.

(** [ability && ability.cooldown > 0], as a truth value. *)
Definition isAbilityCoolingDown (p : t num) (name : string) : bool :=
  match getAbility p name with
  | Some ability => cooldown ability >? lit 0
  | None => false
  end.

Definition startAbilityCooldown (p : t num) (name : string) : t num :=
  set_abilities p
    (mutateAbility (abilities p) name
       (fun ability =>
          mkAbility (enabled ability) (level ability) (maxCooldown ability)
            (maxCooldown ability) (abilityActive ability))).

Definition updateAbilityCooldowns (p : t num) (deltaTime : num) : t num :=
  set_abilities p
    (map
       (fun entry : string * Ability num =>
          let ability := snd entry in
          if cooldown ability >? lit 0 then
            let cooldown1 := cooldown ability - deltaTime in
            let cooldown2 := if cooldown1 <=? lit 0 then lit 0 else cooldown1 in
            (fst entry,
             mkAbility (enabled ability) (level ability) cooldown2 (maxCooldown ability)
               (abilityActive ability))
          else entry)
       (abilities p)).

End Ops.

End Player.

(* ================================================================= *)
(** ** Enemy (src/unnamed/part_000) *)

Module Enemy.

Inductive AIState : Type := patrol | chase | attack | investigate.

Record t (num : Type) : Type := mk {
  base : GameObject.t num;
  speed : num;
  aiState : AIState;
  stateTimer : num;
  direction : num;
  patrolDistance : num;
  startPosition : Vector2.t num
}.

Section Ops.
Context {num : Type} {N : JSNumber num}.
Local Open Scope js_scope.

(** [new Enemy(x, y)] of the default type ['basic']. *)
Definition new (x y : num) (newId : Z) : t num :=
  let o := GameObject.new x y (lit 32) (lit 32) newId in
  {| base :=
       {| GameObject.position := GameObject.position o;
          GameObject.velocity := GameObject.velocity o;
          GameObject.acceleration := GameObject.acceleration o;
          GameObject.size := GameObject.size o;
          GameObject.mass := lit 2;
          GameObject.friction := lit 0.3;
          GameObject.bounciness := GameObject.bounciness o;
          GameObject.gravityScale := GameObject.gravityScale o;
          GameObject.active := true; GameObject.solid := true;
          GameObject.destroyed := false;
          GameObject.collisionBounds := None;
          GameObject.collisionLayers := Some ["enemy"%string];
          GameObject.collisionMask :=
            Some ["solid"; "platform"; "player"; "projectile"]%string;
          GameObject.isTrigger := false;
          GameObject.tags := ["enemy"%string];
          GameObject.onCollision := None;
          GameObject.onTriggerEnter := None;
          GameObject.id := GameObject.id o;
          GameObject.layer := None |};
     speed := lit 100;
     aiState := patrol;
     stateTimer := lit 0;
     direction := lit 1;
     patrolDistance := lit 100;
     startPosition := Vector2.mk x y |}.

Definition updatePatrol (e : t num) (deltaTime : num) : t num :=
  let distanceFromStart :=
    nabs (Vector2.x (GameObject.position (base e)) - Vector2.x (startPosition e)) in
  let turn := (distanceFromStart >=? patrolDistance e) || (stateTimer e >? lit 3) in
  let direction1 := if turn then direction e * (- lit 1) else direction e in
  let stateTimer1 := if turn then lit 0 else stateTimer e in
  {| base :=
       GameObject.set_velocity (base e)
         (Vector2.mk (direction1 * speed e * lit 0.5)
                     (Vector2.y (GameObject.velocity (base e))));
     speed := speed e;
     aiState := aiState e;
     stateTimer := stateTimer1;
     direction := direction1;
     patrolDistance := patrolDistance e;
     startPosition := startPosition e |}.

Definition set_base (e : t num) (b : GameObject.t num) : t num :=
  {| base := b; speed := speed e; aiState := aiState e; stateTimer := stateTimer e;
     direction := direction e; patrolDistance := patrolDistance e;
     startPosition := startPosition e |}.

Definition set_stateTimer (e : t num) (timer : num) : t num :=
  {| base := base e; speed := speed e; aiState := aiState e; stateTimer := timer;
     direction := direction e; patrolDistance := patrolDistance e;
     startPosition := startPosition e |}.

(** [updateAI] in a world without a player: the timer advances and the
    behaviour of the state runs.  Of the four states the patrol is
    modelled; without a player the enemy never leaves it. *)
Definition updateAI (e : t num) (deltaTime : num) : t num :=
  let e1 := set_stateTimer e (stateTimer e + deltaTime) in
  match aiState e1 with
  | patrol => updatePatrol e1 deltaTime
  | _ => e1
  end.

(** [update(deltaTime)] of a live enemy: [GameObject.update] integrates the
    motion and then calls [onUpdate], of which [updateAI] is the part that
    touches the motion. *)
Definition update (e : t num) (deltaTime : num) : t num :=
  updateAI (set_base e (GameObject.updatePhysics (base e) deltaTime)) deltaTime.

End Ops.

End Enemy.

(* ================================================================= *)
(** ** PowerUp (src/unnamed/part_000) *)

Module PowerUp.

Section Ops.
Context {num : Type} {N : JSNumber num}.

(** The [GameObject] part of [new PowerUp(x, y, powerType)]: a trigger
    that is not solid and ignores gravity.  The constructor assigns neither
    handler slot: both keep the [null] of [super(x, y, 24, 24)]. *)
Definition new (x y : num) (newId : Z) : GameObject.t num :=
  let o := GameObject.new x y (lit 24) (lit 24) newId in
  {| GameObject.position := GameObject.position o;
     GameObject.velocity := GameObject.velocity o;
     GameObject.acceleration := GameObject.acceleration o;
     GameObject.size := GameObject.size o;
     GameObject.mass := GameObject.mass o;
     GameObject.friction := GameObject.friction o;
     GameObject.bounciness := GameObject.bounciness o;
     GameObject.gravityScale := lit 0;
     GameObject.active := true;
     GameObject.solid := false;
     GameObject.destroyed := false;
     GameObject.collisionBounds := None;
     GameObject.collisionLayers := Some ["pickup"%string];
     GameObject.collisionMask := Some ["player"%string];
     GameObject.isTrigger := true;
     GameObject.tags := ["powerup"; "collectible"]%string;
     GameObject.onCollision := None;
     GameObject.onTriggerEnter := None;
     GameObject.id := GameObject.id o;
     GameObject.layer := None |}.

End Ops.

(** A [PowerUp] is a [GameObject] ([base]) with its own fields. *)
Record t (num : Type) : Type := mk {
  base : GameObject.t num;
  powerType : string;
  collected : bool;
  value : num;
  level : num;
  abilityName : option string
}.

(** What collecting asks of the game, in order: what the player's own
    methods ask, the explosion asked of the world and the sound asked of
    the audio manager. *)
Inductive Output (num : Type) : Type :=
| PlayerNotice (notice : Player.Notice num)
| PlayerEffect (effect : Player.Effect)
| CreateExplosion (position : Vector2.t num) (size : string)
| PlaySound (soundName : string).
Arguments PlayerEffect {num} _.
Arguments PlaySound {num} _.

Section Collect.
Context {num : Type} {N : JSNumber num}.
Local Open Scope js_scope.

(** [new PowerUp(x, y, powerType)], with [setupPowerUpProperties]. *)
Definition newPowerUp (x y : num) (type : string) (newId : Z) : t num :=
  let isOneOf := fun names => existsb (String.eqb type) names in
  {| base := new x y newId;
     powerType := type;
     collected := false;
     value := if String.eqb type "health" then lit 25 else lit 1;
     level := lit 1;
     abilityName :=
       if isOneOf ["doubleJump"; "dash"; "wallJump"; "attack"; "shield"]%string
       then Some type else None |}.

(** [collect(player)]; [score] is the [score] field of the player, which
    [Player.t] does not carry. *)
Definition collect (this : t num) (player : Player.t num) (score : num)
  : t num * Player.t num * num * list (Output num) :=
  let '(player1, score1, asked) :=
    if String.eqb (powerType this) "health" then
      let (healed, effects) := Player.heal player (value this) in
      (healed, score, map PlayerEffect effects)
    else if String.eqb (powerType this) "score" then
      (player, score + value this, [])
    else
      match abilityName this with
      | Some name =>
          if String.eqb name "" then (player, score, [])
          else
            let '(unlocked, notices, effects) :=
              Player.unlockAbility player name (level this) in
            (unlocked, score, map (@PlayerNotice num) notices ++ map PlayerEffect effects)
      | None => (player, score, [])
      end in
  ({| base := GameObject.destroy (base this);
      powerType := powerType this;
      collected := true;
      value := value this;
      level := level this;
      abilityName := abilityName this |},
   player1, score1,
   asked ++ [CreateExplosion (GameObject.getCenter (base this)) "small"; PlaySound "powerUp"]).

(** The method [onTriggerEnter(other)] that the class declares, for an
    [other] that is a player object.  It is a property of
    [PowerUp.prototype]; the own [onTriggerEnter] of every instance hides
    it, so that it runs only when it is taken from the prototype. *)
Definition prototypeOnTriggerEnter (this : t num) (other : Player.t num) (score : num)
  : t num * Player.t num * num * list (Output num) :=
  if GameObject.hasTag (Player.base other) "player" && negb (collected this)
  then collect this other score
  else (this, other, score, []).

(** The call [powerUp.onTriggerEnter(other)] on an instance, up to its
    callee: the own property is what the call finds, and [null] is not a
    function. *)
Definition onTriggerEnter (this : t num) : Completion Callback :=
  match GameObject.onTriggerEnter (base this) with
  | Some handler => Normal handler
  | None => Throw "TypeError"
  end.

End Collect.

End PowerUp.

(* ================================================================= *)
(** * Scenes and the vocabulary of the statements *)

Module CorrectionScene.

Section Scene.
Context {num : Type} {N : JSNumber num}.

(** Two solid crates of mass 1, 32 by 32, neither a trigger: A at x = 0 and
    B at x = 24, at the same height.  They overlap by 8 along x and by 32
    along y. *)
Definition crateA : GameObject.t num := GameObject.new (lit 0) (lit 0) (lit 32) (lit 32) 1.
Definition crateB : GameObject.t num := GameObject.new (lit 24) (lit 0) (lit 32) (lit 32) 2.

(** The two crates after [resolveCollision] on the record that the narrow
    phase makes for them. *)
Definition resolved : option (GameObject.t num * GameObject.t num) :=
  match Physics.checkAABBCollision crateA crateB with
  | Some c =>
      let '(objA, objB, _) := Physics.resolveCollisionObjects 0 1 crateA crateB c in
      Some (objA, objB)
  | None => None
  end.

Definition positionX (o : GameObject.t num) : num := Vector2.x (GameObject.position o).

(** The penetration that the narrow phase finds between two objects. *)
Definition penetrationOf (objA objB : GameObject.t num) : option num :=
  match Physics.checkAABBCollision objA objB with
  | Some c => Some (Physics.penetration c)
  | None => None
  end.

End Scene.

End CorrectionScene.

Module TriggerScene.

(** A health pickup (object 0, a trigger) and the player (object 1)
    standing in it, both as their constructors make them. *)
Definition medkit : PowerUp.t Q := PowerUp.newPowerUp 10 10 "health" 1.
Definition pickup : GameObject.t Q := PowerUp.base medkit.
Definition player : GameObject.t Q := Player.base (Player.new 0 0 2).

Definition heap0 : Heap Q := [pickup; player].

(** The same scene after an assignment [pickup.onTriggerEnter = handler],
    which no code of the program makes. *)
Definition wired : Heap Q := [GameObject.set_onTriggerEnter pickup (Some "handler"%string); player].

Definition gameObjects : list Ref := [0; 1]%nat.

Definition isEnter (self other : Ref) (e : Physics.Event Q) : bool :=
  match e with
  | Physics.OnTriggerEnter s o _ => Nat.eqb s self && Nat.eqb o other
  | Physics.OnCollision _ _ _ => false
  end.

(** How many times [self.onTriggerEnter(other, _)] was called. *)
Definition enterCount (self other : Ref) (log : list (Physics.Event Q)) : nat :=
  List.length (filter (isEnter self other) log).

(** Two consecutive frames of physics at 60 frames per second. *)
Definition firstFrame (h : Heap Q) : Physics.t Q * Heap Q * list (Physics.Event Q) :=
  Physics.update Physics.new gameObjects (1 # 60) h.

Definition secondFrame (h : Heap Q) : Physics.t Q * Heap Q * list (Physics.Event Q) :=
  Physics.update (fst (fst (firstFrame h))) gameObjects (1 # 60) (snd (fst (firstFrame h))).

Definition frame1 : Physics.t Q * Heap Q * list (Physics.Event Q) := firstFrame heap0.
Definition frame2 : Physics.t Q * Heap Q * list (Physics.Event Q) := secondFrame heap0.

(** The contact of the pickup with the player: 14 units deep along x. *)
Definition contact : Physics.Collision Q :=
  Physics.mkCollision (Vector2.mk 1 0) 14 (Vector2.mk 17 21).

Definition overlapping (h : Heap Q) : bool :=
  match Heap.lookup h 0, Heap.lookup h 1 with
  | Some pickup, Some player => Physics.isSome (Physics.checkAABBCollision pickup player)
  | _, _ => false
  end.

End TriggerScene.

Module GridScene.

(** Three live crates: the first two overlap and share the cell (0, 0); the
    first also reaches into the cell (1, 0), where the third one lies. *)
Definition heap0 : Heap Q :=
  [GameObject.new 40 0 32 32 1; GameObject.new 20 10 32 32 2; GameObject.new 100 0 20 20 3].

Definition objects : list Ref := [0; 1; 2]%nat.

Definition grid0 : SpatialGrid.t Q := SpatialGrid.mk 64 [].

(** A basic enemy of a level, as [World.createEntityFromData] makes it
    from an entity of type ['basic_enemy']: [new Enemy(x, y, ...)], then
    [enemy.id = data.id], with an identifier of [LevelData.generateId]. *)
Definition levelEnemy (x y : Q) (counter : Z) (suffix : string) : GameObject.t Q :=
  GameObject.set_id (Enemy.base (Enemy.new x y counter)) (LevelId suffix).

(** Two enemies of a loaded level and the player that [Game.createPlayer]
    adds; the three boxes overlap each other and lie in the cell (0, 0). *)
Definition levelHeap : Heap Q :=
  [ levelEnemy 0 0 1 "1700000000000_k3x9q2m1a";
    levelEnemy 10 0 2 "1700000000001_p0f4z7c2b";
    Player.base (Player.new 5 0 3) ]%string.

(** The same three objects with the identifiers of their constructors. *)
Definition freshHeap : Heap Q :=
  [ Enemy.base (Enemy.new 0 0 1); Enemy.base (Enemy.new 10 0 2);
    Player.base (Player.new 5 0 3) ].

Definition overlap (h : Heap Q) (a b : Ref) : bool :=
  match Heap.lookup h a, Heap.lookup h b with
  | Some oa, Some ob => GameObject.overlaps oa ob
  | _, _ => false
  end.

(** The pairs that the narrow phase of a frame finds for the heap. *)
Definition contacts (h : Heap Q) : list (Ref * Ref) :=
  let g := SpatialGrid.addObjects h (SpatialGrid.clear grid0) objects in
  map (fun pair => (Physics.objectA pair, Physics.objectB pair))
    (Physics.detectCollisions (Physics.withGrid Physics.new g) h).

(** The identifier of the object is a number. *)
Definition numbered (num : Type) (h : Heap num) (obj : Ref) : Prop :=
  exists n : Z, SpatialGrid.idOf h obj = WholeId n.

(** Two pairs hold the same two objects, in either order. *)
Definition sameUnordered (p q : Ref * Ref) : Prop :=
  (fst p = fst q /\ snd p = snd q) \/ (fst p = snd q /\ snd p = fst q).

(** The closed box [bounds] meets the half-open square of side [size] of
    the cell [(cx, cy)], which is
    [cx*size <= x < (cx+1)*size], [cy*size <= y < (cy+1)*size]. *)
Definition overlapsCell (size : Q) (bounds : Bounds.t Q) (cell : SpatialGrid.CellKey) : Prop :=
  inject_Z (fst cell) * size <= Bounds.x bounds + Bounds.width bounds
  /\ Bounds.x bounds < (inject_Z (fst cell) + 1) * size
  /\ inject_Z (snd cell) * size <= Bounds.y bounds + Bounds.height bounds
  /\ Bounds.y bounds < (inject_Z (snd cell) + 1) * size.

End GridScene.

Module LayerScene.

(** Two plain game objects side by side: layers and masks are the
    constructor's [['default']]. *)
Definition crateA : GameObject.t Q := GameObject.new 0 0 32 32 1.
Definition crateB : GameObject.t Q := GameObject.new 24 0 32 32 2.

Definition player : GameObject.t Q := Player.base (Player.new 0 0 3).
Definition powerUp : GameObject.t Q := PowerUp.new 10 10 4.

Section Spec.
Context {num : Type}.

(** The layers and masks of the pair let the narrow phase run: some layer
    of A and some layer of B are such that A's mask holds the layer of B or
    B's mask holds the layer of A. *)
Definition masksAllow (objA objB : GameObject.t num) : Prop :=
  exists layerA layerB : string,
    In layerA (Physics.orDefault (GameObject.collisionLayers objA))
    /\ In layerB (Physics.orDefault (GameObject.collisionLayers objB))
    /\ (In layerB (Physics.orDefault (GameObject.collisionMask objA))
        \/ In layerA (Physics.orDefault (GameObject.collisionMask objB))).

End Spec.

End LayerScene.

Module FrameScene.




Definition idle (obj : Ref) : list World.Call := [].

(** A running game after [loadLevel], with a level like that of
    [createFallbackLevel] cut down to two tiles a layer, and after
    [addObject] of the two crates. *)
Definition loaded : Game.t Q :=
  {| Game.paused := false;
     Game.gameState := "playing";
     Game.world :=
       {| World.gameObjects := []; World.toAdd := [0%nat; 1%nat]; World.toRemove := [];
          World.layers :=
            World.loadTileLayers World.setupDefaultLayers [0; 0]%Z [0; 1]%Z [0; 0]%Z;
          World.paused := false; World.timeScale := 1; World.worldTime := 0 |};
     Game.physics := Physics.new;
     Game.heap := [GameObject.new 0 0 32 32 1; GameObject.new 200 0 32 32 2] |}.

(** In its update the first crate asks the world to remove it and destroys
    the second crate. *)
Definition leave (obj : Ref) : list World.Call :=
  match obj with
  | O => [World.CallRemoveObject 0; World.CallDestroy 1]
  | S _ => []
  end.

Definition dt : Q := 1 # 60.

End FrameScene.

Module GravityScene.

(** A pickup ([gravityScale] 0) drifting down at 30 units per second, next
    to a crate that falls under gravity. *)
Definition pickup : GameObject.t Q :=
  GameObject.set_velocity (PowerUp.new 10 10 1) (Vector2.mk 0 30).

Definition heap0 : Heap Q := [pickup; GameObject.new 200 0 32 32 2].

Definition positionY (h : Heap Q) (r : Ref) : option Q :=
  match Heap.lookup h r with
  | Some o => Some (Qred (Vector2.y (GameObject.position o)))
  | None => None
  end.

(** Every listed object has a zero [gravityScale]. *)
Definition weightless (h : Heap Q) (objects : list Ref) : Prop :=
  forall (r : Ref) (o : GameObject.t Q),
    In r objects -> Heap.lookup h r = Some o -> GameObject.gravityScale o == 0.

End GravityScene.

Module DegenerateScene.

Definition box : GameObject.t float :=
  GameObject.new 0%float 0%float 32%float 32%float 1.

(** A ray that starts in the middle of the box with a direction of length
    zero, as [raycast] builds it: the direction goes through
    [normalized()]. *)
Definition zeroRay : Ray.t float :=
  Ray.mk (Vector2.mk 16%float 16%float)
         (Vector2.normalized (Vector2.mk 0%float 0%float))
         1000%float.

(** A solid crate of the given mass, at rest. *)
Definition crate (x mass : float) (newId : Z) : GameObject.t float :=
  let o := GameObject.new x 0%float 32%float 32%float newId in
  {| GameObject.position := GameObject.position o;
     GameObject.velocity := GameObject.velocity o;
     GameObject.acceleration := GameObject.acceleration o;
     GameObject.size := GameObject.size o;
     GameObject.mass := mass;
     GameObject.friction := GameObject.friction o;
     GameObject.bounciness := GameObject.bounciness o;
     GameObject.gravityScale := GameObject.gravityScale o;
     GameObject.active := true;
     GameObject.solid := true;
     GameObject.destroyed := false;
     GameObject.collisionBounds := None;
     GameObject.collisionLayers := GameObject.collisionLayers o;
     GameObject.collisionMask := GameObject.collisionMask o;
     GameObject.isTrigger := false;
     GameObject.tags := [];
     GameObject.onCollision := None;
     GameObject.onTriggerEnter := None;
     GameObject.id := GameObject.id o;
     GameObject.layer := None |}.

(** The positions and velocities of two overlapping crates after
    [resolveCollision] on the record that the narrow phase makes. *)
Definition resolve (objA objB : GameObject.t float)
  : option (Vector2.t float * Vector2.t float * Vector2.t float * Vector2.t float) :=
  match Physics.checkAABBCollision objA objB with
  | Some c =>
      let '(objA', objB', _) := Physics.resolveCollisionObjects 0 1 objA objB c in
      Some (GameObject.position objA', GameObject.velocity objA',
            GameObject.position objB', GameObject.velocity objB')
  | None => None
  end.

Definition allNaN (v : Vector2.t float) : bool :=
  PrimFloat.is_nan (Vector2.x v) && PrimFloat.is_nan (Vector2.y v).

(** A box of the same size whose [position.x] is NaN. *)
Definition adrift : GameObject.t float :=
  GameObject.new PrimFloat.nan 0%float 32%float 32%float 2.

End DegenerateScene.

Module DamageScene.

(** A player with 10 health points left and three lives, and the enemy
    that strikes it from the left. *)
Definition woundedPlayer : Player.t Q := Player.set_health (Player.new 100 100 1) 10.

Definition attacker : GameObject.t Q := Enemy.base (Enemy.new 60 100 2).

Section Spec.
Context {num : Type} {N : JSNumber num}.
Local Open Scope js_scope.

(** The two conditions under which [takeDamage] refuses the damage. *)
Definition blocked (p : Player.t num) : bool :=
  (Player.invulnerabilityTime p >? lit 0)
  || (Player.hasAbility p "shield"
      && match Player.getAbility p "shield" with
         | Some shield => Player.abilityActive shield
         | None => false
         end).

(** The player's [GameObject] after an impulse of magnitude 200 along the
    unit vector from the centre of [source] to the player's centre. *)
Definition knockedBack (o : GameObject.t num) (source : GameObject.t num) : GameObject.t num :=
  GameObject.addImpulse o
    (Vector2.multiply
       (Vector2.normalized (Vector2.subtract (GameObject.getCenter o) (GameObject.getCenter source)))
       (lit 200)).

End Spec.

End DamageScene.

Module PatrolScene.

(** A basic enemy created at x = 0 that has walked 10 units to the right at
    the patrol speed and whose [stateTimer] has passed 3 seconds. *)
Definition lateEnemy : Enemy.t Q :=
  let e := Enemy.new 0 0 1 in
  {| Enemy.base :=
       GameObject.set_velocity
         (GameObject.set_position (Enemy.base e) (Vector2.mk 10 0)) (Vector2.mk 50 0);
     Enemy.speed := Enemy.speed e;
     Enemy.aiState := Enemy.patrol;
     Enemy.stateTimer := 3.5;
     Enemy.direction := 1;
     Enemy.patrolDistance := 100;
     Enemy.startPosition := Enemy.startPosition e |}.

Definition velocityX (e : Enemy.t Q) : Q :=
  Vector2.x (GameObject.velocity (Enemy.base e)).

Definition distanceFromStart (e : Enemy.t Q) : Q :=
  Qabs (Vector2.x (GameObject.position (Enemy.base e)) - Vector2.x (Enemy.startPosition e)).

Definition dt : float := lit (1 # 60).

Section Frames.
Context {F : JSFloor float}.

(** One frame of the game loop, in IEEE-754 arithmetic, for a world that
    holds one basic enemy and no player: the world updates the enemy, then
    the physics engine steps it.  The cells that the grid files the enemy
    under are those of [F]. *)
Definition frame (e : Enemy.t float) : Enemy.t float :=
  let e1 := Enemy.update e dt in
  let '(_, h, _) := Physics.update Physics.new [0%nat] dt [Enemy.base e1] in
  match Heap.lookup h 0%nat with
  | Some b => Enemy.set_base e1 b
  | None => e1
  end.

End Frames.

(** What [updatePatrol] reads in the frame that starts from [e]. *)
Definition distanceRead (e : Enemy.t float) : float :=
  let b := GameObject.updatePhysics (Enemy.base e) dt in
  nabs (nsub (Vector2.x (GameObject.position b)) (Vector2.x (Enemy.startPosition e))).

Definition timerRead (e : Enemy.t float) : float :=
  nadd (Enemy.stateTimer e) dt.

Section Turns.
Context {F : JSFloor float}.

(** The frames, counted from [i], in which the enemy turns round, each
    with what [updatePatrol] read in it. *)
Fixpoint turns (n i : nat) (e : Enemy.t float) : list (nat * float * float) :=
  match n with
  | O => []
  | S n' =>
      let e' := frame e in
      let rest := turns n' (S i) e' in
      if PrimFloat.eqb (Enemy.direction e') (Enemy.direction e) then rest
      else (i, distanceRead e, timerRead e) :: rest
  end.

End Turns.

(** A turn made on the distance alone, and one made on the timer alone. *)
Definition byDistance (turn : nat * float * float) : bool :=
  PrimFloat.leb 100%float (snd (fst turn)) && PrimFloat.leb (snd turn) 3%float.

Definition byTimer (turn : nat * float * float) : bool :=
  PrimFloat.ltb (snd (fst turn)) 100%float && PrimFloat.ltb 3%float (snd turn).

End PatrolScene.

(** ** Vocabulary of the further properties *)

Module Geometry.

(** The same point, up to the equality of rationals. *)
Definition sameVector (a b : Vector2.t Q) : Prop :=
  Vector2.x a == Vector2.x b /\ Vector2.y a == Vector2.y b.

(** The point lies in the closed box. *)
Definition inBox (p : Vector2.t Q) (b : Bounds.t Q) : Prop :=
  Bounds.x b <= Vector2.x p <= Bounds.x b + Bounds.width b
  /\ Bounds.y b <= Vector2.y p <= Bounds.y b + Bounds.height b.

(** A box with positive width and height. *)
Definition properBox (b : Bounds.t Q) : Prop :=
  0 < Bounds.width b /\ 0 < Bounds.height b.

(** One of the four unit vectors along the axes. *)
Definition axisUnit (n : Vector2.t Q) : Prop :=
  n = Vector2.mk (-(1)) 0 \/ n = Vector2.mk 1 0
  \/ n = Vector2.mk 0 (-(1)) \/ n = Vector2.mk 0 1.

(** The point [p] lies on the segment from [a] to [b]. *)
Definition onSegment (p a b : Vector2.t Q) : Prop :=
  exists t : Q, 0 <= t <= 1 /\ sameVector p (Vector2.lerp a b t).

End Geometry.

Module Dynamics.

(** An object that the impulses of the solver move: solid and not tagged
    ['static']. *)
Definition dynamic (o : GameObject.t Q) : Prop :=
  GameObject.solid o = true /\ GameObject.hasTag o "static" = false.


(** The velocity of [b] relative to [a] along [n]. *)
Definition closing (a b : GameObject.t Q) (n : Vector2.t Q) : Q :=
  Vector2.dot (Vector2.subtract (GameObject.velocity b) (GameObject.velocity a)) n.

(** The velocity once [applyGravity] has capped its vertical part. *)
Definition capped (this : Physics.t Q) (v : Vector2.t Q) : Vector2.t Q :=
  Vector2.mk (Vector2.x v) (Qmin (Vector2.y v) (Physics.terminalVelocity this)).

End Dynamics.

Module Motion.

(** [o'] is [o] with, at most, another position, velocity and
    acceleration. *)
Definition sameBody (num : Type) (o o' : GameObject.t num) : Prop :=
  o' = GameObject.set_acceleration
         (GameObject.set_velocity
            (GameObject.set_position o (GameObject.position o'))
            (GameObject.velocity o'))
         (GameObject.acceleration o').

End Motion.

Module Order.

(** [p] may be resolved before [q]: it is at least as deep. *)
Definition deeperFirst (p q : Physics.Pair Q) : Prop :=
  Physics.penetration (Physics.collision q) <= Physics.penetration (Physics.collision p).

End Order.

Module Playback.

(** The frame counter points into the clip. *)
Definition inRange (num : Type) (a : Animation.t num) (clip : Animation.Clip num) : Prop :=
  (0 <= Animation.currentFrame a < Z.of_nat (List.length (Animation.frames clip)))%Z.

End Playback.

Module LayerTable.

(** The engine with another layer table: what the assignment
    [this.collisionMatrix.set(...)] of [setLayerCollision] leaves. *)
Definition withMatrix (num : Type) (this : Physics.t num) (m : list (string * list string))
  : Physics.t num :=
  {| Physics.gravity := Physics.gravity this;
     Physics.terminalVelocity := Physics.terminalVelocity this;
     Physics.spatialGrid := Physics.spatialGrid this;
     Physics.collisionMatrix := m;
     Physics.subSteps := Physics.subSteps this |}.

End LayerTable.

Module Handlers.

(** No handler is assigned to the object: both slots hold [null]. *)
Definition quiet (num : Type) (o : GameObject.t num) : Prop :=
  GameObject.onCollision o = None /\ GameObject.onTriggerEnter o = None.

End Handlers.

Module Layers.

(** Every entry is a layer: no [loadLevel] has stored a tile array. *)
Definition proper (ls : list (string * World.Entry)) : Prop :=
  forall name data, ~ In (name, World.Tiles data) ls.

(** The object is in none of the layers. *)
Definition inNoLayer (ls : list (string * World.Entry)) (obj : Ref) : Prop :=
  forall name layer, In (name, World.Group layer) ls -> ~ In obj (World.objects layer).

(** The [Map] has an entry of that name. *)
Definition isLayer (ls : list (string * World.Entry)) (name : string) : bool :=
  existsb (fun entry => String.eqb (fst entry) name) ls.

End Layers.

Module AbilityTrace.

(** What the game does to the abilities of a player between two frames. *)
Inductive AbilityCall : Type :=
| Unlock (name : string) (lvl : Q)
| Upgrade (name : string) (lvl : Q)
| StartCooldown (name : string)
| Tick (deltaTime : Q).

Definition runAbilityCall (p : Player.t Q) (c : AbilityCall) : Player.t Q :=
  match c with
  | Unlock name lvl => fst (fst (Player.unlockAbility p name lvl))
  | Upgrade name lvl => fst (Player.upgradeAbility p name lvl)
  | StartCooldown name => Player.startAbilityCooldown p name
  | Tick deltaTime => Player.updateAbilityCooldowns p deltaTime
  end.

End AbilityTrace.

Module Samples.

(** A velocity and the unit normal of a slope. *)
Definition incoming : Vector2.t Q := Vector2.mk 3 4.
Definition slope : Vector2.t Q := Vector2.mk (3 # 5) (4 # 5).

(** The two crates of [CorrectionScene], moving. *)
Definition movingA : GameObject.t Q :=
  GameObject.set_velocity CorrectionScene.crateA (Vector2.mk (-10) 0).
Definition movingB : GameObject.t Q :=
  GameObject.set_velocity CorrectionScene.crateB (Vector2.mk 5 3).

(** A contact along x. *)
Definition contact : Physics.Collision Q :=
  Physics.mkCollision (Vector2.mk (-(1)) 0) 8 (Vector2.mk 28 16).

(** A ray that enters the first crate through its left side. *)
Definition ray : Ray.t Q := Ray.mk (Vector2.mk (-10) 4) (Vector2.mk 1 (1 # 2)) 100.

(** A three-frame looping clip, playing. *)
Definition cell : Animation.Frame Q := Animation.mkFrame 0 0 32 32.
Definition walkClip : Animation.Clip Q := Animation.mkClip [cell; cell; cell] true None.
Definition walking : Animation.t Q :=
  Animation.playAnimation
    (Animation.addAnimation Animation.new "walk" [cell; cell; cell] true None) "walk" false.

(** A heap with one crate. *)
Definition heap : Heap Q := [CorrectionScene.crateA].

(** A fresh player. *)
Definition hero : Player.t Q := Player.new 0 0 1.

(** Two crossing diagonals; a circle next to a corner of a square. *)
Definition diagA : Vector2.t Q := Vector2.mk 0 0.
Definition diagB : Vector2.t Q := Vector2.mk 2 2.
Definition antiA : Vector2.t Q := Vector2.mk 0 2.
Definition antiB : Vector2.t Q := Vector2.mk 2 0.
Definition circle : CollisionDetection.Circle Q := CollisionDetection.mkCircle 5 5 2.
Definition square : Bounds.t Q := Bounds.mk 0 0 4 4.

End Samples.


(* ================================================================= *)
(** * Invariants of the loops *)

Module GravityInv.

(** What the physics step keeps of an object: its [gravityScale], and its
    acceleration when the [gravityScale] is zero. *)
Definition kept (o o' : GameObject.t Q) : Prop :=
  GameObject.gravityScale o' = GameObject.gravityScale o
  /\ (GameObject.gravityScale o == 0 ->
      GameObject.acceleration o' = GameObject.acceleration o).

(** Two heaps whose objects correspond, each kept. *)
Definition related : Heap Q -> Heap Q -> Prop := Forall2 kept.

End GravityInv.

Module GridInv.

(** The objects filed under a cell. *)
Definition content (g : SpatialGrid.Grid) (cell : SpatialGrid.CellKey) : list Ref :=
  match SpatialGrid.get g cell with
  | Some objects => objects
  | None => []
  end.

(** Every object of every entry satisfies [P]. *)
Definition allObjects (P : Ref -> Prop) (g : SpatialGrid.Grid) : Prop :=
  forall entry obj, In entry g -> In obj (snd entry) -> P obj.

Section Insert.
Context {num : Type} {N : JSNumber num} {F : JSFloor num}.

(** The object behind [obj] is filed under [cell] by [addObject]. *)
Definition filedUnder (h : Heap num) (this : SpatialGrid.t num) (obj : Ref)
  (cell : SpatialGrid.CellKey) : Prop :=
  exists o, Heap.lookup h obj = Some o
            /\ In cell (SpatialGrid.getCellsForBounds this (GameObject.getBounds o)).

End Insert.

Section Pairs.
Context {num : Type}.
Variable h : Heap num.

(** The keys of a list of pairs. *)
Definition keys (pairs : list (Ref * Ref)) : list SpatialGrid.PairKey :=
  map (SpatialGrid.pairKey h) pairs.

(** The state of the loops of [getPotentialCollisionPairs]: the keys in
    [checked] are those of the pairs pushed so far, each once. *)
Definition consistent (st : list (Ref * Ref) * list SpatialGrid.PairKey) : Prop :=
  NoDup (keys (fst st)) /\ (forall k, In k (snd st) <-> In k (keys (fst st))).

End Pairs.

End GridInv.

Module ImpulseInv.

(** What an impulse [f] does to the velocities of a dynamic pair. *)
Definition pushed (a b : GameObject.t Q) (f : Vector2.t Q) (a' b' : GameObject.t Q) : Prop :=
  exists va vb : Vector2.t Q,
    a' = GameObject.set_velocity a va
    /\ b' = GameObject.set_velocity b vb
    /\ Geometry.sameVector va
         (Vector2.subtract (GameObject.velocity a)
            (Vector2.multiply f (1 / GameObject.mass a)))
    /\ Geometry.sameVector vb
         (Vector2.add (GameObject.velocity b)
            (Vector2.multiply f (1 / GameObject.mass b))).

End ImpulseInv.

Module FallInv.

(** One sub-step of an object that meets nothing. *)
Definition stepAlone (dt : Q) (o : GameObject.t Q) : GameObject.t Q :=
  Physics.integratePosition (Physics.integrateVelocity o dt) dt.

Fixpoint iterate (n : nat) (f : GameObject.t Q -> GameObject.t Q) (o : GameObject.t Q)
  : GameObject.t Q :=
  match n with
  | O => o
  | S n' => iterate n' f (f o)
  end.

End FallInv.

Module ClockInv.

(** The clock of a world: what [update] reads and writes besides the
    lists. *)
Definition clock (num : Type) (w : World.t num) : bool * num * num :=
  (World.paused w, World.timeScale w, World.worldTime w).

End ClockInv.

Module CollectInv.

(** The entry is an item of that type. *)
Definition ofType (num : Type) (type : string) (entry : string * Collectibles.Item num)
  : bool :=
  String.eqb (Collectibles.itemType (snd entry)) type.

End CollectInv.

Module CooldownInv.

(** No ability has a cooldown, running or configured. *)
Definition noCooldowns (p : Player.t Q) : Prop :=
  Forall (fun entry : string * Player.Ability Q =>
            Player.cooldown (snd entry) = 0 /\ Player.maxCooldown (snd entry) = 0)
         (Player.abilities p).

End CooldownInv.


(* ================================================================= *)
(** * Properties *)

(* ================================================================= *)
(** ** Facts about the arithmetic *)

Example literal_eight_tenths : lit 0.8 = 0x1.999999999999ap-1%float.
Proof. vm_compute. reflexivity. Qed.

Example exact_sqrt_square : nsqrt (9 # 4) = (6 # 4).
Proof. reflexivity. Qed.

Module ExactFacts.

Lemma ltb_true_iff (a b : Q) : ExactNum.ltb a b = true <-> a < b.
Proof.
  unfold ExactNum.ltb. rewrite Qlt_alt.
  destruct (a ?= b); split; intro H; congruence.
Qed.

Lemma ltb_false_iff (a b : Q) : ExactNum.ltb a b = false <-> b <= a.
Proof.
  rewrite <- not_true_iff_false, ltb_true_iff. split; intro H.
  - apply Qnot_lt_le; exact H.
  - apply Qle_not_lt; exact H.
Qed.

Lemma leb_false_iff (a b : Q) : Qle_bool a b = false <-> b < a.
Proof.
  rewrite <- not_true_iff_false, Qle_bool_iff. split; intro H.
  - apply Qnot_le_lt; exact H.
  - apply Qlt_not_le; exact H.
Qed.

Lemma min_first (a b : Q) : a <= b -> Qmin a b = a.
Proof.
  intro H. unfold Qmin, GenericMinMax.gmin.
  destruct (a ?= b) eqn:E; try reflexivity.
  rewrite <- Qgt_alt in E. exfalso. apply (Qlt_not_le _ _ E). exact H.
Qed.

End ExactFacts.

(* ================================================================= *)
(** ** Positional correction *)

(** C1 at its failing input, in exact arithmetic.  The narrow phase gives
    the two crates the normal (-1, 0) and the penetration 8; resolution
    then moves A by +3.2 and B by -3.2 along x, towards each other: the
    80% correction is split evenly, but the overlap along x grows from 8 to
    14.4 instead of shrinking to 1.6. *)
Theorem positional_correction_deepens_overlap :
  (exists c : Physics.Collision Q,
      Physics.checkAABBCollision CorrectionScene.crateA CorrectionScene.crateB = Some c
      /\ Physics.normal c = Vector2.mk (- (1)) 0
      /\ Physics.penetration c == 8)
  /\ (exists objA objB : GameObject.t Q,
        CorrectionScene.resolved = Some (objA, objB)
        /\ CorrectionScene.positionX objA == 3.2
        /\ CorrectionScene.positionX objB == 20.8
        /\ (exists p : Q, CorrectionScene.penetrationOf objA objB = Some p /\ p == 14.4)).
Proof.
  split.
  - eexists. split; [reflexivity |]. split; reflexivity.
  - eexists. eexists. split; [reflexivity |].
    split; [reflexivity |]. split; [reflexivity |].
    eexists. split; reflexivity.
Qed.

(** The same evaluation in IEEE-754 arithmetic: the overlap after the
    resolution exceeds the overlap before it. *)
Example positional_correction_deepens_overlap_ieee :
  CorrectionScene.penetrationOf (num := float) CorrectionScene.crateA CorrectionScene.crateB
  = Some 8%float
  /\ match CorrectionScene.resolved (num := float) with
     | Some (objA, objB) =>
         match CorrectionScene.penetrationOf objA objB with
         | Some p => PrimFloat.ltb 14%float p
         | None => false
         end
     | None => false
     end = true.
Proof. vm_compute. split; reflexivity. Qed.

(** What the correction does in general, in exact arithmetic: for two
    solid objects of positive total mass the position of B relative to A
    moves by [0.8 * penetration] along the normal of the record, A taking
    the share [massB / (massA + massB)] and B the share
    [massA / (massA + massB)]. *)
Lemma positionalCorrection_relative (objA objB : GameObject.t Q) (c : Physics.Collision Q) :
  GameObject.solid objA = true -> GameObject.solid objB = true ->
  ~ GameObject.mass objA + GameObject.mass objB == 0 ->
  let '(objA', objB') := Physics.positionalCorrection objA objB c in
  let share := Physics.penetration c * 0.8 in
  let total := GameObject.mass objA + GameObject.mass objB in
  CorrectionScene.positionX objA'
  == CorrectionScene.positionX objA
     - Vector2.x (Physics.normal c) * share * (GameObject.mass objB / total)
  /\ CorrectionScene.positionX objB'
     == CorrectionScene.positionX objB
        + Vector2.x (Physics.normal c) * share * (GameObject.mass objA / total)
  /\ CorrectionScene.positionX objB' - CorrectionScene.positionX objA'
     == CorrectionScene.positionX objB - CorrectionScene.positionX objA
        + Vector2.x (Physics.normal c) * share.
Proof.
  intros HA HB Hmass. unfold Physics.positionalCorrection, CorrectionScene.positionX.
  rewrite HA, HB. cbn -[Qmult Qplus Qminus Qdiv].
  split; [reflexivity | split; [reflexivity |]].
  field. exact Hmass.
Qed.

(* ================================================================= *)
(** ** Triggers *)

Lemma write_same (num : Type) (h : Heap num) (r : Ref) (o : GameObject.t num) :
  Heap.lookup h r = Some o -> Heap.write h r o = h.
Proof.
  revert r. induction h as [| first rest IH]; intros [| r] Hlook; cbn in *.
  - reflexivity.
  - reflexivity.
  - congruence.
  - f_equal. apply IH. exact Hlook.
Qed.

(** C2 at its failing input.  The player stands in a health pickup before,
    during and after two frames of physics: an overlap of a trigger with a
    non-trigger.  The pickup's own [onTriggerEnter] is the [null] of the
    [GameObject] constructor, which hides the method of [PowerUp]: the
    narrow phase finds the pair in every sub-step, no handler is called in
    either frame, and a direct call of [pickup.onTriggerEnter] throws.  The
    pickup stays where it is, uncollected. *)
Theorem trigger_handler_is_hidden :
  GameObject.isTrigger TriggerScene.pickup = true
  /\ GameObject.isTrigger TriggerScene.player = false
  /\ GameObject.onTriggerEnter TriggerScene.pickup = None
  /\ PowerUp.onTriggerEnter TriggerScene.medkit = Throw "TypeError"
  /\ TriggerScene.overlapping TriggerScene.heap0 = true
  /\ TriggerScene.overlapping (snd (fst TriggerScene.frame1)) = true
  /\ TriggerScene.overlapping (snd (fst TriggerScene.frame2)) = true
  /\ List.length (Physics.detectCollisions (fst (fst TriggerScene.frame1))
                    TriggerScene.heap0) = 1%nat
  /\ snd TriggerScene.frame1 = []
  /\ snd TriggerScene.frame2 = []
  /\ match Heap.lookup (snd (fst TriggerScene.frame2)) 0 with
     | Some o =>
         Geometry.sameVector (GameObject.position o) (GameObject.position TriggerScene.pickup)
         /\ Geometry.sameVector (GameObject.velocity o) (GameObject.velocity TriggerScene.pickup)
         /\ GameObject.destroyed o = false
     | None => False
     end.
Proof. vm_compute. repeat split; reflexivity. Qed.

(** The physics step keeps no record of earlier overlaps: once a handler is
    assigned to the pickup, it is called in every sub-step of every frame
    in which the player stands in the pickup, four times a frame. *)
Lemma trigger_fires_every_substep :
  TriggerScene.overlapping TriggerScene.wired = true
  /\ TriggerScene.overlapping (snd (fst (TriggerScene.firstFrame TriggerScene.wired))) = true
  /\ TriggerScene.overlapping (snd (fst (TriggerScene.secondFrame TriggerScene.wired))) = true
  /\ TriggerScene.enterCount 0 1 (snd (TriggerScene.firstFrame TriggerScene.wired)) = 4%nat
  /\ TriggerScene.enterCount 0 1 (snd (TriggerScene.secondFrame TriggerScene.wired)) = 4%nat.
Proof. vm_compute. repeat split; reflexivity. Qed.

(** Each time a collision record with a trigger on either side is resolved,
    [onTriggerEnter] is called once on each side that is a trigger and
    whose slot holds a handler, no [onCollision] is called, and the heap is
    left as it was: no position and no velocity changes. *)
Lemma trigger_resolution_fires_without_moving :
  forall (num : Type) (N : JSNumber num) (h : Heap num) (log : list (Physics.Event num))
         (pair : Physics.Pair num) (objA objB : GameObject.t num),
    Heap.lookup h (Physics.objectA pair) = Some objA ->
    Heap.lookup h (Physics.objectB pair) = Some objB ->
    GameObject.isTrigger objA || GameObject.isTrigger objB = true ->
    Physics.resolveCollision (h, log) pair
    = (h,
       log
       ++ (if GameObject.isTrigger objA && Physics.isSome (GameObject.onTriggerEnter objA)
           then [Physics.OnTriggerEnter (Physics.objectA pair) (Physics.objectB pair)
                   (Physics.collision pair)]
           else [])
       ++ (if GameObject.isTrigger objB && Physics.isSome (GameObject.onTriggerEnter objB)
           then [Physics.OnTriggerEnter (Physics.objectB pair) (Physics.objectA pair)
                   (Physics.collision pair)]
           else [])).
Proof.
  intros num N h log pair objA objB HA HB Htrigger.
  unfold Physics.resolveCollision, Physics.resolveCollisionObjects.
  rewrite HA, HB, Htrigger.
  rewrite (write_same h _ HA), (write_same h _ HB).
  reflexivity.
Qed.

(** The pickup and the player: no call and nothing moved as the
    constructors leave them; one call on the pickup, none on the player,
    once a handler is assigned. *)
Lemma trigger_resolution_on_the_pickup :
  Physics.resolveCollision (TriggerScene.heap0, [])
    (Physics.mkPair 0 1 TriggerScene.contact)
  = (TriggerScene.heap0, [])
  /\ Physics.resolveCollision (TriggerScene.wired, [])
       (Physics.mkPair 0 1 TriggerScene.contact)
     = (TriggerScene.wired, [Physics.OnTriggerEnter 0 1 TriggerScene.contact]).
Proof.
  split.
  - exact (@trigger_resolution_fires_without_moving Q QNumber TriggerScene.heap0 []
             (Physics.mkPair 0 1 TriggerScene.contact) _ _ eq_refl eq_refl eq_refl).
  - exact (@trigger_resolution_fires_without_moving Q QNumber TriggerScene.wired []
             (Physics.mkPair 0 1 TriggerScene.contact) _ _ eq_refl eq_refl eq_refl).
Qed.

(* ================================================================= *)
(** ** The spatial grid *)

Module GridFacts.

Import GridInv.

Lemma cell_eqb_eq (c d : SpatialGrid.CellKey) : SpatialGrid.cell_eqb c d = true <-> c = d.
Proof.
  unfold SpatialGrid.cell_eqb. destruct c as [cx cy], d as [dx dy]. cbn.
  rewrite andb_true_iff, !Z.eqb_eq. split.
  - intros [-> ->]. reflexivity.
  - intros H. injection H as -> ->. split; reflexivity.
Qed.

Lemma cell_eqb_refl (c : SpatialGrid.CellKey) : SpatialGrid.cell_eqb c c = true.
Proof. apply cell_eqb_eq. reflexivity. Qed.

Lemma part_eqb_eq (a b : option Z) : SpatialGrid.part_eqb a b = true <-> a = b.
Proof.
  destruct a as [x |], b as [y |]; cbn; try (split; [discriminate | congruence]).
  - rewrite Z.eqb_eq. split; congruence.
  - split; reflexivity.
Qed.

Lemma pairKey_eqb_eq (c d : SpatialGrid.PairKey) :
  SpatialGrid.pairKey_eqb c d = true <-> c = d.
Proof.
  destruct c as [c1 c2], d as [d1 d2]. unfold SpatialGrid.pairKey_eqb. cbn [fst snd].
  rewrite andb_true_iff, !part_eqb_eq. split; [intros [-> ->]; reflexivity | ].
  intros H. injection H as -> ->. split; reflexivity.
Qed.

Lemma In_range (lo hi i : Z) : In i (SpatialGrid.range lo hi) <-> (lo <= i <= hi)%Z.
Proof.
  unfold SpatialGrid.range. rewrite in_map_iff. split.
  - intros (k & <- & Hk). apply in_seq in Hk. lia.
  - intros Hi. exists (Z.to_nat (i - lo)). split; [lia |]. apply in_seq. lia.
Qed.

Lemma content_push (g : SpatialGrid.Grid) (k cell : SpatialGrid.CellKey) (obj : Ref) :
  content (SpatialGrid.push g k obj) cell
  = if SpatialGrid.cell_eqb k cell then content g cell ++ [obj] else content g cell.
Proof.
  unfold content, SpatialGrid.get.
  induction g as [| [k0 objects] rest IH]; cbn.
  - destruct (SpatialGrid.cell_eqb k cell); reflexivity.
  - destruct (SpatialGrid.cell_eqb k0 k) eqn:E0; cbn.
    + apply cell_eqb_eq in E0. subst k0.
      destruct (SpatialGrid.cell_eqb k cell); reflexivity.
    + destruct (SpatialGrid.cell_eqb k0 cell) eqn:E1; cbn.
      * destruct (SpatialGrid.cell_eqb k cell) eqn:E2; [| reflexivity].
        apply cell_eqb_eq in E1, E2. subst k0 k. rewrite cell_eqb_refl in E0. discriminate.
      * exact IH.
Qed.

Lemma allObjects_push (P : Ref -> Prop) (g : SpatialGrid.Grid) (k : SpatialGrid.CellKey)
  (obj : Ref) :
  allObjects P g -> P obj -> allObjects P (SpatialGrid.push g k obj).
Proof.
  intros Hall Hobj. induction g as [| [k0 objects] rest IH]; cbn.
  - intros entry x [<- | []] [<- | []]. exact Hobj.
  - destruct (SpatialGrid.cell_eqb k0 k).
    + intros entry x [<- | Hin] Hx.
      * cbn in Hx. apply in_app_or in Hx. destruct Hx as [Hx | [<- | []]].
        -- apply (Hall (k0, objects) x); [left; reflexivity | exact Hx].
        -- exact Hobj.
      * apply (Hall entry x); [right; exact Hin | exact Hx].
    + intros entry x [<- | Hin] Hx.
      * apply (Hall (k0, objects) x); [left; reflexivity | exact Hx].
      * apply IH with (entry := entry); [| exact Hin | exact Hx].
        intros e y He Hy. apply (Hall e y); [right; exact He | exact Hy].
Qed.

Lemma get_entry (g : SpatialGrid.Grid) (cell : SpatialGrid.CellKey) (objects : list Ref) :
  SpatialGrid.get g cell = Some objects -> In (cell, objects) g.
Proof.
  unfold SpatialGrid.get. destruct (find _ g) as [[k l] |] eqn:E; [| discriminate].
  intros H. injection H as <-. apply find_some in E. destruct E as [Hin Hk].
  cbn in Hk. apply cell_eqb_eq in Hk. subst k. exact Hin.
Qed.

Lemma content_entry (g : SpatialGrid.Grid) (cell : SpatialGrid.CellKey) (obj : Ref) :
  In obj (content g cell) -> In (cell, content g cell) g.
Proof.
  unfold content. destruct (SpatialGrid.get g cell) as [objects |] eqn:E.
  - intros _. apply get_entry. exact E.
  - intros [].
Qed.

Lemma In_cellPairs (objects : list Ref) (a b : Ref) :
  In (a, b) (SpatialGrid.cellPairs objects) -> In a objects /\ In b objects.
Proof.
  induction objects as [| first rest IH]; cbn.
  - intros [].
  - intros Hin. apply in_app_or in Hin. destruct Hin as [Hin | Hin].
    + apply in_map_iff in Hin. destruct Hin as (x & Hx & Hin). injection Hx as <- <-.
      split; [left; reflexivity | right; exact Hin].
    + destruct (IH Hin) as [Ha Hb]. split; right; assumption.
Qed.

Lemma cellPairs_complete (objects : list Ref) (a b : Ref) :
  a <> b -> In a objects -> In b objects ->
  In (a, b) (SpatialGrid.cellPairs objects) \/ In (b, a) (SpatialGrid.cellPairs objects).
Proof.
  intros Hab. induction objects as [| first rest IH]; cbn.
  - intros [].
  - intros [Ha | Ha] [Hb | Hb].
    + congruence.
    + subst first. left. apply in_or_app. left. apply in_map. exact Hb.
    + subst first. right. apply in_or_app. left. apply in_map. exact Ha.
    + destruct (IH Ha Hb) as [H | H]; [left | right]; apply in_or_app; right; exact H.
Qed.

Section Insert.
Context {num : Type} {N : JSNumber num} {F : JSFloor num}.

Lemma content_push_all (cells : list SpatialGrid.CellKey) (g : SpatialGrid.Grid)
  (cell : SpatialGrid.CellKey) (obj x : Ref) :
  In x (content (fold_left (fun g0 cellKey => SpatialGrid.push g0 cellKey obj) cells g) cell)
  <-> In x (content g cell) \/ (x = obj /\ In cell cells).
Proof.
  revert g. induction cells as [| k rest IH]; intros g; cbn [fold_left].
  - split; [auto | intros [H | [_ []]]; exact H].
  - rewrite IH, content_push. destruct (SpatialGrid.cell_eqb k cell) eqn:E.
    + apply cell_eqb_eq in E. subst k. rewrite in_app_iff. cbn. intuition.
    + assert (k <> cell) by (intro; subst; rewrite cell_eqb_refl in E; discriminate).
      cbn. intuition.
Qed.

Lemma allObjects_push_all (P : Ref -> Prop) (cells : list SpatialGrid.CellKey)
  (g : SpatialGrid.Grid) (obj : Ref) :
  allObjects P g -> P obj ->
  allObjects P (fold_left (fun g0 cellKey => SpatialGrid.push g0 cellKey obj) cells g).
Proof.
  revert g. induction cells as [| k rest IH]; intros g Hall Hobj; cbn [fold_left].
  - exact Hall.
  - apply IH; [apply allObjects_push; assumption | exact Hobj].
Qed.

Lemma addObject_cellSize (h : Heap num) (this : SpatialGrid.t num) (obj : Ref) :
  SpatialGrid.cellSize (SpatialGrid.addObject h this obj) = SpatialGrid.cellSize this.
Proof. unfold SpatialGrid.addObject. destruct (Heap.lookup h obj); reflexivity. Qed.

Lemma content_addObject (h : Heap num) (this : SpatialGrid.t num) (obj x : Ref)
  (cell : SpatialGrid.CellKey) :
  In x (content (SpatialGrid.grid (SpatialGrid.addObject h this obj)) cell)
  <-> In x (content (SpatialGrid.grid this) cell) \/ (x = obj /\ filedUnder h this obj cell).
Proof.
  unfold SpatialGrid.addObject, filedUnder.
  destruct (Heap.lookup h obj) as [o |] eqn:E; cbn [SpatialGrid.grid].
  - rewrite content_push_all. split; intros [H | [Hx Hc]]; auto.
    + right. split; [exact Hx | exists o; auto].
    + right. split; [exact Hx |]. destruct Hc as (o' & Ho' & Hin). congruence.
  - split; [auto | intros [H | [_ (o' & Ho' & _)]]; [exact H | discriminate]].
Qed.

Lemma allObjects_addObject (P : Ref -> Prop) (h : Heap num) (this : SpatialGrid.t num)
  (obj : Ref) :
  allObjects P (SpatialGrid.grid this) -> P obj ->
  allObjects P (SpatialGrid.grid (SpatialGrid.addObject h this obj)).
Proof.
  intros Hall Hobj. unfold SpatialGrid.addObject.
  destruct (Heap.lookup h obj); cbn [SpatialGrid.grid]; [| exact Hall].
  apply allObjects_push_all; assumption.
Qed.

Lemma addObjects_spec (h : Heap num) (objects : list Ref) (this : SpatialGrid.t num) :
  let g := SpatialGrid.addObjects h this objects in
  SpatialGrid.cellSize g = SpatialGrid.cellSize this
  /\ (forall x cell,
        In x (content (SpatialGrid.grid g) cell)
        <-> In x (content (SpatialGrid.grid this) cell)
            \/ (In x objects /\ SpatialGrid.isLive h x = true /\ filedUnder h this x cell))
  /\ (forall P : Ref -> Prop,
        allObjects P (SpatialGrid.grid this) ->
        (forall x, In x objects -> SpatialGrid.isLive h x = true -> P x) ->
        allObjects P (SpatialGrid.grid g)).
Proof.
  unfold SpatialGrid.addObjects.
  revert this. induction objects as [| obj rest IH]; intros this; cbn [fold_left].
  - split; [reflexivity | split].
    + intros x cell. split; [auto | intros [H | [[] _]]; exact H].
    + intros P Hall _. exact Hall.
  - destruct (IH (if SpatialGrid.isLive h obj then SpatialGrid.addObject h this obj else this))
      as (Hsize & Hcontent & Hall).
    assert (Hsize1 : SpatialGrid.cellSize
                       (if SpatialGrid.isLive h obj
                        then SpatialGrid.addObject h this obj else this)
                     = SpatialGrid.cellSize this).
    { destruct (SpatialGrid.isLive h obj); [apply addObject_cellSize | reflexivity]. }
    assert (Hfiled : forall x cell,
               filedUnder h (if SpatialGrid.isLive h obj
                             then SpatialGrid.addObject h this obj else this) x cell
               <-> filedUnder h this x cell).
    { intros x cell. unfold filedUnder, SpatialGrid.getCellsForBounds.
      rewrite Hsize1. reflexivity. }
    split; [congruence | split].
    + intros x cell. rewrite Hcontent, Hfiled.
      destruct (SpatialGrid.isLive h obj) eqn:Elive.
      * rewrite content_addObject. cbn [In]. split.
        -- intros [[H | [-> H]] | (H1 & H2 & H3)]; auto.
        -- intros [H | ([<- | H1] & H2 & H3)]; auto.
      * cbn [In]. split.
        -- intros [H | (H1 & H2 & H3)]; auto.
        -- intros [H | ([<- | H1] & H2 & H3)]; auto. congruence.
    + intros P HallP Hobjs. apply Hall.
      * destruct (SpatialGrid.isLive h obj) eqn:Elive; [| exact HallP].
        apply allObjects_addObject; [exact HallP |]. apply Hobjs; [left; reflexivity | exact Elive].
      * intros x Hin. apply Hobjs. right. exact Hin.
Qed.

Lemma In_getCellsForBounds (this : SpatialGrid.t num) (bounds : Bounds.t num)
  (cell : SpatialGrid.CellKey) :
  In cell (SpatialGrid.getCellsForBounds this bounds)
  <-> (nfloor (ndiv (Bounds.x bounds) (SpatialGrid.cellSize this)) <= fst cell
       <= nfloor (ndiv (nadd (Bounds.x bounds) (Bounds.width bounds))
                       (SpatialGrid.cellSize this)))%Z
      /\ (nfloor (ndiv (Bounds.y bounds) (SpatialGrid.cellSize this)) <= snd cell
          <= nfloor (ndiv (nadd (Bounds.y bounds) (Bounds.height bounds))
                          (SpatialGrid.cellSize this)))%Z.
Proof.
  unfold SpatialGrid.getCellsForBounds. rewrite in_flat_map. split.
  - intros (x & Hx & Hin). apply in_map_iff in Hin. destruct Hin as (y & <- & Hy).
    apply In_range in Hx, Hy. cbn. split; assumption.
  - intros [Hx Hy]. exists (fst cell). split; [apply In_range; exact Hx |].
    apply in_map_iff. exists (snd cell). split; [destruct cell; reflexivity |].
    apply In_range. exact Hy.
Qed.

End Insert.

Lemma NoDup_snoc (A : Type) (l : list A) (x : A) :
  NoDup l -> ~ In x l -> NoDup (l ++ [x]).
Proof.
  induction l as [| y rest IH]; cbn; intros Hnodup Hnew.
  - constructor; [intros [] | constructor].
  - inversion Hnodup as [| ? ? Hy Hrest]; subst. constructor.
    + intros Hin. apply in_app_or in Hin. destruct Hin as [Hin | [<- | []]].
      * exact (Hy Hin).
      * apply Hnew. left. reflexivity.
    + apply IH; [exact Hrest | intro H; apply Hnew; right; exact H].
Qed.

Section Pairs.
Context {num : Type}.
Variable h : Heap num.

Lemma pairKey_sameUnordered (p q : Ref * Ref) :
  GridScene.sameUnordered p q -> SpatialGrid.pairKey h p = SpatialGrid.pairKey h q.
Proof.
  unfold SpatialGrid.pairKey, SpatialGrid.minId, SpatialGrid.maxId.
  intros [[-> ->] | [-> ->]].
  - reflexivity.
  - destruct (SpatialGrid.toNumber (SpatialGrid.idOf h (fst q))),
      (SpatialGrid.toNumber (SpatialGrid.idOf h (snd q))); try reflexivity.
    rewrite Z.min_comm, Z.max_comm. reflexivity.
Qed.

(** A key made of two numbers names its pair of identifiers. *)
Lemma pairKey_inj (p q : Ref * Ref) :
  GridScene.numbered h (fst p) -> GridScene.numbered h (snd p) ->
  SpatialGrid.pairKey h p = SpatialGrid.pairKey h q ->
  (SpatialGrid.idOf h (fst p) = SpatialGrid.idOf h (fst q)
   /\ SpatialGrid.idOf h (snd p) = SpatialGrid.idOf h (snd q))
  \/ (SpatialGrid.idOf h (fst p) = SpatialGrid.idOf h (snd q)
      /\ SpatialGrid.idOf h (snd p) = SpatialGrid.idOf h (fst q)).
Proof.
  unfold SpatialGrid.pairKey, SpatialGrid.minId, SpatialGrid.maxId, GridScene.numbered.
  intros [n ->] [m ->].
  destruct (SpatialGrid.idOf h (fst q)) as [x | ?], (SpatialGrid.idOf h (snd q)) as [y | ?];
    cbn [SpatialGrid.toNumber]; intros H; try discriminate.
  injection H as Hmin Hmax.
  assert (Hcases : (n = x /\ m = y) \/ (n = y /\ m = x)) by lia.
  destruct Hcases as [[-> ->] | [-> ->]]; [left | right]; split; reflexivity.
Qed.

(** Every pair with a string identifier has the one key ['NaN-NaN']. *)
Lemma pairKey_of_level_entity (p : Ref * Ref) :
  (exists suffix, SpatialGrid.idOf h (fst p) = LevelId suffix
                  \/ SpatialGrid.idOf h (snd p) = LevelId suffix) ->
  SpatialGrid.pairKey h p = (None, None).
Proof.
  unfold SpatialGrid.pairKey, SpatialGrid.minId, SpatialGrid.maxId.
  intros (suffix & [-> | ->]); cbn [SpatialGrid.toNumber]; [reflexivity |].
  destruct (SpatialGrid.toNumber (SpatialGrid.idOf h (fst p))); reflexivity.
Qed.

Lemma existsb_checked (key : SpatialGrid.PairKey) (checked : list SpatialGrid.PairKey) :
  existsb (SpatialGrid.pairKey_eqb key) checked = true <-> In key checked.
Proof.
  rewrite existsb_exists. split.
  - intros (k & Hin & Heq). apply pairKey_eqb_eq in Heq. subst k. exact Hin.
  - intros Hin. exists key. split; [exact Hin | apply pairKey_eqb_eq; reflexivity].
Qed.

Lemma visitPair_spec (st : list (Ref * Ref) * list SpatialGrid.PairKey) (p : Ref * Ref) :
  consistent h st ->
  let st' := SpatialGrid.visitPair h st p in
  consistent h st'
  /\ In (SpatialGrid.pairKey h p) (keys h (fst st'))
  /\ (forall q, In q (fst st) -> In q (fst st'))
  /\ (forall q, In q (fst st') -> In q (fst st) \/ q = p).
Proof.
  intros [Hnodup Hchecked]. unfold SpatialGrid.visitPair.
  destruct (existsb _ (snd st)) eqn:E; cbn [fst snd].
  - apply existsb_checked in E. apply Hchecked in E.
    repeat split; auto; apply Hchecked.
  - assert (Hnew : ~ In (SpatialGrid.pairKey h p) (keys h (fst st))).
    { intros Hin. apply Hchecked in Hin. apply existsb_checked in Hin. congruence. }
    unfold consistent, keys in *. cbn [fst snd]. rewrite map_app. cbn [map].
    repeat split.
    + apply NoDup_snoc; assumption.
    + intros [<- | Hin]; apply in_or_app; [right; left; reflexivity | left; apply Hchecked; exact Hin].
    + intros Hin. apply in_app_or in Hin. destruct Hin as [Hin | [<- | []]].
      * right. apply Hchecked. exact Hin.
      * left. reflexivity.
    + apply in_or_app. right. left. reflexivity.
    + intros q Hin. apply in_or_app. left. exact Hin.
    + intros q Hin. apply in_app_or in Hin. destruct Hin as [Hin | [<- | []]]; auto.
Qed.

Lemma visitPairs_spec (candidates : list (Ref * Ref))
  (st : list (Ref * Ref) * list SpatialGrid.PairKey) :
  consistent h st ->
  let st' := fold_left (SpatialGrid.visitPair h) candidates st in
  consistent h st'
  /\ (forall p, In p candidates -> In (SpatialGrid.pairKey h p) (keys h (fst st')))
  /\ (forall q, In q (fst st) -> In q (fst st'))
  /\ (forall q, In q (fst st') -> In q (fst st) \/ In q candidates).
Proof.
  revert st. induction candidates as [| p rest IH]; intros st Hst; cbn [fold_left].
  - repeat split; try apply Hst; auto. intros p [].
  - destruct (visitPair_spec p Hst) as (Hst1 & Hkey & Hmono & Hfrom).
    destruct (IH _ Hst1) as (Hst2 & Hkeys2 & Hmono2 & Hfrom2).
    repeat split; try apply Hst2.
    + intros q [<- | Hin]; [| apply Hkeys2; exact Hin].
      unfold keys in *. apply in_map_iff in Hkey. destruct Hkey as (q & Hq & Hin).
      apply in_map_iff. exists q. split; [exact Hq | apply Hmono2; exact Hin].
    + intros q Hin. apply Hmono2, Hmono. exact Hin.
    + intros q Hin. destruct (Hfrom2 q Hin) as [H | H]; [| right; right; exact H].
      destruct (Hfrom q H) as [H' | ->]; [left; exact H' | right; left; reflexivity].
Qed.

Lemma fold_left_flat_map (A B C : Type) (f : A -> B -> A) (g : C -> list B)
  (l : list C) (a : A) :
  fold_left (fun acc c => fold_left f (g c) acc) l a = fold_left f (flat_map g l) a.
Proof.
  revert a. induction l as [| c rest IH]; intros a; cbn.
  - reflexivity.
  - rewrite fold_left_app. apply IH.
Qed.

End Pairs.

Lemma getPotentialCollisionPairs_spec (num : Type)
  (h : Heap num) (this : SpatialGrid.t num) :
  let pairs := SpatialGrid.getPotentialCollisionPairs h this in
  let candidates := flat_map (fun entry => SpatialGrid.cellPairs (snd entry))
                             (SpatialGrid.grid this) in
  NoDup (keys h pairs)
  /\ (forall p, In p candidates -> In (SpatialGrid.pairKey h p) (keys h pairs))
  /\ (forall q, In q pairs -> In q candidates).
Proof.
  unfold SpatialGrid.getPotentialCollisionPairs.
  rewrite (fold_left_flat_map (SpatialGrid.visitPair h)
             (fun entry : SpatialGrid.CellKey * list Ref => SpatialGrid.cellPairs (snd entry))).
  assert (Hinit : consistent h (([] : list (Ref * Ref)), ([] : list SpatialGrid.PairKey))).
  { split; [constructor | intros k; reflexivity]. }
  destruct (visitPairs_spec
              (flat_map (fun entry : SpatialGrid.CellKey * list Ref =>
                           SpatialGrid.cellPairs (snd entry)) (SpatialGrid.grid this))
              Hinit) as ([Hnodup _] & Hkeys & _ & Hfrom).
  repeat split.
  - exact Hnodup.
  - exact Hkeys.
  - intros q Hin. destruct (Hfrom q Hin) as [[] | H]. exact H.
Qed.

Lemma floor_le_iff0 (x : Q) (c : Z) : (Qfloor x <= c)%Z <-> x < inject_Z c + 1.
Proof.
  split.
  - intros Hle.
    assert (H1 : x < inject_Z (Qfloor x + 1)) by apply Qlt_floor.
    rewrite inject_Z_plus in H1. change (inject_Z 1) with 1 in H1.
    assert (H2 : inject_Z (Qfloor x) <= inject_Z c) by (rewrite <- Zle_Qle; exact Hle).
    lra.
  - intros Hlt.
    assert (H1 : inject_Z (Qfloor x) <= x) by apply Qfloor_le.
    assert (H2 : inject_Z (Qfloor x) < inject_Z (c + 1)).
    { rewrite inject_Z_plus. change (inject_Z 1) with 1. lra. }
    rewrite <- Zlt_Qlt in H2. lia.
Qed.

Lemma le_floor_iff0 (x : Q) (c : Z) : (c <= Qfloor x)%Z <-> inject_Z c <= x.
Proof.
  split.
  - intros Hle.
    assert (H1 : inject_Z (Qfloor x) <= x) by apply Qfloor_le.
    assert (H2 : inject_Z c <= inject_Z (Qfloor x)) by (rewrite <- Zle_Qle; exact Hle).
    lra.
  - intros Hle. apply Qfloor_resp_le in Hle. rewrite Qfloor_Z in Hle. exact Hle.
Qed.

Lemma div_mult_cancel (a s : Q) : 0 < s -> a / s * s == a.
Proof. intros Hs. field. intro Hz. rewrite Hz in Hs. apply (Qlt_irrefl _ Hs). Qed.

Lemma floor_le_iff (a s : Q) (c : Z) :
  0 < s -> ((Qfloor (a / s) <= c)%Z <-> a < (inject_Z c + 1) * s).
Proof.
  intros Hs. rewrite floor_le_iff0.
  rewrite <- (Qmult_lt_r (a / s) (inject_Z c + 1) s Hs).
  rewrite (div_mult_cancel a Hs). reflexivity.
Qed.

Lemma le_floor_iff (a s : Q) (c : Z) :
  0 < s -> ((c <= Qfloor (a / s))%Z <-> inject_Z c * s <= a).
Proof.
  intros Hs. rewrite le_floor_iff0.
  rewrite <- (Qmult_le_r (inject_Z c) (a / s) s Hs).
  rewrite (div_mult_cancel a Hs). reflexivity.
Qed.

Lemma getCellsForBounds_overlapsCell (this : SpatialGrid.t Q) (bounds : Bounds.t Q)
  (cell : SpatialGrid.CellKey) :
  0 < SpatialGrid.cellSize this ->
  (In cell (SpatialGrid.getCellsForBounds this bounds)
   <-> GridScene.overlapsCell (SpatialGrid.cellSize this) bounds cell).
Proof.
  intros Hs. rewrite In_getCellsForBounds. unfold GridScene.overlapsCell.
  cbn [nfloor QFloor ndiv nadd QNumber].
  rewrite (floor_le_iff (Bounds.x bounds) (fst cell) Hs).
  rewrite (floor_le_iff (Bounds.y bounds) (snd cell) Hs).
  rewrite (le_floor_iff (Bounds.x bounds + Bounds.width bounds) (fst cell) Hs).
  rewrite (le_floor_iff (Bounds.y bounds + Bounds.height bounds) (snd cell) Hs).
  tauto.
Qed.

End GridFacts.

(** C3 at its failing input.  Two enemies of a loaded level and the player
    overlap each other in the cell (0, 0), under which all three are
    filed.  The identifiers of the enemies are the strings of the level
    data, [Math.min] and [Math.max] read them as [NaN], and the three pairs
    share the key ['NaN-NaN']: the grid returns the first pair and drops
    the two others, those of the player with each enemy.  The narrow phase
    then finds no contact at all, where it finds both with the identifiers
    that the constructors hand out. *)
Theorem grid_drops_pairs_of_level_entities :
  let g := SpatialGrid.addObjects GridScene.levelHeap (SpatialGrid.clear GridScene.grid0)
             GridScene.objects in
  SpatialGrid.get (SpatialGrid.grid g) (0, 0)%Z = Some [0; 1; 2]%nat
  /\ map (fun p => GridScene.overlap GridScene.levelHeap (fst p) (snd p))
       [(0, 1); (0, 2); (1, 2)]%nat
     = [true; true; true]
  /\ map (SpatialGrid.pairKey GridScene.levelHeap) [(0, 1); (0, 2); (1, 2)]%nat
     = [(None, None); (None, None); (None, None)]
  /\ SpatialGrid.getPotentialCollisionPairs GridScene.levelHeap g = [(0, 1)]%nat
  /\ ~ In (0, 2)%nat (SpatialGrid.getPotentialCollisionPairs GridScene.levelHeap g)
  /\ ~ In (2, 0)%nat (SpatialGrid.getPotentialCollisionPairs GridScene.levelHeap g)
  /\ ~ In (1, 2)%nat (SpatialGrid.getPotentialCollisionPairs GridScene.levelHeap g)
  /\ ~ In (2, 1)%nat (SpatialGrid.getPotentialCollisionPairs GridScene.levelHeap g)
  /\ GridScene.contacts GridScene.levelHeap = []
  /\ GridScene.contacts GridScene.freshHeap = [(0, 2); (1, 2)]%nat.
Proof.
  vm_compute. repeat split; try reflexivity; intros [H | []]; discriminate.
Qed.

(** Insert the live objects of a list into a cleared grid with a positive
    cell size, the identifiers of the objects being numbers, as
    [GameObject.generateId] hands them out, and different.  Then
    [getPotentialCollisionPairs] never returns the same unordered pair
    twice; every inserted object is filed under every cell that its
    bounding box overlaps; and every two different inserted objects whose
    boxes overlap a common cell are returned as a pair, in one order or the
    other. *)
Lemma grid_pairs_unique_and_complete :
  forall (h : Heap Q) (this : SpatialGrid.t Q) (objects : list Ref),
    0 < SpatialGrid.cellSize this ->
    (forall a : Ref, In a objects -> GridScene.numbered h a) ->
    (forall a b : Ref,
        In a objects -> In b objects ->
        SpatialGrid.idOf h a = SpatialGrid.idOf h b -> a = b) ->
    let g := SpatialGrid.addObjects h (SpatialGrid.clear this) objects in
    let pairs := SpatialGrid.getPotentialCollisionPairs h g in
    (forall (i j : nat) (p q : Ref * Ref),
        i <> j -> nth_error pairs i = Some p -> nth_error pairs j = Some q ->
        ~ GridScene.sameUnordered p q)
    /\ (forall (a : Ref) (o : GameObject.t Q) (cell : SpatialGrid.CellKey),
          In a objects -> Heap.lookup h a = Some o -> SpatialGrid.isLive h a = true ->
          GridScene.overlapsCell (SpatialGrid.cellSize this) (GameObject.getBounds o) cell ->
          exists filed : list Ref,
            SpatialGrid.get (SpatialGrid.grid g) cell = Some filed /\ In a filed)
    /\ (forall (a b : Ref) (oa ob : GameObject.t Q) (cell : SpatialGrid.CellKey),
          a <> b -> In a objects -> In b objects ->
          Heap.lookup h a = Some oa -> Heap.lookup h b = Some ob ->
          SpatialGrid.isLive h a = true -> SpatialGrid.isLive h b = true ->
          GridScene.overlapsCell (SpatialGrid.cellSize this) (GameObject.getBounds oa) cell ->
          GridScene.overlapsCell (SpatialGrid.cellSize this) (GameObject.getBounds ob) cell ->
          In (a, b) pairs \/ In (b, a) pairs).
Proof.
  intros h this objects Hsize Hnum Hids g pairs.
  destruct (GridFacts.addObjects_spec h objects (SpatialGrid.clear this)) as (Hcell & Hcontent & Hall).
  fold g in Hcell, Hcontent, Hall. cbn [SpatialGrid.clear SpatialGrid.cellSize] in Hcell.
  destruct (GridFacts.getPotentialCollisionPairs_spec h g) as (Hnodup & Hkeys & Hfrom).
  fold pairs in Hnodup, Hkeys, Hfrom.
  (* where an inserted object is filed *)
  assert (Hfiled : forall (a : Ref) (o : GameObject.t Q) (cell : SpatialGrid.CellKey),
             In a objects -> Heap.lookup h a = Some o -> SpatialGrid.isLive h a = true ->
             GridScene.overlapsCell (SpatialGrid.cellSize this) (GameObject.getBounds o) cell ->
             In a (GridInv.content (SpatialGrid.grid g) cell)).
  { intros a o cell Hin Hlook Hlive Hover. apply Hcontent. right.
    split; [exact Hin | split; [exact Hlive |]].
    exists o. split; [exact Hlook |].
    apply GridFacts.getCellsForBounds_overlapsCell; [exact Hsize | exact Hover]. }
  (* the objects of the grid are objects of the list *)
  assert (Hlisted : GridInv.allObjects (fun x => In x objects) (SpatialGrid.grid g)).
  { apply Hall; [intros entry x [] | auto]. }
  split; [| split].
  - intros i j p q Hij Hp Hq Hsame.
    apply (GridFacts.pairKey_sameUnordered h) in Hsame.
    assert (Hi : nth_error (GridInv.keys h pairs) i = Some (SpatialGrid.pairKey h p)).
    { unfold GridInv.keys. rewrite nth_error_map, Hp. reflexivity. }
    assert (Hj : nth_error (GridInv.keys h pairs) j = Some (SpatialGrid.pairKey h q)).
    { unfold GridInv.keys. rewrite nth_error_map, Hq. reflexivity. }
    rewrite <- Hsame in Hj.
    apply Hij. apply (proj1 (NoDup_nth_error (GridInv.keys h pairs)) Hnodup).
    + apply nth_error_Some. rewrite Hi. discriminate.
    + rewrite Hi, Hj. reflexivity.
  - intros a o cell Hin Hlook Hlive Hover.
    pose proof (Hfiled a o cell Hin Hlook Hlive Hover) as Ha.
    unfold GridInv.content in Ha. destruct (SpatialGrid.get (SpatialGrid.grid g) cell) as [filed |].
    + exists filed. split; [reflexivity | exact Ha].
    + destruct Ha.
  - intros a b oa ob cell Hab Ha Hb Hla Hlb Hlivea Hliveb Hovera Hoverb.
    pose proof (Hfiled a oa cell Ha Hla Hlivea Hovera) as Hina.
    pose proof (Hfiled b ob cell Hb Hlb Hliveb Hoverb) as Hinb.
    pose proof (@GridFacts.content_entry (SpatialGrid.grid g) cell a Hina) as Hentry.
    assert (Hcand : exists p, (p = (a, b) \/ p = (b, a))
                              /\ In p (flat_map (fun entry => SpatialGrid.cellPairs (snd entry))
                                         (SpatialGrid.grid g))).
    { destruct (@GridFacts.cellPairs_complete (GridInv.content (SpatialGrid.grid g) cell) a b Hab Hina Hinb)
        as [H | H];
        [exists (a, b) | exists (b, a)]; (split; [auto |]);
        apply in_flat_map; exists (cell, GridInv.content (SpatialGrid.grid g) cell); auto. }
    destruct Hcand as (p & Hp & Hpin).
    apply Hkeys in Hpin. unfold GridInv.keys in Hpin. apply in_map_iff in Hpin.
    destruct Hpin as ([c d] & Hkey & Hq).
    assert (Hcd : In c objects /\ In d objects).
    { pose proof (Hfrom _ Hq) as Hqc. apply in_flat_map in Hqc.
      destruct Hqc as (entry & Hentry' & Hpairs). apply GridFacts.In_cellPairs in Hpairs.
      destruct Hpairs as [Hc Hd].
      split; [apply (Hlisted entry c) | apply (Hlisted entry d)]; assumption. }
    destruct Hcd as [Hc Hd].
    assert (Hkey' : SpatialGrid.pairKey h (a, b) = SpatialGrid.pairKey h (c, d)).
    { rewrite Hkey. destruct Hp as [-> | ->]; [reflexivity |].
      apply GridFacts.pairKey_sameUnordered. right. split; reflexivity. }
    apply GridFacts.pairKey_inj in Hkey'; cbn [fst snd] in *;
      [| apply Hnum; exact Ha | apply Hnum; exact Hb].
    destruct Hkey' as [[H1 H2] | [H1 H2]].
    + apply Hids in H1, H2; try assumption. subst c d. left. exact Hq.
    + apply Hids in H1, H2; try assumption. subst c d. right. exact Hq.
Qed.

(** Three crates: the grid returns the pair of the two that overlap, and
    the pair that merely shares the cell (1, 0), each once. *)
Lemma grid_pairs_unique_and_complete_witness :
  0 < SpatialGrid.cellSize GridScene.grid0
  /\ SpatialGrid.getPotentialCollisionPairs GridScene.heap0
       (SpatialGrid.addObjects GridScene.heap0 (SpatialGrid.clear GridScene.grid0)
          GridScene.objects)
     = [(0, 1); (0, 2)]%nat
  /\ (In (0, 1)%nat
        (SpatialGrid.getPotentialCollisionPairs GridScene.heap0
           (SpatialGrid.addObjects GridScene.heap0 (SpatialGrid.clear GridScene.grid0)
              GridScene.objects))
      \/ In (1, 0)%nat
           (SpatialGrid.getPotentialCollisionPairs GridScene.heap0
              (SpatialGrid.addObjects GridScene.heap0 (SpatialGrid.clear GridScene.grid0)
                 GridScene.objects))).
Proof.
  assert (Hsize : 0 < SpatialGrid.cellSize GridScene.grid0) by reflexivity.
  assert (Hids : forall a b : Ref,
             In a GridScene.objects -> In b GridScene.objects ->
             SpatialGrid.idOf GridScene.heap0 a = SpatialGrid.idOf GridScene.heap0 b -> a = b).
  { intros a b Ha Hb. cbn in Ha, Hb.
    destruct Ha as [<- | [<- | [<- | []]]]; destruct Hb as [<- | [<- | [<- | []]]];
      cbn; intros H; try reflexivity; discriminate. }
  assert (Hnum : forall a : Ref,
             In a GridScene.objects -> GridScene.numbered GridScene.heap0 a).
  { intros a Ha. cbn in Ha. destruct Ha as [<- | [<- | [<- | []]]]; eexists; reflexivity. }
  split; [exact Hsize | split; [reflexivity |]].
  destruct (@grid_pairs_unique_and_complete GridScene.heap0 GridScene.grid0
              GridScene.objects Hsize Hnum Hids)
    as (_ & _ & Hcomplete).
  apply (Hcomplete 0%nat 1%nat (GameObject.new 40 0 32 32 1) (GameObject.new 20 10 32 32 2)
           (0%Z, 0%Z)); try reflexivity; try discriminate;
    try (cbn; auto; fail).
  - unfold GridScene.overlapsCell. cbn. repeat split; try discriminate; reflexivity.
  - unfold GridScene.overlapsCell. cbn. repeat split; try discriminate; reflexivity.
Defined.

(* ================================================================= *)
(** ** Physics.shouldCheckCollision *)

Lemma includes_In (l : list string) (s : string) :
  Physics.includes l s = true <-> In s l.
Proof.
  unfold Physics.includes. rewrite existsb_exists. split.
  - intros (x & Hin & Heq). apply String.eqb_eq in Heq. subst x. exact Hin.
  - intros Hin. exists s. split; [exact Hin | apply String.eqb_refl].
Qed.

(** C4, as stated, fails: for two plain objects the narrow phase runs,
    although the layer table of [Physics] has no entry for their layer
    ['default'] and so allows no pair with it. *)
Lemma layer_table_is_not_consulted :
  Physics.shouldCheckCollision 0 1 LayerScene.crateA LayerScene.crateB = true
  /\ GameObject.collisionLayers LayerScene.crateA = Some ["default"%string]
  /\ GameObject.collisionLayers LayerScene.crateB = Some ["default"%string]
  /\ Physics.canLayersCollide (Physics.new (num := Q)) "default" "default" = false.
Proof. repeat split; reflexivity. Qed.

(** C4, amended.  For two different objects that are active, not destroyed,
    and of which one is solid or a trigger, the narrow phase runs if and
    only if some layer of A and some layer of B are such that A's mask holds
    that layer of B or B's mask holds that layer of A (a missing list reads
    as [['default']]).  Only the two objects are read: the layer table of
    [Physics] is not an input of the test. *)
Theorem shouldCheckCollision_iff_masks :
  forall (num : Type) (N : JSNumber num) (a b : Ref) (objA objB : GameObject.t num),
    a <> b ->
    GameObject.active objA = true -> GameObject.destroyed objA = false ->
    GameObject.active objB = true -> GameObject.destroyed objB = false ->
    GameObject.solid objA || GameObject.solid objB
      || GameObject.isTrigger objA || GameObject.isTrigger objB = true ->
    (Physics.shouldCheckCollision a b objA objB = true <-> LayerScene.masksAllow objA objB).
Proof.
  intros num N a b objA objB Hab HactA HdesA HactB HdesB Hkind.
  unfold Physics.shouldCheckCollision, LayerScene.masksAllow.
  apply Nat.eqb_neq in Hab. rewrite Hab, HactA, HdesA, HactB, HdesB. cbn [orb negb].
  assert (Hskip : negb (GameObject.solid objA) && negb (GameObject.solid objB)
                  && negb (GameObject.isTrigger objA) && negb (GameObject.isTrigger objB)
                  = false).
  { destruct (GameObject.solid objA), (GameObject.solid objB),
      (GameObject.isTrigger objA), (GameObject.isTrigger objB);
      cbn in *; congruence. }
  rewrite Hskip. cbv zeta.
  rewrite existsb_exists. split.
  - intros (layerA & HinA & Hex). apply existsb_exists in Hex.
    destruct Hex as (layerB & HinB & Hmask). apply orb_true_iff in Hmask.
    exists layerA, layerB. repeat split; try assumption.
    destruct Hmask as [H | H]; apply includes_In in H; auto.
  - intros (layerA & layerB & HinA & HinB & Hmask).
    exists layerA. split; [exact HinA |].
    apply existsb_exists. exists layerB. split; [exact HinB |].
    apply orb_true_iff. destruct Hmask as [H | H]; apply includes_In in H; auto.
Qed.

(** A pickup and the player: the pickup's mask names the player's layer. *)
Lemma shouldCheckCollision_iff_masks_witness :
  Physics.shouldCheckCollision 0 1 LayerScene.powerUp LayerScene.player = true
  <-> LayerScene.masksAllow LayerScene.powerUp LayerScene.player.
Proof.
  apply (@shouldCheckCollision_iff_masks Q QNumber 0%nat 1%nat
           LayerScene.powerUp LayerScene.player);
    first [ discriminate | reflexivity ].
Defined.

(** The narrow phase does run for the pickup and the player. *)
Example pickup_meets_player :
  Physics.shouldCheckCollision 0 1 LayerScene.powerUp LayerScene.player = true.
Proof. reflexivity. Qed.

(* ================================================================= *)
(** ** World: deferred additions and removals *)

Module WorldFacts.

Section Facts.
Context {num : Type}.

Lemma world_includes_In (l : list Ref) (r : Ref) : World.includes l r = true <-> In r l.
Proof.
  unfold World.includes. rewrite existsb_exists. split.
  - intros (x & Hin & Heq). apply Nat.eqb_eq in Heq. subst x. exact Hin.
  - intros Hin. exists r. split; [exact Hin | apply Nat.eqb_refl].
Qed.

Lemma In_removeFirst (r obj : Ref) (l : list Ref) :
  In r l -> r <> obj -> In r (World.removeFirst obj l).
Proof.
  induction l as [| first rest IH]; cbn; intros Hin Hneq.
  - exact Hin.
  - destruct (Nat.eqb first obj) eqn:E.
    + apply Nat.eqb_eq in E. destruct Hin as [H | H]; [congruence | exact H].
    + destruct Hin as [H | H]; [left; exact H | right; apply IH; assumption].
Qed.

Lemma removeFirst_incl (r obj : Ref) (l : list Ref) :
  In r (World.removeFirst obj l) -> In r l.
Proof.
  induction l as [| first rest IH]; cbn; intros Hin.
  - exact Hin.
  - destruct (Nat.eqb first obj).
    + right; exact Hin.
    + destruct Hin as [H | H]; [left; exact H | right; apply IH; exact H].
Qed.

Lemma pushToLayer_proper (ls : list (string * World.Entry)) (name : string) (obj : Ref) :
  Layers.proper ls ->
  exists ls', World.pushToLayer ls name obj = Normal ls' /\ Layers.proper ls'.
Proof.
  induction ls as [| [k entry] rest IH]; intros Hp; cbn.
  - exists []. split; [reflexivity | exact Hp].
  - assert (Hrest : Layers.proper rest).
    { intros n d Hin. apply (Hp n d). right. exact Hin. }
    destruct entry as [layer | data]; [| exfalso; apply (Hp k data); left; reflexivity].
    destruct (String.eqb k name).
    + eexists. split; [reflexivity |].
      intros n d [Heq | Hin]; [discriminate | exact (Hrest n d Hin)].
    + destruct (IH Hrest) as (rest' & -> & Hp').
      eexists. split; [reflexivity |].
      intros n d [Heq | Hin]; [discriminate | exact (Hp' n d Hin)].
Qed.

Lemma removeObjectFromLayer_proper (ls : list (string * World.Entry)) (obj : Ref) :
  Layers.proper ls ->
  exists ls', World.removeObjectFromLayer ls obj = Normal ls' /\ Layers.proper ls'.
Proof.
  induction ls as [| [k entry] rest IH]; intros Hp; cbn.
  - exists []. split; [reflexivity | exact Hp].
  - assert (Hrest : Layers.proper rest).
    { intros n d Hin. apply (Hp n d). right. exact Hin. }
    destruct entry as [layer | data]; [| exfalso; apply (Hp k data); left; reflexivity].
    destruct (World.includes (World.objects layer) obj).
    + eexists. split; [reflexivity |].
      intros n d [Heq | Hin]; [discriminate | exact (Hrest n d Hin)].
    + destruct (IH Hrest) as (rest' & -> & Hp').
      eexists. split; [reflexivity |].
      intros n d [Heq | Hin]; [discriminate | exact (Hp' n d Hin)].
Qed.

(** The first loop of [processObjectChanges]. *)
Lemma add_loop (h : Heap num) (added : list Ref) (w : World.t num) :
  let w1 := fst (World.drainAdded h added w) in
  let ending := snd (World.drainAdded h added w) in
  (exists done : list Ref,
      World.gameObjects w1 = World.gameObjects w ++ done
      /\ (forall r, In r done -> In r added)
      /\ (ending = Returned -> done = added))
  /\ World.toAdd w1 = World.toAdd w
  /\ World.toRemove w1 = World.toRemove w
  /\ ClockInv.clock w1 = ClockInv.clock w
  /\ (Layers.proper (World.layers w) -> ending = Returned /\ Layers.proper (World.layers w1)).
Proof.
  revert w. induction added as [| obj rest IH]; intros w; cbn [World.drainAdded].
  - cbn [fst snd]. split; [exists []; rewrite app_nil_r; auto |].
    split; [reflexivity |]. split; [reflexivity |]. split; [reflexivity |]. auto.
  - cbn [World.set_lists World.layers World.gameObjects World.toAdd World.toRemove].
    unfold World.addObjectToLayer.
    destruct (World.pushToLayer (World.layers w) (World.layerNameOf h obj) obj)
      as [ls | e] eqn:Epush.
    + match goal with
      | |- context [World.drainAdded h rest ?w'] =>
          destruct (IH w') as ((done & Hlive & Hsub & Hall) & Hadd & Hrem & Hrest & Hproper)
      end.
      cbn [World.set_lists World.layers World.gameObjects World.toAdd World.toRemove
           World.paused World.timeScale World.worldTime ClockInv.clock] in *.
      split; [| split; [exact Hadd | split; [exact Hrem | split; [exact Hrest |]]]].
      * exists (obj :: done). rewrite Hlive, <- app_assoc.
        split; [reflexivity |]. split.
        -- intros r [<- | Hin]; [left; reflexivity | right; apply Hsub; exact Hin].
        -- intros Hret. rewrite (Hall Hret). reflexivity.
      * intros Hp. destruct (pushToLayer_proper (World.layerNameOf h obj) obj Hp)
          as (ls' & Hls & Hp').
        rewrite Epush in Hls. injection Hls as <-. apply Hproper. exact Hp'.
    + cbn [fst snd World.set_lists World.layers World.gameObjects World.toAdd World.toRemove
           World.paused World.timeScale World.worldTime ClockInv.clock].
      split; [| split; [reflexivity | split; [reflexivity | split; [reflexivity |]]]].
      * exists [obj]. split; [reflexivity |]. split.
        -- intros r [<- | []]. left. reflexivity.
        -- discriminate.
      * intros Hp. destruct (pushToLayer_proper (World.layerNameOf h obj) obj Hp)
          as (ls' & Hls & _). congruence.
Qed.

(** The second loop of [processObjectChanges]. *)
Lemma remove_loop (removed : list Ref) (w : World.t num) :
  let w3 := fst (World.drainRemoved removed w) in
  let ending := snd (World.drainRemoved removed w) in
  (forall r, In r (World.gameObjects w3) -> In r (World.gameObjects w))
  /\ (ending = Returned ->
      forall r, In r (World.gameObjects w) -> ~ In r removed -> In r (World.gameObjects w3))
  /\ World.toAdd w3 = World.toAdd w
  /\ World.toRemove w3 = World.toRemove w
  /\ ClockInv.clock w3 = ClockInv.clock w
  /\ (Layers.proper (World.layers w) -> ending = Returned /\ Layers.proper (World.layers w3)).
Proof.
  revert w. induction removed as [| obj rest IH]; intros w; cbn [World.drainRemoved].
  - cbn [fst snd]. split; [auto |]. split; [auto |].
    split; [reflexivity |]. split; [reflexivity |]. split; [reflexivity |]. auto.
  - destruct (World.includes (World.gameObjects w) obj) eqn:E.
    + cbn [World.set_lists World.layers World.gameObjects World.toAdd World.toRemove].
      destruct (World.removeObjectFromLayer (World.layers w) obj) as [ls | e] eqn:Erem.
      * match goal with
        | |- context [World.drainRemoved rest ?w'] =>
            destruct (IH w') as (Hsub & Hkeep & Hadd & Hrem & Hrest & Hproper)
        end.
        cbn [World.set_lists World.layers World.gameObjects World.toAdd World.toRemove
             World.paused World.timeScale World.worldTime ClockInv.clock] in *.
        split; [| split; [| split; [exact Hadd | split; [exact Hrem | split; [exact Hrest |]]]]].
        -- intros r Hin. apply removeFirst_incl with (obj := obj). apply Hsub. exact Hin.
        -- intros Hret r Hin Hnot. apply (Hkeep Hret).
           ++ apply In_removeFirst; [exact Hin | intro; subst; apply Hnot; left; reflexivity].
           ++ intro H. apply Hnot. right. exact H.
        -- intros Hp. destruct (removeObjectFromLayer_proper obj Hp) as (ls' & Hls & Hp').
           rewrite Erem in Hls. injection Hls as <-. apply Hproper. exact Hp'.
      * cbn [fst snd World.set_lists World.layers World.gameObjects World.toAdd
             World.toRemove World.paused World.timeScale World.worldTime ClockInv.clock].
        split; [| split; [| split; [reflexivity | split; [reflexivity | split; [reflexivity |]]]]].
        -- intros r Hin. apply removeFirst_incl with (obj := obj). exact Hin.
        -- discriminate.
        -- intros Hp. destruct (removeObjectFromLayer_proper obj Hp) as (ls' & Hls & _).
           congruence.
    + destruct (IH w) as (Hsub & Hkeep & Hadd & Hrem & Hrest & Hproper).
      split; [exact Hsub |].
      split; [| split; [exact Hadd | split; [exact Hrem | split; [exact Hrest | exact Hproper]]]].
      intros Hret r Hin Hnot. apply (Hkeep Hret);
        [exact Hin | intro H; apply Hnot; right; exact H].
Qed.

(** [processObjectChanges], step by step: the world after each loop that
    returned. *)
Lemma processObjectChanges_cases (h : Heap num) (w : World.t num) :
  let w1 := fst (World.drainAdded h (World.toAdd w) w) in
  let w2 := World.set_lists w1 (World.gameObjects w1) [] (World.toRemove w1)
              (World.layers w1) in
  let w3 := fst (World.drainRemoved (World.toRemove w2) w2) in
  (exists e, snd (World.drainAdded h (World.toAdd w) w) = Thrown e
             /\ World.processObjectChanges h w = (w1, Thrown e))
  \/ (snd (World.drainAdded h (World.toAdd w) w) = Returned
      /\ exists e, snd (World.drainRemoved (World.toRemove w2) w2) = Thrown e
                   /\ World.processObjectChanges h w = (w3, Thrown e))
  \/ (snd (World.drainAdded h (World.toAdd w) w) = Returned
      /\ snd (World.drainRemoved (World.toRemove w2) w2) = Returned
      /\ World.processObjectChanges h w
         = (World.set_lists w3
              (filter (fun obj => negb (World.isDestroyed h obj)) (World.gameObjects w3))
              (World.toAdd w3) [] (World.layers w3),
            Returned)).
Proof.
  intros w1 w2 w3. unfold World.processObjectChanges.
  subst w3 w2 w1.
  destruct (World.drainAdded h (World.toAdd w) w) as [w1 [| e]]; cbn [fst snd].
  - match goal with
    | |- context [World.drainRemoved ?removed ?w2] =>
        destruct (World.drainRemoved removed w2) as [w3 [| e]]; cbn [fst snd]
    end.
    + right. right. split; [reflexivity |]. split; reflexivity.
    + right. left. split; [reflexivity |]. exists e. split; reflexivity.
  - left. exists e. split; reflexivity.
Qed.

Lemma processObjectChanges_clock (h : Heap num) (w : World.t num) :
  ClockInv.clock (fst (World.processObjectChanges h w)) = ClockInv.clock w.
Proof.
  destruct (add_loop h (World.toAdd w) w) as (_ & _ & _ & H1 & _).
  match goal with
  | |- _ => pose proof (fun w2 => remove_loop (World.toRemove w2) w2) as H3
  end.
  destruct (processObjectChanges_cases h w) as [(e & _ & ->) | [(_ & e & _ & ->) | (_ & _ & ->)]];
    cbn [fst].
  - exact H1.
  - match goal with
    | |- ClockInv.clock (fst (World.drainRemoved _ ?w2)) = _ =>
        destruct (H3 w2) as (_ & _ & _ & _ & H & _); cbn zeta in H
    end.
    etransitivity; [exact H |]. exact H1.
  - match goal with
    | |- ClockInv.clock (World.set_lists (fst (World.drainRemoved _ ?w2)) _ _ _ _) = _ =>
        destruct (H3 w2) as (_ & _ & _ & _ & H & _); cbn zeta in H
    end.
    etransitivity; [| exact H1]. etransitivity; [| exact H]. reflexivity.
Qed.

Lemma processObjectChanges_proper (h : Heap num) (w : World.t num) :
  Layers.proper (World.layers w) ->
  snd (World.processObjectChanges h w) = Returned
  /\ Layers.proper (World.layers (fst (World.processObjectChanges h w))).
Proof.
  intros Hp.
  destruct (add_loop h (World.toAdd w) w) as (_ & _ & _ & _ & H1).
  destruct (H1 Hp) as [Hret1 Hp1].
  match goal with
  | |- _ => pose proof (fun w2 => remove_loop (World.toRemove w2) w2) as H3
  end.
  destruct (processObjectChanges_cases h w)
    as [(e & He & _) | [(_ & e & He & _) | (_ & _ & ->)]].
  - congruence.
  - match type of He with
    | snd (World.drainRemoved _ ?w2) = _ =>
        destruct (H3 w2) as (_ & _ & _ & _ & _ & H); cbn zeta in H;
        destruct (H Hp1) as [Hret _]; congruence
    end.
  - cbn [fst snd World.set_lists World.layers]. split; [reflexivity |].
    match goal with
    | |- Layers.proper (World.layers (fst (World.drainRemoved _ ?w2))) =>
        destruct (H3 w2) as (_ & _ & _ & _ & _ & H); cbn zeta in H;
        destruct (H Hp1) as [_ Hp3]; exact Hp3
    end.
Qed.





End Facts.

Section Update.
Context {num : Type} {N : JSNumber num}.




End Update.

End WorldFacts.


Module FrameFlow.

Section Facts.
Context {num : Type} {N : JSNumber num} {F : JSFloor num}.




End Facts.

End FrameFlow.



(** After [loadLevel] the layer table starts with a tile array, and the
    drain of a frame that has a listed object to remove throws on it: the
    object is spliced out of the list, the removal queue is not emptied,
    the sweep of destroyed objects does not happen, and the frame ends
    before any object is updated. *)
Lemma drain_throws_after_loadLevel :
  let frame1 := Game.update FrameScene.leave FrameScene.dt FrameScene.loaded in
  let g1 := fst (fst frame1) in
  let frame2 := Game.update FrameScene.idle FrameScene.dt g1 in
  let g2 := fst (fst frame2) in
  snd frame1 = Returned
  /\ World.gameObjects (Game.world g1) = [0; 1]%nat
  /\ World.getObjectsForLayer (Game.world g1) "entities" = Some [0; 1]%nat
  /\ World.toRemove (Game.world g1) = [0%nat]
  /\ World.isDestroyed (Game.heap g1) 1 = true
  /\ snd frame2 = Thrown "TypeError"
  /\ Game.physicsPass FrameScene.idle FrameScene.dt g1 = None
  /\ World.gameObjects (Game.world g2) = [1%nat]
  /\ World.getObjectsForLayer (Game.world g2) "entities" = Some [0; 1]%nat
  /\ World.toRemove (Game.world g2) = [0%nat].
Proof. vm_compute. repeat split; reflexivity. Qed.

(* ================================================================= *)
(** ** Facts about the heap *)

Module HeapFacts.

Section Facts.
Context {num : Type}.

Lemma lookup_write (h : Heap num) (r r' : Ref) (o : GameObject.t num) :
  Heap.lookup (Heap.write h r' o) r
  = if Nat.eqb r r' then option_map (fun _ => o) (Heap.lookup h r) else Heap.lookup h r.
Proof.
  revert r r'. induction h as [| first rest IH]; intros r r'.
  - destruct r as [| r], r' as [| r']; cbn; try reflexivity.
    destruct (Nat.eqb r r'); reflexivity.
  - destruct r as [| r], r' as [| r']; cbn; try reflexivity.
    apply IH.
Qed.

Lemma lookup_modify (f : GameObject.t num -> GameObject.t num) (h : Heap num) (r r' : Ref) :
  Heap.lookup (Heap.modify f h r') r
  = if Nat.eqb r r' then option_map f (Heap.lookup h r) else Heap.lookup h r.
Proof.
  unfold Heap.modify. destruct (Heap.lookup h r') as [o |] eqn:E.
  - rewrite lookup_write. destruct (Nat.eqb r r') eqn:Er; [| reflexivity].
    apply Nat.eqb_eq in Er. subst r'. rewrite E. reflexivity.
  - destruct (Nat.eqb r r') eqn:Er; [| reflexivity].
    apply Nat.eqb_eq in Er. subst r'. rewrite E. reflexivity.
Qed.

(** A loop that runs a method with no effect on the object behind [r]. *)
Lemma lookup_fold_modify_fixed (f : GameObject.t num -> GameObject.t num)
  (refs : list Ref) (h : Heap num) (r : Ref) (o : GameObject.t num) :
  Heap.lookup h r = Some o -> f o = o ->
  Heap.lookup (fold_left (Heap.modify f) refs h) r = Some o.
Proof.
  revert h. induction refs as [| r' rest IH]; intros h Hlook Hfix; cbn.
  - exact Hlook.
  - apply IH; [| exact Hfix].
    rewrite lookup_modify. destruct (Nat.eqb r r'); [| exact Hlook].
    rewrite Hlook. cbn. rewrite Hfix. reflexivity.
Qed.

Section Related.
Variable R : GameObject.t num -> GameObject.t num -> Prop.
Hypothesis R_refl : forall o, R o o.
Hypothesis R_trans : forall o1 o2 o3, R o1 o2 -> R o2 o3 -> R o1 o3.

Lemma related_refl (h : Heap num) : Forall2 R h h.
Proof. induction h; constructor; auto. Qed.

Lemma related_trans (h1 h2 h3 : Heap num) :
  Forall2 R h1 h2 -> Forall2 R h2 h3 -> Forall2 R h1 h3.
Proof.
  intros H12. revert h3. induction H12; intros h3 H23; inversion H23; subst; constructor; eauto.
Qed.

Lemma related_lookup (h h' : Heap num) (r : Ref) (o : GameObject.t num) :
  Forall2 R h h' -> Heap.lookup h r = Some o ->
  exists o', Heap.lookup h' r = Some o' /\ R o o'.
Proof.
  intros Hrel. revert r. induction Hrel as [| x y l l' Hxy Hrest IH]; intros r Hlook.
  - destruct r; discriminate.
  - destruct r as [| r]; cbn in *.
    + injection Hlook as ->. exists y. split; [reflexivity | exact Hxy].
    + apply IH. exact Hlook.
Qed.

Lemma related_write (h0 h : Heap num) (r : Ref) (o0 o' : GameObject.t num) :
  Forall2 R h0 h -> Heap.lookup h0 r = Some o0 -> R o0 o' ->
  Forall2 R h0 (Heap.write h r o').
Proof.
  intros Hrel. revert r. induction Hrel as [| x y l l' Hxy Hrest IH]; intros r Hlook Hr.
  - destruct r; discriminate.
  - destruct r as [| r]; cbn in *.
    + injection Hlook as ->. constructor; assumption.
    + constructor; [exact Hxy | apply IH; assumption].
Qed.

Lemma related_modify (f : GameObject.t num -> GameObject.t num) (h : Heap num) (r : Ref) :
  (forall o, R o (f o)) -> Forall2 R h (Heap.modify f h r).
Proof.
  intros Hf. unfold Heap.modify. destruct (Heap.lookup h r) as [o |] eqn:E.
  - apply related_write with (o0 := o); [apply related_refl | exact E | apply Hf].
  - apply related_refl.
Qed.

Lemma related_fold_modify (f : GameObject.t num -> GameObject.t num) (refs : list Ref)
  (h : Heap num) :
  (forall o, R o (f o)) -> Forall2 R h (fold_left (Heap.modify f) refs h).
Proof.
  intros Hf. revert h. induction refs as [| r rest IH]; intros h; cbn.
  - apply related_refl.
  - apply related_trans with (h2 := Heap.modify f h r); [apply related_modify; exact Hf | apply IH].
Qed.

End Related.

End Facts.

End HeapFacts.

(* ================================================================= *)
(** ** Gravity *)

Module GravityFacts.

Import GravityInv.

Lemma kept_refl (o : GameObject.t Q) : kept o o.
Proof. split; auto. Qed.

Lemma kept_trans (o1 o2 o3 : GameObject.t Q) : kept o1 o2 -> kept o2 o3 -> kept o1 o3.
Proof.
  intros [Hs12 Ha12] [Hs23 Ha23]. split.
  - congruence.
  - intros Hzero. rewrite Ha23, Ha12; auto. rewrite Hs12. exact Hzero.
Qed.

Lemma kept_set_position (o : GameObject.t Q) (p : Vector2.t Q) :
  kept o (GameObject.set_position o p).
Proof. split; auto. Qed.

Lemma kept_set_velocity (o : GameObject.t Q) (v : Vector2.t Q) :
  kept o (GameObject.set_velocity o v).
Proof. split; auto. Qed.

Lemma zero_scale_guards (o : GameObject.t Q) :
  GameObject.gravityScale o == 0 ->
  ExactNum.ltb 0 (GameObject.gravityScale o) = false
  /\ negb (Qeq_bool (GameObject.gravityScale o) 0) = false.
Proof.
  intros Hzero. split.
  - apply ExactFacts.ltb_false_iff. rewrite Hzero. apply Qle_refl.
  - apply negb_false_iff. apply Qeq_bool_iff. exact Hzero.
Qed.

Lemma applyGravityTo_zero_scale (this : Physics.t Q) (o : GameObject.t Q) :
  GameObject.gravityScale o == 0 -> Physics.applyGravityTo this o = o.
Proof.
  intros Hzero. unfold Physics.applyGravityTo.
  destruct (zero_scale_guards o Hzero) as [Hguard _].
  cbn [nltb QNumber lit]. rewrite Hguard, andb_false_r. reflexivity.
Qed.

Lemma kept_applyGravityTo (this : Physics.t Q) (o : GameObject.t Q) :
  kept o (Physics.applyGravityTo this o).
Proof.
  split.
  - unfold Physics.applyGravityTo.
    destruct (Physics.isLive o && _); [| reflexivity].
    destruct (nltb _ _); reflexivity.
  - intros Hzero. rewrite applyGravityTo_zero_scale; auto.
Qed.

Lemma kept_integrateVelocity_guarded (dt : Q) (o : GameObject.t Q) :
  kept o (if Physics.isLive o && negb (neqb (GameObject.gravityScale o) (lit 0))
          then Physics.integrateVelocity o dt else o).
Proof.
  split.
  - destruct (Physics.isLive o && _); reflexivity.
  - intros Hzero. destruct (zero_scale_guards o Hzero) as [_ Hguard].
    cbn [neqb QNumber lit]. rewrite Hguard, andb_false_r. reflexivity.
Qed.

Lemma kept_integratePosition_guarded (dt : Q) (o : GameObject.t Q) :
  kept o (if Physics.isLive o then Physics.integratePosition o dt else o).
Proof. destruct (Physics.isLive o); split; auto. Qed.

Lemma kept_positionalCorrection (objA objB : GameObject.t Q) (c : Physics.Collision Q) :
  kept objA (fst (Physics.positionalCorrection objA objB c))
  /\ kept objB (snd (Physics.positionalCorrection objA objB c)).
Proof.
  unfold Physics.positionalCorrection.
  destruct (GameObject.solid objA), (GameObject.solid objB); cbn; split; split; auto.
Qed.

Lemma kept_applyFriction (objA objB : GameObject.t Q) (c : Physics.Collision Q) (j : Q) :
  kept objA (fst (Physics.applyFriction objA objB c j))
  /\ kept objB (snd (Physics.applyFriction objA objB c j)).
Proof.
  unfold Physics.applyFriction.
  destruct (nltb _ _); [split; apply kept_refl |].
  cbn [fst snd]. split.
  - destruct (GameObject.solid objA && _); split; auto.
  - destruct (GameObject.solid objB && _); split; auto.
Qed.

Lemma kept_resolveVelocity (objA objB : GameObject.t Q) (c : Physics.Collision Q) :
  kept objA (fst (Physics.resolveVelocity objA objB c))
  /\ kept objB (snd (Physics.resolveVelocity objA objB c)).
Proof.
  unfold Physics.resolveVelocity.
  destruct (nltb _ _); [split; apply kept_refl |].
  match goal with
  | |- context [Physics.applyFriction ?a ?b c ?j] =>
      destruct (kept_applyFriction a b c j) as [HA HB];
      assert (HA0 : kept objA a) by (destruct (GameObject.solid objA && _); split; auto);
      assert (HB0 : kept objB b) by (destruct (GameObject.solid objB && _); split; auto)
  end.
  split; eapply kept_trans; eassumption.
Qed.

Lemma kept_resolveCollisionObjects (a b : Ref) (objA objB : GameObject.t Q)
  (c : Physics.Collision Q) :
  let '(objA', objB', _) := Physics.resolveCollisionObjects a b objA objB c in
  kept objA objA' /\ kept objB objB'.
Proof.
  unfold Physics.resolveCollisionObjects.
  destruct (GameObject.isTrigger objA || GameObject.isTrigger objB);
    [split; apply kept_refl |].
  destruct (negb (GameObject.solid objA) && negb (GameObject.solid objB));
    [split; apply kept_refl |].
  destruct (kept_positionalCorrection objA objB c) as [HA1 HB1].
  destruct (Physics.positionalCorrection objA objB c) as [objA1 objB1]. cbn [fst snd] in *.
  destruct (kept_resolveVelocity objA1 objB1 c) as [HA2 HB2].
  destruct (Physics.resolveVelocity objA1 objB1 c) as [objA2 objB2]. cbn [fst snd] in *.
  split; eapply kept_trans; eassumption.
Qed.

Lemma related_resolveCollision (h : Heap Q) (log : list (Physics.Event Q))
  (pair : Physics.Pair Q) :
  related h (fst (Physics.resolveCollision (h, log) pair)).
Proof.
  unfold Physics.resolveCollision.
  destruct (Heap.lookup h (Physics.objectA pair)) as [objA |] eqn:EA;
    [| apply HeapFacts.related_refl, kept_refl].
  destruct (Heap.lookup h (Physics.objectB pair)) as [objB |] eqn:EB;
    [| apply HeapFacts.related_refl, kept_refl].
  pose proof (kept_resolveCollisionObjects (Physics.objectA pair) (Physics.objectB pair)
                objA objB (Physics.collision pair)) as Hkept.
  destruct (Physics.resolveCollisionObjects _ _ objA objB _) as [[objA' objB'] events].
  destruct Hkept as [HA HB]. cbn [fst].
  apply HeapFacts.related_write with (o0 := objB); [| exact EB | exact HB].
  apply HeapFacts.related_write with (o0 := objA); [| exact EA | exact HA].
  apply HeapFacts.related_refl, kept_refl.
Qed.

Lemma related_resolveCollisions (pairs : list (Physics.Pair Q))
  (st : Heap Q * list (Physics.Event Q)) :
  related (fst st) (fst (fold_left Physics.resolveCollision pairs st)).
Proof.
  revert st. induction pairs as [| pair rest IH]; intros [h log]; cbn [fold_left].
  - apply HeapFacts.related_refl, kept_refl.
  - eapply HeapFacts.related_trans; [exact kept_trans | | apply IH].
    apply related_resolveCollision.
Qed.

Lemma related_physicsSubStep (this : Physics.t Q) (objects : list Ref) (dt : Q)
  (st : Heap Q * list (Physics.Event Q)) :
  related (fst st) (fst (Physics.physicsSubStep this objects dt st)).
Proof.
  destruct st as [h log]. unfold Physics.physicsSubStep.
  match goal with
  | |- context [Physics.resolveCollisions ?pairs (?h1, log)] =>
      pose proof (related_resolveCollisions (Physics.sortByPenetration pairs) (h1, log)) as H2;
      assert (H1 : related h h1)
  end.
  { apply HeapFacts.related_fold_modify; [exact kept_refl | exact kept_trans |].
    intros o. apply kept_integrateVelocity_guarded. }
  unfold Physics.resolveCollisions in *.
  destruct (fold_left Physics.resolveCollision _ _) as [h2 log2]. cbn [fst] in *.
  eapply HeapFacts.related_trans; [exact kept_trans | exact H1 |].
  eapply HeapFacts.related_trans; [exact kept_trans | exact H2 |].
  apply HeapFacts.related_fold_modify; [exact kept_refl | exact kept_trans |].
  intros o. apply kept_integratePosition_guarded.
Qed.

Lemma related_repeat_step (step : Heap Q * list (Physics.Event Q) -> Heap Q * list (Physics.Event Q))
  (n : nat) (st : Heap Q * list (Physics.Event Q)) :
  (forall st', related (fst st') (fst (step st'))) ->
  related (fst st) (fst (Physics.repeat_step n step st)).
Proof.
  intros Hstep. revert st. induction n as [| n IH]; intros st; cbn.
  - apply HeapFacts.related_refl, kept_refl.
  - eapply HeapFacts.related_trans; [exact kept_trans | apply Hstep | apply IH].
Qed.

Lemma related_update (this : Physics.t Q) (objects : list Ref) (dt : Q) (h : Heap Q) :
  related h (snd (fst (Physics.update this objects dt h))).
Proof.
  unfold Physics.update.
  match goal with
  | |- context [Physics.repeat_step ?n ?step (?h1, [])] =>
      pose proof (related_repeat_step step n (h1, [])
                    (fun st' => related_physicsSubStep _ _ _ st')) as H2;
      assert (H1 : related h h1)
  end.
  { apply HeapFacts.related_fold_modify; [exact kept_refl | exact kept_trans |].
    intros o. apply kept_applyGravityTo. }
  destruct (Physics.repeat_step _ _ _) as [h2 log]. cbn [fst snd] in *.
  eapply HeapFacts.related_trans; [exact kept_trans | exact H1 | exact H2].
Qed.

Lemma related_updates (n : nat) (this : Physics.t Q) (objects : list Ref) (dt : Q)
  (h : Heap Q) :
  related h (snd (Physics.updates n this objects dt h)).
Proof.
  revert this h. induction n as [| n IH]; intros this h; cbn.
  - apply HeapFacts.related_refl, kept_refl.
  - pose proof (related_update this objects dt h) as H1.
    destruct (Physics.update this objects dt h) as [[this1 h1] log]. cbn [fst snd] in H1.
    eapply HeapFacts.related_trans; [exact kept_trans | exact H1 | apply IH].
Qed.

Lemma related_lookup_rev (h h' : Heap Q) (r : Ref) (o' : GameObject.t Q) :
  related h h' -> Heap.lookup h' r = Some o' ->
  exists o, Heap.lookup h r = Some o /\ kept o o'.
Proof.
  intros Hrel. revert r. induction Hrel as [| x y l l' Hxy Hrest IH]; intros r Hlook.
  - destruct r; discriminate.
  - destruct r as [| r]; cbn in *.
    + injection Hlook as ->. exists x. split; [reflexivity | exact Hxy].
    + apply IH. exact Hlook.
Qed.

Lemma weightless_related (h h' : Heap Q) (objects : list Ref) :
  related h h' -> GravityScene.weightless h objects -> GravityScene.weightless h' objects.
Proof.
  intros Hrel Hzero r o' Hin Hlook.
  destruct (related_lookup_rev r Hrel Hlook) as (o & Hlook0 & [Hscale _]).
  rewrite Hscale. apply (Hzero r o Hin Hlook0).
Qed.

Lemma fold_modify_fixed (f : GameObject.t Q -> GameObject.t Q) (refs : list Ref) (h : Heap Q) :
  (forall r o, In r refs -> Heap.lookup h r = Some o -> f o = o) ->
  fold_left (Heap.modify f) refs h = h.
Proof.
  induction refs as [| r rest IH]; intros Hfix; cbn.
  - reflexivity.
  - assert (Hstep : Heap.modify f h r = h).
    { unfold Heap.modify. destruct (Heap.lookup h r) as [o |] eqn:E; [| reflexivity].
      rewrite (Hfix r o (or_introl eq_refl) E). apply write_same. exact E. }
    rewrite Hstep. apply IH. intros r' o Hin. apply Hfix. right. exact Hin.
Qed.

Lemma applyGravity_weightless (this : Physics.t Q) (objects : list Ref) (dt : Q) (h : Heap Q) :
  GravityScene.weightless h objects -> Physics.applyGravity this objects dt h = h.
Proof.
  intros Hzero. unfold Physics.applyGravity. apply fold_modify_fixed.
  intros r o Hin Hlook. apply applyGravityTo_zero_scale. apply (Hzero r o Hin Hlook).
Qed.

Lemma update_weightless (this : Physics.t Q) (objects : list Ref) (dt gx gy : Q) (h : Heap Q) :
  GravityScene.weightless h objects ->
  Physics.update (Physics.setGravity this gx gy) objects dt h
  = let '(this1, h1, log) := Physics.update this objects dt h in
    (Physics.setGravity this1 gx gy, h1, log).
Proof.
  intros Hzero. unfold Physics.update.
  rewrite !applyGravity_weightless by exact Hzero.
  cbn [Physics.spatialGrid Physics.subSteps Physics.setGravity].
  change (Physics.physicsSubStep (Physics.withGrid (Physics.setGravity this gx gy) ?g))
    with (Physics.physicsSubStep (Physics.withGrid this g)).
  destruct (Physics.repeat_step _ _ _) as [h2 log]. reflexivity.
Qed.

Lemma updates_weightless (n : nat) (this : Physics.t Q) (objects : list Ref) (dt gx gy : Q)
  (h : Heap Q) :
  GravityScene.weightless h objects ->
  snd (Physics.updates n (Physics.setGravity this gx gy) objects dt h)
  = snd (Physics.updates n this objects dt h).
Proof.
  revert this h. induction n as [| n IH]; intros this h Hzero; cbn.
  - reflexivity.
  - rewrite update_weightless by exact Hzero.
    pose proof (related_update this objects dt h) as Hrel.
    destruct (Physics.update this objects dt h) as [[this1 h1] log]. cbn [fst snd] in Hrel.
    apply IH. apply (weightless_related Hrel Hzero).
Qed.

End GravityFacts.

(** C6.  Take an object whose [gravityScale] is 0, in any heap, and run any
    number [n] of physics updates over any object list.  The object still
    has [gravityScale] 0 and the acceleration it started with: no force
    was added to it; [applyGravity] leaves it as it is, field by field.
    And when every listed object has [gravityScale] 0, the heap after the
    [n] updates, positions included, is the same under any other gravity
    vector. *)
Theorem gravity_skips_zero_gravityScale :
  forall (this : Physics.t Q) (objects : list Ref) (dt : Q) (n : nat)
         (h : Heap Q) (r : Ref) (o : GameObject.t Q),
    Heap.lookup h r = Some o ->
    GameObject.gravityScale o == 0 ->
    let '(this_n, h_n) := Physics.updates n this objects dt h in
    (exists o_n : GameObject.t Q,
        Heap.lookup h_n r = Some o_n
        /\ GameObject.gravityScale o_n = GameObject.gravityScale o
        /\ GameObject.acceleration o_n = GameObject.acceleration o
        /\ Physics.applyGravityTo this_n o_n = o_n
        /\ Heap.lookup (Physics.applyGravity this_n objects dt h_n) r = Some o_n)
    /\ (GravityScene.weightless h objects ->
        forall gx gy : Q,
          snd (Physics.updates n (Physics.setGravity this gx gy) objects dt h) = h_n).
Proof.
  intros this objects dt n h r o Hlook Hzero.
  pose proof (GravityFacts.related_updates n this objects dt h) as Hrel.
  pose proof (fun Hw gx gy => @GravityFacts.updates_weightless n this objects dt gx gy h Hw) as Hind.
  destruct (Physics.updates n this objects dt h) as [this_n h_n]. cbn [snd] in *.
  split; [| exact Hind].
  destruct (HeapFacts.related_lookup r Hrel Hlook) as (o_n & Hlook_n & Hscale & Hacc).
  assert (Hzero_n : GameObject.gravityScale o_n == 0) by (rewrite Hscale; exact Hzero).
  exists o_n. repeat split.
  - exact Hlook_n.
  - exact Hscale.
  - apply Hacc. exact Hzero.
  - apply GravityFacts.applyGravityTo_zero_scale. exact Hzero_n.
  - unfold Physics.applyGravity. apply HeapFacts.lookup_fold_modify_fixed.
    + exact Hlook_n.
    + apply GravityFacts.applyGravityTo_zero_scale. exact Hzero_n.
Qed.

(** The drifting pickup beside the falling crate, over three frames. *)
Lemma gravity_skips_zero_gravityScale_witness :
  GameObject.gravityScale GravityScene.pickup == 0
  /\ let '(this_n, h_n) :=
       Physics.updates 3 Physics.new [0; 1]%nat (1 # 60) GravityScene.heap0 in
     exists o_n : GameObject.t Q,
       Heap.lookup h_n 0 = Some o_n
       /\ GameObject.acceleration o_n = GameObject.acceleration GravityScene.pickup
       /\ Physics.applyGravityTo this_n o_n = o_n.
Proof.
  split; [reflexivity |].
  pose proof (@gravity_skips_zero_gravityScale Physics.new [0; 1]%nat (1 # 60) 3%nat
                GravityScene.heap0 0%nat GravityScene.pickup eq_refl (Qeq_refl 0)) as H.
  destruct (Physics.updates 3 Physics.new [0; 1]%nat (1 # 60) GravityScene.heap0)
    as [this_n h_n].
  destruct H as [(o_n & Hlook & _ & Hacc & Hfix & _) _].
  exists o_n. repeat split; assumption.
Defined.

(** After three frames at 60 frames per second the pickup has drifted by
    [3 * 30 / 60] from y = 10, while the crate has fallen under gravity. *)
Example pickup_drifts_crate_falls :
  let h3 := snd (Physics.updates 3 Physics.new [0; 1]%nat (1 # 60) GravityScene.heap0) in
  GravityScene.positionY h3 0 = Some (23 # 2)
  /\ GravityScene.positionY h3 1 = Some (49 # 120).
Proof. vm_compute. split; reflexivity. Qed.

(* ================================================================= *)
(** ** Degenerate inputs, in IEEE-754 arithmetic *)

(** C7 at its failing inputs.
    - [normalized()] does guard the zero vector, and hands [raycastAABB] a
      direction (0, 0); [raycastAABB] divides by its components unguarded:
      from inside the box it reports a hit, at distance [Infinity] and at a
      point whose coordinates are NaN.
    - [raycast] itself throws for every positive [maxDistance], whatever
      the direction: [getObjectsInRay] assigns to a [const].
    - A resting crate of mass 0 that overlaps a crate of mass 1 leaves
      [resolveCollision] with NaN velocity, and so does its partner; two
      crates of mass 0 leave it with NaN positions as well. *)
Theorem zero_divisors_are_not_guarded :
  Ray.direction DegenerateScene.zeroRay = Vector2.mk 0%float 0%float
  /\ (exists found : Physics.Hit float,
        Physics.raycastAABB DegenerateScene.zeroRay DegenerateScene.box = Some found
        /\ Physics.hitDistance found = infinity
        /\ DegenerateScene.allNaN (Physics.hitPoint found) = true)
  /\ Physics.raycast Physics.new [DegenerateScene.box]
       (Vector2.mk 16%float 16%float) (Vector2.mk 0%float 0%float) 1000%float None
     = Throw "TypeError"
  /\ (exists pA vA pB vB : Vector2.t float,
        DegenerateScene.resolve (DegenerateScene.crate 0 0 1) (DegenerateScene.crate 24 1 2)
        = Some (pA, vA, pB, vB)
        /\ DegenerateScene.allNaN vA = true /\ DegenerateScene.allNaN vB = true)
  /\ (exists pA vA pB vB : Vector2.t float,
        DegenerateScene.resolve (DegenerateScene.crate 0 0 1) (DegenerateScene.crate 24 0 2)
        = Some (pA, vA, pB, vB)
        /\ DegenerateScene.allNaN pA = true /\ DegenerateScene.allNaN pB = true
        /\ DegenerateScene.allNaN vA = true /\ DegenerateScene.allNaN vB = true).
Proof.
  split; [vm_compute; reflexivity |].
  split.
  { eexists. split; [vm_compute; reflexivity |]. split; vm_compute; reflexivity. }
  split; [vm_compute; reflexivity |].
  split.
  { do 4 eexists. split; [vm_compute; reflexivity |]. split; vm_compute; reflexivity. }
  do 4 eexists. split; [vm_compute; reflexivity |].
  repeat split; vm_compute; reflexivity.
Qed.

(** With ordinary inputs the same functions behave: a ray along x from
    the left of the box hits it at distance 16, and two resting crates of
    mass 1 keep finite velocities. *)
Example raycastAABB_ordinary_hit :
  match Physics.raycastAABB
          (Ray.mk (Vector2.mk (-16)%float 16%float)
                  (Vector2.normalized (Vector2.mk 1%float 0%float)) 1000%float)
          DegenerateScene.box with
  | Some found => PrimFloat.eqb (Physics.hitDistance found) 16%float
  | None => false
  end = true.
Proof. vm_compute. reflexivity. Qed.

(* ================================================================= *)
(** ** Player.takeDamage *)

(** C8, as stated, fails: the wounded player (10 health) struck for 20 by
    an enemy is not blocked, yet its health afterwards is 100, not
    [10 - 20], and it has no knockback velocity: the blow was lethal and the
    player respawned. *)
Lemma lethal_damage_restores_health :
  let '(result, p', _) :=
    Player.takeDamage None DamageScene.woundedPlayer 20 (Some DamageScene.attacker) in
  DamageScene.blocked DamageScene.woundedPlayer = false
  /\ result = true
  /\ Player.health p' == 100
  /\ ~ Player.health p' == Player.health DamageScene.woundedPlayer - 20
  /\ GameObject.velocity (Player.base p') = Vector2.mk 0 0.
Proof.
  cbv beta iota. vm_compute. repeat split; discriminate.
Qed.

(** C8, amended.  While the invulnerability timer is positive, or an
    enabled shield is active, [takeDamage] returns [false] and changes
    nothing.  Otherwise it returns [true], and
    - if the health left, [health - amount], is above zero: health has gone
      down by [amount], the invulnerability timer is set to the
      invulnerability duration, and, when a source is given, the velocity
      has received the impulse of 200 away from the source (no knockback
      without a source);
    - if the health left is zero or less, the player dies: a life is lost
      and, while lives remain, the player respawns with full health, twice
      the invulnerability duration and zero velocity. *)
Theorem takeDamage_blocked_or_applied :
  forall (num : Type) (N : JSNumber num) (checkpoint : option (Vector2.t num))
         (p : Player.t num) (amount : num) (source : option (GameObject.t num)),
    let '(result, p', effects) := Player.takeDamage checkpoint p amount source in
    (DamageScene.blocked p = true -> result = false /\ p' = p /\ effects = [])
    /\ (DamageScene.blocked p = false ->
        result = true
        /\ (nleb (nsub (Player.health p) amount) (lit 0) = false ->
            Player.health p' = nsub (Player.health p) amount
            /\ Player.invulnerabilityTime p' = Player.invulnerabilityDuration p
            /\ Player.base p' =
               match source with
               | Some src => DamageScene.knockedBack (Player.base p) src
               | None => Player.base p
               end
            /\ Player.lives p' = Player.lives p
            /\ effects = [Player.PlaySound "hurt"])
        /\ (nleb (nsub (Player.health p) amount) (lit 0) = true ->
            Player.lives p' = nsub (Player.lives p) (lit 1)
            /\ if nltb (lit 0) (nsub (Player.lives p) (lit 1))
               then Player.health p' = Player.maxHealth p
                    /\ Player.invulnerabilityTime p'
                       = nmul (Player.invulnerabilityDuration p) (lit 2)
                    /\ GameObject.velocity (Player.base p') = Vector2.mk (lit 0) (lit 0)
               else Player.health p' = nsub (Player.health p) amount
                    /\ Player.invulnerabilityTime p' = Player.invulnerabilityDuration p
                    /\ In Player.GameOver effects)).
Proof.
  intros num N checkpoint p amount source.
  unfold Player.takeDamage, DamageScene.blocked.
  destruct (nltb (lit 0) (Player.invulnerabilityTime p)) eqn:Htimer.
  { cbn. split; [auto | discriminate]. }
  destruct (Player.hasAbility p "shield"
            && match Player.getAbility p "shield" with
               | Some shield => Player.abilityActive shield
               | None => false
               end) eqn:Hshield.
  { cbn. split; [auto | discriminate]. }
  cbn [orb].
  destruct source as [src |]; cbn [Player.health Player.set_base Player.set_health
    Player.set_invulnerabilityTime Player.invulnerabilityDuration Player.base];
    destruct (nleb (nsub (Player.health p) amount) (lit 0)) eqn:Hlethal.
  all: unfold Player.die, Player.respawn;
    cbn [Player.lives Player.set_lives Player.set_base Player.set_health
         Player.set_invulnerabilityTime Player.invulnerabilityDuration Player.base
         Player.health Player.maxHealth Player.invulnerabilityTime];
    try destruct (nltb (lit 0) (nsub (Player.lives p) (lit 1))) eqn:Hlives;
    try destruct checkpoint as [position |];
    cbn; split; try discriminate; intros _; repeat split; try discriminate;
    try (intros _; repeat split; auto); auto.
Qed.

(** A blow that is not lethal: health goes down by the amount and the
    player is pushed away from the attacker, to the right. *)
Example damage_with_knockback :
  let '(result, p', _) :=
    Player.takeDamage None (Player.new 100 100 1) 20 (Some DamageScene.attacker) in
  result = true
  /\ Player.health p' == 80
  /\ Vector2.x (GameObject.velocity (Player.base p')) == 200
  /\ Vector2.y (GameObject.velocity (Player.base p')) == 0.
Proof. vm_compute. repeat split; reflexivity. Qed.

(** A blow during the invulnerability window is refused. *)
Example damage_while_invulnerable :
  let p := Player.set_invulnerabilityTime (Player.new 100 100 1) 0.5 in
  Player.takeDamage None p 20 (Some DamageScene.attacker) = (false, p, []).
Proof. reflexivity. Qed.

(* ================================================================= *)
(** ** Enemy.updatePatrol *)

(** C9, as stated, fails: 10 units from its start, far from the patrol
    distance of 100, the enemy turns round (its horizontal velocity goes
    from 50 to -50) because its state timer has passed 3 seconds. *)
Lemma patrol_turns_before_distance :
  Enemy.aiState PatrolScene.lateEnemy = Enemy.patrol
  /\ Enemy.patrolDistance PatrolScene.lateEnemy == 100
  /\ PatrolScene.distanceFromStart PatrolScene.lateEnemy == 10
  /\ PatrolScene.velocityX PatrolScene.lateEnemy == 50
  /\ PatrolScene.velocityX (Enemy.updatePatrol PatrolScene.lateEnemy (1 # 60)) == -50.
Proof. repeat split; reflexivity. Qed.

(** C9, amended.  [updatePatrol] turns the enemy round (negates
    [direction] and resets [stateTimer]) exactly when, at the time of the
    call, the horizontal distance from [startPosition.x] has reached
    [patrolDistance] or [stateTimer] exceeds 3; in every case the
    horizontal velocity becomes [direction * speed * 0.5]. *)
Theorem patrol_turns_on_distance_or_timeout :
  forall (e : Enemy.t Q) (dt : Q),
    let e' := Enemy.updatePatrol e dt in
    (Enemy.patrolDistance e <= PatrolScene.distanceFromStart e \/ 3 < Enemy.stateTimer e ->
       Enemy.direction e' == - Enemy.direction e /\ Enemy.stateTimer e' = 0)
    /\ (PatrolScene.distanceFromStart e < Enemy.patrolDistance e /\ Enemy.stateTimer e <= 3 ->
       Enemy.direction e' = Enemy.direction e /\ Enemy.stateTimer e' = Enemy.stateTimer e)
    /\ PatrolScene.velocityX e' = Enemy.direction e' * Enemy.speed e * 0.5.
Proof.
  intros e dt.
  unfold PatrolScene.distanceFromStart, PatrolScene.velocityX, Enemy.updatePatrol.
  cbn [Enemy.direction Enemy.stateTimer Enemy.base Enemy.speed GameObject.velocity
       GameObject.set_velocity Vector2.x nabs nleb nltb nsub nmul nneg lit QNumber].
  set (d := Qabs _).
  split; [| split].
  - intros Hturn.
    assert (Hb : Qle_bool (Enemy.patrolDistance e) d || ExactNum.ltb 3 (Enemy.stateTimer e) = true).
    { apply orb_true_iff. destruct Hturn as [H | H].
      - left. apply Qle_bool_iff. exact H.
      - right. apply ExactFacts.ltb_true_iff. exact H. }
    rewrite Hb. split; [ring | reflexivity].
  - intros [Hd Ht].
    assert (Hb : Qle_bool (Enemy.patrolDistance e) d || ExactNum.ltb 3 (Enemy.stateTimer e) = false).
    { apply orb_false_iff. split.
      - apply ExactFacts.leb_false_iff. exact Hd.
      - apply ExactFacts.ltb_false_iff. exact Ht. }
    rewrite Hb. split; reflexivity.
  - reflexivity.
Qed.

(* ================================================================= *)
(** ** Player.heal *)

(** C10.  For every non-negative amount, [heal] sets [health] to
    [min(maxHealth, health + amount)] and changes nothing else of the
    player; hence [health <= maxHealth] holds afterwards, and healing a
    player at full health leaves [health] as it was. *)
Theorem heal_caps_health_at_max :
  forall (p : Player.t Q) (amount : Q),
    0 <= amount ->
    let p' := fst (Player.heal p amount) in
    Player.health p' = Qmin (Player.maxHealth p) (Player.health p + amount)
    /\ Player.maxHealth p' = Player.maxHealth p
    /\ Player.health p' <= Player.maxHealth p'
    /\ (Player.health p = Player.maxHealth p -> Player.health p' = Player.health p).
Proof.
  intros p amount Hamount. cbn.
  repeat split.
  - apply Q.le_min_l.
  - intro Hfull. rewrite Hfull. apply ExactFacts.min_first. lra.
Qed.

(** A fresh player (health 100 of 100) picking up a 25-point health
    power-up. *)
Lemma heal_caps_health_at_max_witness :
  0 <= 25
  /\ Player.health (fst (Player.heal (Player.new 0 0 1) 25)) = 100.
Proof.
  split.
  - discriminate.
  - destruct (heal_caps_health_at_max (Player.new 0 0 1) (amount := 25)) as (_ & _ & _ & Hfull).
    + discriminate.
    + exact (Hfull eq_refl).
Defined.

(** A wounded player is healed by the amount, as long as the cap is not
    reached. *)
Example heal_wounded_player :
  Player.health (fst (Player.heal (Player.set_health (Player.new 0 0 1) 40) 25)) == 65.
Proof. reflexivity. Qed.


(* ================================================================= *)
(** ** Further properties: Vector2 *)

(** X1.  Reflecting a vector twice in the same unit normal gives the
    vector back, and a reflection in a unit normal keeps the length. *)
Theorem reflect_twice_restores :
  forall v n : Vector2.t Q,
    Vector2.dot n n == 1 ->
    Geometry.sameVector (Vector2.reflect (Vector2.reflect v n) n) v
    /\ Vector2.magnitudeSquared (Vector2.reflect v n) == Vector2.magnitudeSquared v.
Proof.
  intros [vx vy] [nx ny] Hn.
  unfold Geometry.sameVector, Vector2.reflect, Vector2.magnitudeSquared, Vector2.dot,
    Vector2.subtract, Vector2.multiply in *.
  cbn in *.
  set (d := vx * nx + vy * ny) in *.
  assert (Hx : forall k : Q, k * (nx * nx + ny * ny) == k) by (intro k; rewrite Hn; ring).
  repeat split.
  - transitivity (vx - 4 * (d * nx) + 4 * (d * nx) * (nx * nx + ny * ny)).
    + unfold d; ring.
    + rewrite Hx. ring.
  - transitivity (vy - 4 * (d * ny) + 4 * (d * ny) * (nx * nx + ny * ny)).
    + unfold d; ring.
    + rewrite Hx. ring.
  - transitivity (vx * vx + vy * vy - 4 * (d * d) + 4 * (d * d) * (nx * nx + ny * ny)).
    + unfold d; ring.
    + rewrite Hx. ring.
Qed.

(** The velocity (3, 4) on the slope of normal (3/5, 4/5). *)
Lemma reflect_twice_restores_witness :
  Vector2.dot Samples.slope Samples.slope == 1
  /\ Geometry.sameVector
       (Vector2.reflect (Vector2.reflect Samples.incoming Samples.slope) Samples.slope)
       Samples.incoming.
Proof.
  split.
  - reflexivity.
  - apply (@reflect_twice_restores Samples.incoming Samples.slope). reflexivity.
Defined.

(** X2.  When the lower corner is not beyond the upper one in either
    coordinate, [clamp] returns a point of the box, and it returns a point
    of the box unchanged. *)
Theorem clamp_stays_within :
  forall a lo hi : Vector2.t Q,
    Vector2.x lo <= Vector2.x hi -> Vector2.y lo <= Vector2.y hi ->
    let c := Vector2.clamp a lo hi in
    (Vector2.x lo <= Vector2.x c <= Vector2.x hi
     /\ Vector2.y lo <= Vector2.y c <= Vector2.y hi)
    /\ (Vector2.x lo <= Vector2.x a <= Vector2.x hi ->
        Vector2.y lo <= Vector2.y a <= Vector2.y hi ->
        Geometry.sameVector c a).
Proof.
  intros [ax ay] [lx ly] [hx hy]. cbn. intros Hx Hy.
  unfold Geometry.sameVector. cbn.
  repeat split.
  - apply Q.le_max_l.
  - apply Q.max_lub; [exact Hx | apply Q.le_min_l].
  - apply Q.le_max_l.
  - apply Q.max_lub; [exact Hy | apply Q.le_min_l].
  - destruct H as [H1 H2]. rewrite (Q.min_r _ _ H2). apply Q.max_r. exact H1.
  - destruct H0 as [H1 H2]. rewrite (Q.min_r _ _ H2). apply Q.max_r. exact H1.
Qed.

(** (5, -3) clamped into the square from (0, 0) to (2, 2). *)
Lemma clamp_stays_within_witness :
  Vector2.clamp (Vector2.mk 5 (-3)) Samples.diagA Samples.diagB = Vector2.mk 2 0
  /\ 0 <= Vector2.x (Vector2.clamp (Vector2.mk 5 (-3)) Samples.diagA Samples.diagB) <= 2.
Proof.
  split.
  - reflexivity.
  - apply (@clamp_stays_within (Vector2.mk 5 (-3)) Samples.diagA Samples.diagB);
      discriminate.
Defined.

(** X3.  [lerp] starts at the first point, ends at the second, and at [t]
    it is at [t] times the distance from the first and at [1 - t] times the
    distance from the second (as squared distances), for every [t], also
    outside [0, 1]: the parameter is not clamped. *)
Theorem lerp_walks_the_segment :
  forall (a b : Vector2.t Q) (t : Q),
    Geometry.sameVector (Vector2.lerp a b 0) a
    /\ Geometry.sameVector (Vector2.lerp a b 1) b
    /\ Vector2.distanceSquared a (Vector2.lerp a b t)
       == t * t * Vector2.distanceSquared a b
    /\ Vector2.distanceSquared (Vector2.lerp a b t) b
       == (1 - t) * (1 - t) * Vector2.distanceSquared a b.
Proof.
  intros [ax ay] [bx by_] t. unfold Geometry.sameVector, Vector2.lerp, Vector2.distanceSquared.
  cbn. repeat split; ring.
Qed.

(** X4.  [perpendicular] is a quarter turn: the result is orthogonal to the
    vector and as long as the vector, [cross] of the vector and the result
    is the squared length, and turning twice gives the opposite vector. *)
Theorem perpendicular_is_quarter_turn :
  forall v : Vector2.t Q,
    Vector2.dot v (Vector2.perpendicular v) == 0
    /\ Vector2.magnitudeSquared (Vector2.perpendicular v) == Vector2.magnitudeSquared v
    /\ Vector2.cross v (Vector2.perpendicular v) == Vector2.magnitudeSquared v
    /\ Geometry.sameVector (Vector2.perpendicular (Vector2.perpendicular v))
         (Vector2.multiply v (-1)).
Proof.
  intros [vx vy]. unfold Geometry.sameVector, Vector2.dot, Vector2.perpendicular,
    Vector2.magnitudeSquared, Vector2.cross, Vector2.multiply. cbn.
  repeat split; ring.
Qed.

(** X5.  [equals] compares each coordinate with a strict tolerance.  It
    holds between a vector and itself exactly when the tolerance is
    positive, it is symmetric, and it bounds the squared distance by twice
    the squared tolerance; it is not transitive, as three points 0.00006
    apart show at the default tolerance. *)
Theorem equals_is_a_tolerance :
  forall (a b : Vector2.t Q) (tolerance : Q),
    (0 < tolerance -> Vector2.equals a a tolerance = true)
    /\ Vector2.equals a b tolerance = Vector2.equals b a tolerance
    /\ (Vector2.equals a b tolerance = true ->
        Vector2.distanceSquared a b < 2 * tolerance * tolerance)
    /\ (let p := Vector2.mk 0 0 in
        let q := Vector2.mk (6 # 100000) 0 in
        let r := Vector2.mk (12 # 100000) 0 in
        Vector2.equals p q Vector2.defaultTolerance = true
        /\ Vector2.equals q r Vector2.defaultTolerance = true
        /\ Vector2.equals p r Vector2.defaultTolerance = false).
Proof.
  intros [ax ay] [bx by_] tol. unfold Vector2.equals.
  cbn -[Qminus Qabs Qmult Qplus Qlt].
  repeat split.
  - intros Ht. rewrite andb_true_iff. split; apply ExactFacts.ltb_true_iff.
    + setoid_replace (ax - ax) with 0 by ring. exact Ht.
    + setoid_replace (ay - ay) with 0 by ring. exact Ht.
  - rewrite (Qabs_Qminus ax bx), (Qabs_Qminus ay by_). reflexivity.
  - rewrite andb_true_iff. intros [Hx Hy].
    apply ExactFacts.ltb_true_iff in Hx, Hy.
    unfold Vector2.distanceSquared. cbn.
    assert (Ht : 0 < tol) by (eapply Qle_lt_trans; [apply Qabs_nonneg | exact Hx]).
    assert (Hsq : forall d : Q, Qabs d < tol -> d * d < tol * tol).
    { intros d Hd. apply Qabs_Qlt_condition in Hd. destruct Hd as [Hlo Hhi]. nra. }
    pose proof (Hsq _ Hx). pose proof (Hsq _ Hy). lra.
Qed.

(* ================================================================= *)
(** ** Further properties: GameObject *)

Module CompareFacts.

Lemma leb_true_iff (a b : Q) : Qle_bool a b = true <-> a <= b.
Proof. apply Qle_bool_iff. Qed.

Lemma leb_negb_ltb (a b : Q) : Qle_bool a b = negb (ExactNum.ltb b a).
Proof.
  destruct (ExactNum.ltb b a) eqn:E; cbn.
  - apply ExactFacts.ltb_true_iff in E. apply ExactFacts.leb_false_iff. exact E.
  - apply ExactFacts.ltb_false_iff in E. apply Qle_bool_iff. exact E.
Qed.

End CompareFacts.

(** X6.  In exact arithmetic the four overlap tests of the code agree on
    every two objects: [GameObject.overlaps], the narrow phase of
    [Physics], the area test of [World] and
    [CollisionDetection.rectOverlap] on the two boxes; the test is
    symmetric; and boxes that only touch, the right edge of one on the left
    edge of the other or the bottom of one on the top of the other, do not
    overlap.  In binary64 the tests part on a NaN: of a box whose x is NaN
    and the box (0, 0, 32, 32), [overlaps] and [rectOverlap] say that they
    do not overlap, the narrow phase returns a record and [boundsOverlap]
    says that they overlap, in either order. *)
Theorem overlap_tests_agree :
  (forall a b : GameObject.t Q,
     GameObject.overlaps a b
     = Physics.isSome (Physics.checkAABBCollision a b)
     /\ GameObject.overlaps a b
        = World.boundsOverlap (GameObject.getBounds a) (GameObject.getBounds b)
     /\ GameObject.overlaps a b
        = CollisionDetection.rectOverlap (GameObject.getBounds a) (GameObject.getBounds b)
     /\ GameObject.overlaps a b = GameObject.overlaps b a
     /\ (Bounds.x (GameObject.getBounds a) + Bounds.width (GameObject.getBounds a)
         == Bounds.x (GameObject.getBounds b) ->
         GameObject.overlaps a b = false)
     /\ (Bounds.y (GameObject.getBounds a) + Bounds.height (GameObject.getBounds a)
         == Bounds.y (GameObject.getBounds b) ->
         GameObject.overlaps a b = false))
  /\ (forall a b : GameObject.t float,
        (a = DegenerateScene.adrift /\ b = DegenerateScene.box)
        \/ (a = DegenerateScene.box /\ b = DegenerateScene.adrift) ->
        GameObject.overlaps a b = false
        /\ Physics.isSome (Physics.checkAABBCollision a b) = true
        /\ World.boundsOverlap (GameObject.getBounds a) (GameObject.getBounds b) = true
        /\ CollisionDetection.rectOverlap (GameObject.getBounds a) (GameObject.getBounds b)
           = false).
Proof.
  split.
  - intros a b.
    unfold GameObject.overlaps, Physics.checkAABBCollision, World.boundsOverlap,
      CollisionDetection.rectOverlap.
    destruct (GameObject.getBounds a) as [ax ay aw ah].
    destruct (GameObject.getBounds b) as [bx by_ bw bh].
    cbn [Bounds.x Bounds.y Bounds.width Bounds.height nltb nleb QNumber nadd].
    rewrite !CompareFacts.leb_negb_ltb.
    assert (Htouch : forall p q : Q, p == q -> ExactNum.ltb q p = false).
    { intros p q Hpq. apply ExactFacts.ltb_false_iff. rewrite Hpq. apply Qle_refl. }
    split; [| split; [| split; [| split; [| split]]]].
    + destruct (ExactNum.ltb ax (bx + bw)), (ExactNum.ltb bx (ax + aw)),
        (ExactNum.ltb ay (by_ + bh)), (ExactNum.ltb by_ (ay + ah)); cbn;
        try reflexivity;
        match goal with |- context [if ?c then _ else _] => destruct c; reflexivity end.
    + destruct (ExactNum.ltb ax (bx + bw)), (ExactNum.ltb bx (ax + aw)),
        (ExactNum.ltb ay (by_ + bh)), (ExactNum.ltb by_ (ay + ah)); reflexivity.
    + destruct (ExactNum.ltb ax (bx + bw)), (ExactNum.ltb bx (ax + aw)),
        (ExactNum.ltb ay (by_ + bh)), (ExactNum.ltb by_ (ay + ah)); reflexivity.
    + destruct (ExactNum.ltb ax (bx + bw)), (ExactNum.ltb bx (ax + aw)),
        (ExactNum.ltb ay (by_ + bh)), (ExactNum.ltb by_ (ay + ah)); reflexivity.
    + intros Hedge. rewrite (Htouch _ _ Hedge).
      destruct (ExactNum.ltb ax (bx + bw)); reflexivity.
    + intros Hedge. rewrite (Htouch _ _ Hedge).
      destruct (ExactNum.ltb ax (bx + bw)), (ExactNum.ltb bx (ax + aw)),
        (ExactNum.ltb ay (by_ + bh)); reflexivity.
  - intros a b [[-> ->] | [-> ->]]; vm_compute; repeat split.
Qed.

(** A crate and a box that starts on its right edge. *)
Lemma overlap_tests_agree_witness :
  GameObject.overlaps CorrectionScene.crateA (GameObject.new 32 0 32 32 9) = false
  /\ GameObject.overlaps (GameObject.new 32 0 32 32 9) CorrectionScene.crateA = false.
Proof.
  destruct (proj1 overlap_tests_agree CorrectionScene.crateA (GameObject.new 32 0 32 32 9))
    as (_ & _ & _ & Hsym & Hright & _).
  assert (Htouch : GameObject.overlaps CorrectionScene.crateA (GameObject.new 32 0 32 32 9)
                   = false) by (apply Hright; reflexivity).
  split; [exact Htouch |]. rewrite <- Hsym. exact Htouch.
Defined.

(** X7.  For two boxes of positive width and height that overlap, the
    record of the narrow phase has a positive penetration, a normal that is
    one of the four axis directions, and a contact point inside both boxes.
    Swapping the two objects gives the same penetration and point, and the
    opposite normal when the boxes start at different x and different
    y. *)
Theorem narrow_phase_record :
  forall (a b : GameObject.t Q) (c : Physics.Collision Q),
    Geometry.properBox (GameObject.getBounds a) ->
    Geometry.properBox (GameObject.getBounds b) ->
    Physics.checkAABBCollision a b = Some c ->
    0 < Physics.penetration c
    /\ Geometry.axisUnit (Physics.normal c)
    /\ Geometry.inBox (Physics.point c) (GameObject.getBounds a)
    /\ Geometry.inBox (Physics.point c) (GameObject.getBounds b)
    /\ exists c' : Physics.Collision Q,
         Physics.checkAABBCollision b a = Some c'
         /\ Physics.penetration c' == Physics.penetration c
         /\ Geometry.sameVector (Physics.point c') (Physics.point c)
         /\ (~ Bounds.x (GameObject.getBounds a) == Bounds.x (GameObject.getBounds b) ->
             ~ Bounds.y (GameObject.getBounds a) == Bounds.y (GameObject.getBounds b) ->
             Geometry.sameVector (Physics.normal c')
               (Vector2.multiply (Physics.normal c) (-1))).
Proof.
  intros a b c.
  unfold Physics.checkAABBCollision, Geometry.inBox, Geometry.sameVector,
    Geometry.properBox.
  destruct (GameObject.getBounds a) as [ax ay aw ah].
  destruct (GameObject.getBounds b) as [bx by_ bw bh].
  cbn [Bounds.x Bounds.y Bounds.width Bounds.height nltb nleb QNumber nadd nsub nmin nmax
       ndiv lit nneg].
  intros [Haw Hah] [Hbw Hbh].
  rewrite !CompareFacts.leb_negb_ltb.
  destruct (ExactNum.ltb bx (ax + aw)) eqn:E1; [| cbn; discriminate].
  destruct (ExactNum.ltb ax (bx + bw)) eqn:E2; [| cbn; discriminate].
  destruct (ExactNum.ltb by_ (ay + ah)) eqn:E3; [| cbn; discriminate].
  destruct (ExactNum.ltb ay (by_ + bh)) eqn:E4; [| cbn; discriminate].
  cbn [negb orb].
  apply ExactFacts.ltb_true_iff in E1, E2, E3, E4.
  assert (HX : Qmin (bx + bw) (ax + aw) == Qmin (ax + aw) (bx + bw)) by apply Q.min_comm.
  assert (HY : Qmin (by_ + bh) (ay + ah) == Qmin (ay + ah) (by_ + bh)) by apply Q.min_comm.
  assert (HX' : Qmax bx ax == Qmax ax bx) by apply Q.max_comm.
  assert (HY' : Qmax by_ ay == Qmax ay by_) by apply Q.max_comm.
  assert (Hswap :
    ExactNum.ltb (Qmin (bx + bw) (ax + aw) - Qmax bx ax)
                 (Qmin (by_ + bh) (ay + ah) - Qmax by_ ay)
    = ExactNum.ltb (Qmin (ax + aw) (bx + bw) - Qmax ax bx)
                   (Qmin (ay + ah) (by_ + bh) - Qmax ay by_)).
  { unfold ExactNum.ltb. rewrite HX, HY, HX', HY'. reflexivity. }
  rewrite Hswap.
  destruct (Q.min_spec (ax + aw) (bx + bw)) as [[? Hm1] | [? Hm1]];
  destruct (Q.max_spec ax bx) as [[? Hm2] | [? Hm2]];
  destruct (Q.min_spec (ay + ah) (by_ + bh)) as [[? Hm3] | [? Hm3]];
  destruct (Q.max_spec ay by_) as [[? Hm4] | [? Hm4]];
  set (mx := Qmin (ax + aw) (bx + bw)) in *;
  set (Mx := Qmax ax bx) in *;
  set (my := Qmin (ay + ah) (by_ + bh)) in *;
  set (My := Qmax ay by_) in *;
  (destruct (ExactNum.ltb (mx - Mx) (my - My)) eqn:E;
   intros Hc; injection Hc as <-;
   cbn [Physics.penetration Physics.normal Physics.point Vector2.x Vector2.y];
   unfold Qdiv; change (/ 2) with (1 # 2);
   (split; [lra |]);
   (split; [unfold Geometry.axisUnit;
            match goal with
            | |- context [if ?t then _ else _] => destruct t; auto
            end |]);
   (split; [repeat split; lra |]);
   (split; [repeat split; lra |]);
   eexists; (split; [reflexivity |]);
   cbn [Physics.penetration Physics.normal Physics.point Vector2.x Vector2.y];
   unfold Qdiv; change (/ 2) with (1 # 2);
   (split; [lra |]); (split; [split; lra |]);
   intros Hnx Hny;
   match goal with
   | |- context [if ExactNum.ltb ?p ?q then _ else _] =>
       destruct (ExactNum.ltb p q) eqn:Ea; destruct (ExactNum.ltb q p) eqn:Eb;
       try apply ExactFacts.ltb_true_iff in Ea; try apply ExactFacts.ltb_true_iff in Eb;
       try apply ExactFacts.ltb_false_iff in Ea; try apply ExactFacts.ltb_false_iff in Eb
   end;
   try (exfalso; lra);
   try (exfalso; apply Hnx; lra); try (exfalso; apply Hny; lra);
   split; reflexivity).
Qed.

(** The two crates of the correction scene. *)
Lemma narrow_phase_record_witness :
  exists c : Physics.Collision Q,
    Physics.checkAABBCollision (num := Q) CorrectionScene.crateA CorrectionScene.crateB = Some c
    /\ 0 < Physics.penetration c
    /\ Geometry.axisUnit (Physics.normal c).
Proof.
  destruct (Physics.checkAABBCollision (num := Q) CorrectionScene.crateA CorrectionScene.crateB)
    as [c |] eqn:E; [| vm_compute in E; discriminate].
  exists c. split; [reflexivity |].
  destruct (@narrow_phase_record CorrectionScene.crateA CorrectionScene.crateB c)
    as (Hpen & Hnormal & _).
  - split; reflexivity.
  - split; reflexivity.
  - exact E.
  - split; assumption.
Defined.

Module TagFacts.

Section Facts.
Context {num : Type} {N : JSNumber num}.

Lemma hasTag_In (o : GameObject.t num) (tag : string) :
  GameObject.hasTag o tag = true <-> In tag (GameObject.tags o).
Proof.
  unfold GameObject.hasTag. rewrite existsb_exists. split.
  - intros (x & Hin & Heq). apply String.eqb_eq in Heq. subst x. exact Hin.
  - intros Hin. exists tag. split; [exact Hin | apply String.eqb_refl].
Qed.

Lemma hasTag_eq_iff (o o' : GameObject.t num) (tag : string) :
  (In tag (GameObject.tags o) <-> In tag (GameObject.tags o')) ->
  GameObject.hasTag o tag = GameObject.hasTag o' tag.
Proof.
  intros H. destruct (GameObject.hasTag o tag) eqn:E1, (GameObject.hasTag o' tag) eqn:E2;
    try reflexivity.
  - apply hasTag_In, H, hasTag_In in E1. congruence.
  - apply hasTag_In, H, hasTag_In in E2. congruence.
Qed.

End Facts.

End TagFacts.

(** X8.  The tags of an object behave as a set: after [addTag] the tag is
    there, after [removeTag] it is not, neither touches another tag, adding
    a tag twice is adding it once, and [addTag] never makes a
    duplicate. *)
Theorem tags_behave_as_a_set :
  forall (num : Type) (N : JSNumber num)
         (o : GameObject.t num) (tag other : string),
    GameObject.hasTag (GameObject.addTag o tag) tag = true
    /\ GameObject.hasTag (GameObject.removeTag o tag) tag = false
    /\ (other <> tag ->
        GameObject.hasTag (GameObject.addTag o tag) other = GameObject.hasTag o other
        /\ GameObject.hasTag (GameObject.removeTag o tag) other = GameObject.hasTag o other)
    /\ GameObject.addTag (GameObject.addTag o tag) tag = GameObject.addTag o tag
    /\ (NoDup (GameObject.tags o) -> NoDup (GameObject.tags (GameObject.addTag o tag))).
Proof.
  intros num N o tag other.
  assert (Hadd : GameObject.hasTag (GameObject.addTag o tag) tag = true).
  { unfold GameObject.addTag. destruct (GameObject.hasTag o tag) eqn:E; [exact E |].
    apply TagFacts.hasTag_In. cbn. apply in_or_app. right. left. reflexivity. }
  split; [exact Hadd |]. split; [| split; [| split]].
  - apply not_true_iff_false. intros H. apply TagFacts.hasTag_In in H. cbn in H.
    apply filter_In in H. destruct H as [_ H]. rewrite String.eqb_refl in H. discriminate.
  - intros Hne. split; apply TagFacts.hasTag_eq_iff.
    + unfold GameObject.addTag. destruct (GameObject.hasTag o tag); [tauto |]. cbn.
      rewrite in_app_iff. cbn. intuition congruence.
    + cbn. rewrite filter_In. split; [tauto |]. intros H. split; [exact H |].
      apply negb_true_iff. apply String.eqb_neq. congruence.
  - unfold GameObject.addTag at 1. rewrite Hadd. reflexivity.
  - intros Hnd. unfold GameObject.addTag. destruct (GameObject.hasTag o tag) eqn:E; [exact Hnd |].
    cbn. apply NoDup_app; [exact Hnd | repeat constructor; intros [] | ].
    intros x Hx [<- | []]. apply TagFacts.hasTag_In in Hx. congruence.
Qed.

(** X9.  While a known animation plays and the frame counter points into
    its clip, [updateAnimation] keeps the counter in the clip, keeps the
    animation and the table, and leaves a clip that does not loop on its
    last frame. *)
Theorem animation_frame_stays_in_range :
  forall (num : Type) (N : JSNumber num) (a : Animation.t num) (deltaTime : num)
         (name : string) (clip : Animation.Clip num),
    Animation.currentAnimation a = Some name ->
    Animation.get (Animation.animations a) name = Some clip ->
    Playback.inRange a clip ->
    let a' := fst (Animation.updateAnimation a deltaTime) in
    Playback.inRange a' clip
    /\ Animation.currentAnimation a' = Some name
    /\ Animation.animations a' = Animation.animations a
    /\ (Animation.loop clip = false ->
        Animation.currentFrame a = (Z.of_nat (List.length (Animation.frames clip)) - 1)%Z ->
        Animation.currentFrame a' = Animation.currentFrame a).
Proof.
  intros num N a deltaTime name clip Hname Hclip Hrange.
  unfold Playback.inRange in *.
  unfold Animation.updateAnimation. rewrite Hname.
  destruct (String.eqb name "") eqn:Eempty;
    [cbn; repeat split; solve [lia | exact Hname | reflexivity | tauto] |].
  rewrite Hclip.
  destruct (nleb (Animation.animationSpeed a) (nadd (Animation.frameTime a) deltaTime));
    [| cbn; repeat split; solve [lia | exact Hname | reflexivity | tauto]].
  destruct (Z.geb_spec (Animation.currentFrame a + 1)
              (Z.of_nat (List.length (Animation.frames clip)))) as [Hge | Hlt];
    [destruct (Animation.loop clip) eqn:Eloop |];
    cbn; repeat split; intros;
    solve [lia | exact Hname | reflexivity | discriminate | tauto].
Qed.

(** A looping clip of three frames, 120 ms after its start. *)
Lemma animation_frame_stays_in_range_witness :
  Playback.inRange (fst (Animation.updateAnimation Samples.walking 120)) Samples.walkClip
  /\ Animation.currentFrame (fst (Animation.updateAnimation Samples.walking 120)) = 1%Z.
Proof.
  split.
  - apply (@animation_frame_stays_in_range Q _ Samples.walking 120 "walk" Samples.walkClip).
    + reflexivity.
    + reflexivity.
    + unfold Playback.inRange. cbn. lia.
  - reflexivity.
Defined.

(* ================================================================= *)
(** ** Further properties: Physics *)

Module ProbeFacts.

Section Facts.
Context {num : Type} {N : JSNumber num} {F : JSFloor num}.

Lemma raycast_cases (this : Physics.t num) (h : Heap num) (origin direction : Vector2.t num)
  (maxDistance : num) (layerMask : option (list string)) :
  Physics.raycast this h origin direction maxDistance layerMask
  = if nltb (lit 0) maxDistance then Throw "TypeError" else Normal [].
Proof.
  unfold Physics.raycast, SpatialGrid.getObjectsInRay. cbn [Ray.maxDistance].
  destruct (nltb (lit 0) maxDistance); reflexivity.
Qed.

End Facts.

End ProbeFacts.

(** X10.  No ray probe ever reports a hit.  [raycast] with a positive
    distance throws the TypeError of [getObjectsInRay], and with any other
    distance it returns no hit; [isGrounded] and [isTouchingWall], which
    cast such a ray, throw or answer [false] in the same way, whatever the
    objects of the world. *)
Theorem ray_probes_never_hit :
  forall (num : Type) (N : JSNumber num) (F : JSFloor num)
         (this : Physics.t num) (h : Heap num) (obj : GameObject.t num)
         (origin direction : Vector2.t num) (distance : num)
         (layerMask : option (list string)),
    let thrown := nltb (lit 0) distance in
    Physics.raycast this h origin direction distance layerMask
    = (if thrown then Throw "TypeError" else Normal [])
    /\ Physics.isGrounded this h obj distance
       = (if thrown then Throw "TypeError" else Normal false)
    /\ Physics.isTouchingWall this h obj direction distance
       = (if thrown then Throw "TypeError" else Normal false).
Proof.
  intros num N F this h obj origin direction distance layerMask thrown.
  unfold Physics.isGrounded, Physics.isTouchingWall.
  rewrite !ProbeFacts.raycast_cases. subst thrown.
  destruct (nltb (lit 0) distance); repeat split; reflexivity.
Qed.

Module MatrixFacts.

Lemma find_setLayerCollision (m : list (string * list string)) (layer1 layer : string)
  (layers : list string) :
  find (fun entry => String.eqb (fst entry) layer) (Physics.setLayerCollision m layer1 layers)
  = if String.eqb layer1 layer
    then Some (match find (fun entry => String.eqb (fst entry) layer) m with
               | Some entry => (fst entry, layers)
               | None => (layer1, layers)
               end)
    else find (fun entry => String.eqb (fst entry) layer) m.
Proof.
  induction m as [| [k v] rest IH]; cbn.
  - destruct (String.eqb layer1 layer); reflexivity.
  - destruct (String.eqb k layer1) eqn:E1; cbn.
    + apply String.eqb_eq in E1. subst k.
      destruct (String.eqb layer1 layer); reflexivity.
    + destruct (String.eqb k layer) eqn:E2.
      * apply String.eqb_eq in E2. subst k.
        rewrite String.eqb_sym in E1. rewrite E1. reflexivity.
      * exact IH.
Qed.

End MatrixFacts.

(** X11.  After [setLayerCollision(layer1, layers)], [canLayersCollide]
    answers for [layer1] whether the second layer is in [layers], and
    answers for every other first layer as before; a layer without an
    entry collides with nothing; and the table that the constructor sets up
    is symmetric. *)
Theorem layer_table_set_then_lookup :
  forall (num : Type) (N : JSNumber num) (F : JSFloor num)
         (this : Physics.t num) (layer1 : string) (layers : list string)
         (layer layer2 : string),
    let this' :=
      LayerTable.withMatrix this (Physics.setLayerCollision (Physics.collisionMatrix this) layer1 layers) in
    Physics.canLayersCollide this' layer1 layer2 = Physics.includes layers layer2
    /\ (layer <> layer1 ->
        Physics.canLayersCollide this' layer layer2
        = Physics.canLayersCollide this layer layer2)
    /\ (Physics.canLayersCollide (LayerTable.withMatrix this []) layer layer2 = false)
    /\ Physics.canLayersCollide Physics.new layer layer2
       = Physics.canLayersCollide Physics.new layer2 layer.
Proof.
  intros num N F this layer1 layers layer layer2 this'.
  unfold Physics.canLayersCollide. subst this'. cbn [LayerTable.withMatrix Physics.collisionMatrix].
  rewrite !MatrixFacts.find_setLayerCollision. rewrite String.eqb_refl.
  repeat split.
  - destruct (find _ _); reflexivity.
  - intros Hne. apply not_eq_sym in Hne. apply String.eqb_neq in Hne. rewrite Hne. reflexivity.
  - cbn [Physics.new Physics.collisionMatrix].
    assert (Hm : Physics.setupDefaultCollisionLayers
                 = [ ("player", ["solid"; "platform"; "enemy"; "pickup"]);
                     ("enemy", ["solid"; "platform"; "player"; "projectile"]);
                     ("projectile", ["solid"; "enemy"]);
                     ("pickup", ["player"]);
                     ("solid", ["player"; "enemy"; "projectile"]);
                     ("platform", ["player"; "enemy"]) ]%string) by reflexivity.
    rewrite Hm. clear Hm.
    unfold Physics.includes.
    repeat (cbn [find fst snd existsb];
            match goal with
            | |- context [String.eqb ?v ?k] => is_var v; rewrite (String.eqb_sym v k)
            | |- context [String.eqb ?k ?v] =>
                is_var v; destruct (String.eqb_spec k v); [subst v |]
            end);
    first [reflexivity | congruence].
Qed.

Module RayFacts.

Lemma slab (b o w dx d : Q) :
  0 <= w -> ~ dx == 0 ->
  Qmin ((b - o) / dx) ((b + w - o) / dx) <= d ->
  d <= Qmax ((b - o) / dx) ((b + w - o) / dx) ->
  b <= o + dx * d <= b + w.
Proof.
  intros Hw Hdx Hlo Hhi.
  assert (Hp : (b - o) / dx * dx == b - o) by (field; exact Hdx).
  assert (Hq : (b + w - o) / dx * dx == b + w - o) by (field; exact Hdx).
  set (p := (b - o) / dx) in *. set (q := (b + w - o) / dx) in *.
  destruct (Q.min_spec p q) as [[? Hm] | [? Hm]];
  destruct (Q.max_spec p q) as [[? HM] | [? HM]];
  rewrite Hm in Hlo; rewrite HM in Hhi;
  destruct (Qlt_le_dec 0 dx) as [Hpos | Hneg];
  try (assert (Hneg' : dx < 0) by (destruct (Qle_lt_or_eq _ _ Hneg); [assumption | contradiction]));
  split; nra.
Qed.

End RayFacts.

(** X12.  When [raycastAABB] reports a hit of a ray that is not parallel
    to an axis on a box of non-negative size, the distance is not
    negative, the hit point lies in the box, and the normal is one of the
    four axis directions. *)
Theorem raycastAABB_hit_is_in_the_box :
  forall (ray : Ray.t Q) (obj : GameObject.t Q) (found : Physics.Hit Q),
    0 <= Bounds.width (GameObject.getBounds obj) ->
    0 <= Bounds.height (GameObject.getBounds obj) ->
    ~ Vector2.x (Ray.direction ray) == 0 ->
    ~ Vector2.y (Ray.direction ray) == 0 ->
    Physics.raycastAABB ray obj = Some found ->
    0 <= Physics.hitDistance found
    /\ Geometry.inBox (Physics.hitPoint found) (GameObject.getBounds obj)
    /\ Geometry.axisUnit (Physics.hitNormal found).
Proof.
  intros [[ox oy] [dx dy] maxDistance] obj found.
  unfold Physics.raycastAABB, Geometry.inBox.
  destruct (GameObject.getBounds obj) as [bx by_ bw bh].
  cbn [Bounds.x Bounds.y Bounds.width Bounds.height Ray.origin Ray.direction Ray.maxDistance
       Vector2.x Vector2.y Vector2.add Vector2.multiply
       nltb nleb QNumber nadd nsub nmul nmin nmax ndiv lit nneg].
  intros Hw Hh Hdx Hdy.
  set (tNear := Qmax (Qmin ((bx - ox) / dx) ((bx + bw - ox) / dx))
                     (Qmin ((by_ - oy) / dy) ((by_ + bh - oy) / dy))).
  set (tFar := Qmin (Qmax ((bx - ox) / dx) ((bx + bw - ox) / dx))
                    (Qmax ((by_ - oy) / dy) ((by_ + bh - oy) / dy))).
  destruct (ExactNum.ltb tFar tNear) eqn:E1; [discriminate |].
  destruct (ExactNum.ltb tFar 0) eqn:E2; [discriminate |].
  destruct (ExactNum.ltb maxDistance tNear) eqn:E3; [discriminate |].
  cbn [orb].
  apply ExactFacts.ltb_false_iff in E1, E2.
  intros Hfound. injection Hfound as <-.
  cbn [Physics.hitDistance Physics.hitPoint Physics.hitNormal Vector2.x Vector2.y].
  set (d := if ExactNum.ltb 0 tNear then tNear else tFar).
  assert (Hd : tNear <= d <= tFar /\ 0 <= d).
  { subst d. destruct (ExactNum.ltb 0 tNear) eqn:E4.
    - apply ExactFacts.ltb_true_iff in E4. repeat split; lra.
    - repeat split; lra. }
  destruct Hd as [[Hlo Hhi] Hnonneg].
  assert (Hx1 : Qmin ((bx - ox) / dx) ((bx + bw - ox) / dx) <= d).
  { eapply Qle_trans; [apply Q.le_max_l | exact Hlo]. }
  assert (Hy1 : Qmin ((by_ - oy) / dy) ((by_ + bh - oy) / dy) <= d).
  { eapply Qle_trans; [apply Q.le_max_r | exact Hlo]. }
  assert (Hx2 : d <= Qmax ((bx - ox) / dx) ((bx + bw - ox) / dx)).
  { eapply Qle_trans; [exact Hhi | apply Q.le_min_l]. }
  assert (Hy2 : d <= Qmax ((by_ - oy) / dy) ((by_ + bh - oy) / dy)).
  { eapply Qle_trans; [exact Hhi | apply Q.le_min_r]. }
  split; [exact Hnonneg |]. split.
  - split; apply RayFacts.slab; assumption.
  - unfold Geometry.axisUnit. clear.
    match goal with |- context [if ?c then Vector2.mk _ 0 else _] => destruct c end;
      [destruct (ExactNum.ltb 0 dx) | destruct (ExactNum.ltb 0 dy)];
      first [left; reflexivity | right; left; reflexivity
            | do 2 right; left; reflexivity | do 3 right; reflexivity].
Qed.

(** A ray from (-10, 4) towards (1, 1/2) meets the first crate on its left
    side, at (0, 9). *)
Lemma raycastAABB_hit_is_in_the_box_witness :
  exists found : Physics.Hit Q,
    Physics.raycastAABB Samples.ray CorrectionScene.crateA = Some found
    /\ Physics.hitDistance found == 10
    /\ Geometry.inBox (Physics.hitPoint found) (GameObject.getBounds CorrectionScene.crateA).
Proof.
  destruct (Physics.raycastAABB Samples.ray CorrectionScene.crateA) as [found |] eqn:E;
    [| vm_compute in E; discriminate].
  exists found. split; [reflexivity |]. split.
  - vm_compute in E. injection E as <-. reflexivity.
  - apply (@raycastAABB_hit_is_in_the_box Samples.ray CorrectionScene.crateA found);
      solve [discriminate | exact E].
Defined.

Module SortFacts.

Lemma insert_perm (p : Physics.Pair Q) (l : list (Physics.Pair Q)) :
  Permutation (p :: l) (Physics.insertByPenetration p l).
Proof.
  induction l as [| q rest IH]; cbn.
  - apply Permutation_refl.
  - match goal with |- context [if ?c then _ else _] => destruct c end.
    + eapply perm_trans; [apply perm_swap | apply perm_skip; exact IH].
    + apply Permutation_refl.
Qed.

Lemma insert_sorted (p : Physics.Pair Q) (l : list (Physics.Pair Q)) :
  StronglySorted Order.deeperFirst l ->
  StronglySorted Order.deeperFirst (Physics.insertByPenetration p l).
Proof.
  induction l as [| q rest IH]; intros Hs; cbn.
  - repeat constructor.
  - inversion Hs as [| ? ? Hrest Hall]; subst.
    match goal with |- context [if ?c then _ else _] => destruct c eqn:E end;
      cbn [nltb QNumber] in E.
    + apply ExactFacts.ltb_true_iff in E.
      constructor; [apply IH; exact Hrest |].
      eapply Permutation_Forall; [apply insert_perm |].
      constructor; [unfold Order.deeperFirst; lra | exact Hall].
    + apply ExactFacts.ltb_false_iff in E.
      constructor; [exact Hs |].
      constructor; [exact E |].
      eapply Forall_impl; [| exact Hall].
      intros r Hr. unfold Order.deeperFirst in *. lra.
Qed.

End SortFacts.

(** X13.  [resolveCollisions] works on the detected pairs in the order of
    decreasing penetration: the sorted list has the same pairs, each as
    often as before, and no pair comes before a deeper one. *)
Theorem deepest_collision_is_resolved_first :
  forall pairs : list (Physics.Pair Q),
    Permutation pairs (Physics.sortByPenetration pairs)
    /\ StronglySorted Order.deeperFirst (Physics.sortByPenetration pairs).
Proof.
  induction pairs as [| p rest [IHp IHs]]; cbn.
  - split; constructor.
  - split.
    + eapply perm_trans; [apply perm_skip; exact IHp | apply SortFacts.insert_perm].
    + apply SortFacts.insert_sorted. exact IHs.
Qed.

Module ImpulseFacts.

Import ImpulseInv.

Lemma set_velocity_same (o : GameObject.t Q) : o = GameObject.set_velocity o (GameObject.velocity o).
Proof. destruct o. reflexivity. Qed.


Lemma pushed_closing (a b : GameObject.t Q) (f n : Vector2.t Q) (a' b' : GameObject.t Q) :
  pushed a b f a' b' ->
  Dynamics.closing a' b' n
  == Dynamics.closing a b n
     + Vector2.dot f n * (1 / GameObject.mass a + 1 / GameObject.mass b).
Proof.
  intros (va & vb & -> & -> & [Hax Hay] & [Hbx Hby]).
  unfold Dynamics.closing. destruct f as [fx fy], n as [nx ny].
  cbn [GameObject.set_velocity GameObject.velocity GameObject.mass Vector2.x Vector2.y
       Vector2.add Vector2.subtract Vector2.multiply Vector2.dot nadd nsub nmul QNumber] in *.
  rewrite Hax, Hay, Hbx, Hby. ring.
Qed.

Lemma pushed_keeps (a b : GameObject.t Q) (f : Vector2.t Q) (a' b' : GameObject.t Q) :
  pushed a b f a' b' ->
  (Dynamics.dynamic a -> Dynamics.dynamic a')
  /\ (Dynamics.dynamic b -> Dynamics.dynamic b')
  /\ GameObject.mass a' = GameObject.mass a /\ GameObject.mass b' = GameObject.mass b.
Proof.
  intros (va & vb & -> & -> & _). unfold Dynamics.dynamic.
  split; [tauto | split; [tauto | split; reflexivity]].
Qed.

(** [applyFriction] pushes a dynamic pair with an impulse that is a multiple
    of the tangential part of the relative velocity. *)
Lemma applyFriction_pushes (a b : GameObject.t Q) (c : Physics.Collision Q) (j : Q) :
  Dynamics.dynamic a -> Dynamics.dynamic b ->
  exists k : Q,
    let relativeVelocity := Vector2.subtract (GameObject.velocity b) (GameObject.velocity a) in
    let tangent :=
      Vector2.subtract relativeVelocity
        (Vector2.multiply (Physics.normal c)
           (Vector2.dot relativeVelocity (Physics.normal c))) in
    pushed a b (Vector2.multiply tangent k)
      (fst (Physics.applyFriction a b c j)) (snd (Physics.applyFriction a b c j)).
Proof.
  intros [Ha1 Ha2] [Hb1 Hb2].
  unfold Physics.applyFriction. rewrite Ha1, Ha2, Hb1, Hb2. cbn [andb negb].
  match goal with |- context [if ?g then (a, b) else _] => destruct g end.
  - exists 0. cbn [fst snd]. exists (GameObject.velocity a), (GameObject.velocity b).
    split; [apply set_velocity_same |]. split; [apply set_velocity_same |].
    unfold Geometry.sameVector.
    cbn [Vector2.x Vector2.y Vector2.multiply Vector2.subtract Vector2.add
         nmul ndiv nsub nadd QNumber].
    repeat split; ring.
  - match goal with
    | |- context [Vector2.multiply (Vector2.normalize ?t0) ?s1] =>
        match goal with
        | |- context [if ?g then Vector2.multiply _ s1 else Vector2.multiply _ ?s2] =>
            set (s := if g then s1 else s2);
            replace (if g then Vector2.multiply (Vector2.normalize t0) s1
                     else Vector2.multiply (Vector2.normalize t0) s2)
              with (Vector2.multiply (Vector2.normalize t0) s)
              by (subst s; destruct g; reflexivity)
        end
    end.
    unfold Vector2.normalize.
    match goal with |- context [if ?g then _ else _] => destruct g eqn:Emag end.
    + match goal with
      | |- context [Vector2.magnitude ?t0] => set (m := Vector2.magnitude t0) in *
      end.
      exists (s / m). cbn [fst snd]. eexists. eexists.
      split; [reflexivity |]. split; [reflexivity |].
      cbn [nltb QNumber lit] in Emag. apply ExactFacts.ltb_true_iff in Emag.
      unfold Geometry.sameVector.
      cbn [Vector2.x Vector2.y Vector2.multiply Vector2.subtract Vector2.add
           nmul ndiv nsub nadd lit QNumber].
      set (iA := 1 / GameObject.mass a). set (iB := 1 / GameObject.mass b).
      repeat split; field; lra.
    + exists s. cbn [fst snd]. eexists. eexists.
      split; [reflexivity |]. split; [reflexivity |].
      unfold Geometry.sameVector. repeat split; reflexivity.
Qed.

End ImpulseFacts.



(** X15.  For two solid objects that are not static, of positive mass, and
    a unit normal: [resolveVelocity] leaves the pair alone when the
    relative velocity along the normal is positive, and otherwise it
    reverses that relative velocity and scales it by the smaller of the two
    bounciness values; friction does not change it. *)
Theorem resolveVelocity_restitution :
  forall (a b : GameObject.t Q) (c : Physics.Collision Q),
    Dynamics.dynamic a -> Dynamics.dynamic b ->
    0 < GameObject.mass a -> 0 < GameObject.mass b ->
    Vector2.dot (Physics.normal c) (Physics.normal c) == 1 ->
    let resolved := Physics.resolveVelocity a b c in
    let restitution := Qmin (GameObject.bounciness a) (GameObject.bounciness b) in
    (0 < Dynamics.closing a b (Physics.normal c) -> resolved = (a, b))
    /\ (Dynamics.closing a b (Physics.normal c) <= 0 ->
        Dynamics.closing (fst resolved) (snd resolved) (Physics.normal c)
        == - restitution * Dynamics.closing a b (Physics.normal c)).
Proof.
  intros a b c Ha Hb Hma Hmb Hunit resolved restitution. subst resolved.
  unfold Physics.resolveVelocity.
  fold (Dynamics.closing a b (Physics.normal c)).
  set (vn := Dynamics.closing a b (Physics.normal c)) in *.
  cbn [nltb lit QNumber].
  split.
  - intros Hsep. apply ExactFacts.ltb_true_iff in Hsep. rewrite Hsep. reflexivity.
  - intros Happroach. apply ExactFacts.ltb_false_iff in Happroach. rewrite Happroach.
    destruct Ha as [Ha1 Ha2]. destruct Hb as [Hb1 Hb2].
    rewrite Ha1, Ha2, Hb1, Hb2. cbn [andb negb].
    match goal with
    | |- context [Physics.applyFriction ?a1 ?b1 c ?j] =>
        set (impulseScalar := j);
        assert (Hpush : ImpulseInv.pushed a b
                          (Vector2.multiply (Physics.normal c) impulseScalar) a1 b1);
        [| destruct (ImpulseFacts.pushed_keeps Hpush) as (Hda & Hdb & Hmass_a & Hmass_b);
           destruct (@ImpulseFacts.applyFriction_pushes a1 b1 c impulseScalar) as [k Hfric];
           [apply Hda; split; assumption | apply Hdb; split; assumption |];
           pose proof (ImpulseFacts.pushed_closing (Physics.normal c) Hpush) as Hc1;
           pose proof (ImpulseFacts.pushed_closing (Physics.normal c) Hfric) as Hc2;
           set (a1' := a1) in *; set (b1' := b1) in * ]
    end.
    { eexists. eexists. split; [reflexivity |]. split; [reflexivity |].
      split; split; reflexivity. }
    rewrite Hmass_a, Hmass_b in Hc2.
    etransitivity; [exact Hc2 |]. clear Hc2 Hfric.
    fold vn in Hc1.
    set (w := Dynamics.closing a1' b1' (Physics.normal c)) in *.
    destruct (Physics.normal c) as [nx ny].
    unfold Vector2.dot in *.
    cbn [Vector2.x Vector2.y Vector2.multiply Vector2.subtract nmul nsub nadd QNumber] in *.
    set (rx := Vector2.x (GameObject.velocity b1') - Vector2.x (GameObject.velocity a1')) in *.
    set (ry := Vector2.y (GameObject.velocity b1') - Vector2.y (GameObject.velocity a1')) in *.
    assert (Hinv : 0 < 1 / GameObject.mass a + 1 / GameObject.mass b).
    { assert (0 < 1 / GameObject.mass a).
      { unfold Qdiv. rewrite Qmult_1_l. apply Qinv_lt_0_compat. exact Hma. }
      assert (0 < 1 / GameObject.mass b).
      { unfold Qdiv. rewrite Qmult_1_l. apply Qinv_lt_0_compat. exact Hmb. }
      lra. }
    set (inv := 1 / GameObject.mass a + 1 / GameObject.mass b) in *.
    assert (Hj : impulseScalar * inv == - (1 + restitution) * vn).
    { subst impulseScalar. cbn [nmin nneg ndiv nadd nmul lit QNumber].
      fold restitution. fold inv. field. lra. }
    assert (Hw : w == - restitution * vn).
    { rewrite Hc1.
      transitivity (vn + impulseScalar * inv * (nx * nx + ny * ny)); [ring |].
      rewrite Hunit, Hj. ring. }
    transitivity (w + k * inv * (w - w * (nx * nx + ny * ny))).
    + subst w. unfold Dynamics.closing, Vector2.dot.
      cbn [Vector2.x Vector2.y Vector2.multiply Vector2.subtract nmul nsub nadd QNumber].
      fold rx ry. ring.
    + rewrite Hunit. rewrite Hw. ring.
Qed.

(** The same two crates: their relative velocity along (-1, 0) is -15, and
    comes out as 15 times the smaller bounciness. *)
Lemma resolveVelocity_restitution_witness :
  Dynamics.closing Samples.movingA Samples.movingB (Physics.normal Samples.contact) == - (15)
  /\ Dynamics.closing
       (fst (Physics.resolveVelocity Samples.movingA Samples.movingB Samples.contact))
       (snd (Physics.resolveVelocity Samples.movingA Samples.movingB Samples.contact))
       (Physics.normal Samples.contact)
     == - Qmin (GameObject.bounciness Samples.movingA) (GameObject.bounciness Samples.movingB)
        * Dynamics.closing Samples.movingA Samples.movingB (Physics.normal Samples.contact).
Proof.
  split.
  - reflexivity.
  - apply (@resolveVelocity_restitution Samples.movingA Samples.movingB Samples.contact).
    + split; reflexivity.
    + split; reflexivity.
    + reflexivity.
    + reflexivity.
    + reflexivity.
    + discriminate.
Defined.

Module FrameFacts.

Section Facts.
Context {num : Type} {N : JSNumber num} {F : JSFloor num}.

Lemma sameBody_refl (o : GameObject.t num) : Motion.sameBody o o.
Proof. destruct o. reflexivity. Qed.

Lemma sameBody_trans (o1 o2 o3 : GameObject.t num) :
  Motion.sameBody o1 o2 -> Motion.sameBody o2 o3 -> Motion.sameBody o1 o3.
Proof. unfold Motion.sameBody. intros -> ->. reflexivity. Qed.

Lemma sameBody_set_position (o : GameObject.t num) (p : Vector2.t num) :
  Motion.sameBody o (GameObject.set_position o p).
Proof. destruct o. reflexivity. Qed.

Lemma sameBody_set_velocity (o : GameObject.t num) (v : Vector2.t num) :
  Motion.sameBody o (GameObject.set_velocity o v).
Proof. destruct o. reflexivity. Qed.

Lemma sameBody_set_acceleration (o : GameObject.t num) (a : Vector2.t num) :
  Motion.sameBody o (GameObject.set_acceleration o a).
Proof. destruct o. reflexivity. Qed.

Lemma sameBody_applyGravityTo (this : Physics.t num) (o : GameObject.t num) :
  Motion.sameBody o (Physics.applyGravityTo this o).
Proof.
  unfold Physics.applyGravityTo, GameObject.addForce.
  destruct (Physics.isLive o && _); [| apply sameBody_refl].
  match goal with |- context [if ?g then _ else _] => destruct g end.
  - eapply sameBody_trans; [apply sameBody_set_acceleration | apply sameBody_set_velocity].
  - apply sameBody_set_acceleration.
Qed.

Lemma sameBody_integrateVelocity (o : GameObject.t num) (dt : num) :
  Motion.sameBody o (Physics.integrateVelocity o dt).
Proof.
  unfold Physics.integrateVelocity.
  eapply sameBody_trans; [apply sameBody_set_velocity | apply sameBody_set_acceleration].
Qed.

Lemma sameBody_positionalCorrection (objA objB : GameObject.t num) (c : Physics.Collision num) :
  Motion.sameBody objA (fst (Physics.positionalCorrection objA objB c))
  /\ Motion.sameBody objB (snd (Physics.positionalCorrection objA objB c)).
Proof.
  unfold Physics.positionalCorrection.
  destruct (GameObject.solid objA), (GameObject.solid objB); cbn [andb fst snd];
    split; first [apply sameBody_refl | apply sameBody_set_position].
Qed.

Lemma sameBody_applyFriction (objA objB : GameObject.t num) (c : Physics.Collision num)
  (j : num) :
  Motion.sameBody objA (fst (Physics.applyFriction objA objB c j))
  /\ Motion.sameBody objB (snd (Physics.applyFriction objA objB c j)).
Proof.
  unfold Physics.applyFriction.
  match goal with |- context [if ?g then (objA, objB) else _] => destruct g end;
    [split; apply sameBody_refl |].
  cbn [fst snd]. split.
  - destruct (GameObject.solid objA && _);
      first [apply sameBody_refl | apply sameBody_set_velocity].
  - destruct (GameObject.solid objB && _);
      first [apply sameBody_refl | apply sameBody_set_velocity].
Qed.

Lemma sameBody_resolveVelocity (objA objB : GameObject.t num) (c : Physics.Collision num) :
  Motion.sameBody objA (fst (Physics.resolveVelocity objA objB c))
  /\ Motion.sameBody objB (snd (Physics.resolveVelocity objA objB c)).
Proof.
  unfold Physics.resolveVelocity.
  match goal with |- context [if ?g then (objA, objB) else _] => destruct g end;
    [split; apply sameBody_refl |].
  match goal with
  | |- context [Physics.applyFriction ?a ?b c ?j] =>
      destruct (sameBody_applyFriction a b c j) as [HA HB];
      assert (HA0 : Motion.sameBody objA a)
        by (destruct (GameObject.solid objA && _);
            first [apply sameBody_refl | apply sameBody_set_velocity]);
      assert (HB0 : Motion.sameBody objB b)
        by (destruct (GameObject.solid objB && _);
            first [apply sameBody_refl | apply sameBody_set_velocity])
  end.
  split; eapply sameBody_trans; eassumption.
Qed.

Lemma sameBody_resolveCollisionObjects (a b : Ref) (objA objB : GameObject.t num)
  (c : Physics.Collision num) :
  let '(objA', objB', _) := Physics.resolveCollisionObjects a b objA objB c in
  Motion.sameBody objA objA' /\ Motion.sameBody objB objB'.
Proof.
  unfold Physics.resolveCollisionObjects.
  destruct (GameObject.isTrigger objA || GameObject.isTrigger objB);
    [split; apply sameBody_refl |].
  destruct (negb (GameObject.solid objA) && negb (GameObject.solid objB));
    [split; apply sameBody_refl |].
  destruct (sameBody_positionalCorrection objA objB c) as [HA1 HB1].
  destruct (Physics.positionalCorrection objA objB c) as [objA1 objB1]. cbn [fst snd] in *.
  destruct (sameBody_resolveVelocity objA1 objB1 c) as [HA2 HB2].
  destruct (Physics.resolveVelocity objA1 objB1 c) as [objA2 objB2]. cbn [fst snd] in *.
  split; eapply sameBody_trans; eassumption.
Qed.

Lemma bodies_resolveCollision (h : Heap num) (log : list (Physics.Event num))
  (pair : Physics.Pair num) :
  Forall2 (@Motion.sameBody num) h (fst (Physics.resolveCollision (h, log) pair)).
Proof.
  unfold Physics.resolveCollision.
  destruct (Heap.lookup h (Physics.objectA pair)) as [objA |] eqn:EA;
    [| apply HeapFacts.related_refl, sameBody_refl].
  destruct (Heap.lookup h (Physics.objectB pair)) as [objB |] eqn:EB;
    [| apply HeapFacts.related_refl, sameBody_refl].
  pose proof (sameBody_resolveCollisionObjects (Physics.objectA pair) (Physics.objectB pair)
                objA objB (Physics.collision pair)) as Hkept.
  destruct (Physics.resolveCollisionObjects _ _ objA objB _) as [[objA' objB'] events].
  destruct Hkept as [HA HB]. cbn [fst].
  apply HeapFacts.related_write with (o0 := objB); [| exact EB | exact HB].
  apply HeapFacts.related_write with (o0 := objA); [| exact EA | exact HA].
  apply HeapFacts.related_refl, sameBody_refl.
Qed.

Lemma bodies_resolveCollisions (pairs : list (Physics.Pair num))
  (st : Heap num * list (Physics.Event num)) :
  Forall2 (@Motion.sameBody num) (fst st) (fst (fold_left Physics.resolveCollision pairs st)).
Proof.
  revert st. induction pairs as [| pair rest IH]; intros [h log]; cbn [fold_left].
  - apply HeapFacts.related_refl, sameBody_refl.
  - eapply HeapFacts.related_trans; [exact sameBody_trans | | apply IH].
    apply bodies_resolveCollision.
Qed.

Lemma bodies_physicsSubStep (this : Physics.t num) (objects : list Ref) (dt : num)
  (st : Heap num * list (Physics.Event num)) :
  Forall2 (@Motion.sameBody num) (fst st) (fst (Physics.physicsSubStep this objects dt st)).
Proof.
  destruct st as [h log]. unfold Physics.physicsSubStep.
  match goal with
  | |- context [Physics.resolveCollisions ?pairs (?h1, log)] =>
      pose proof (bodies_resolveCollisions (Physics.sortByPenetration pairs) (h1, log)) as H2;
      assert (H1 : Forall2 (@Motion.sameBody num) h h1)
  end.
  { apply HeapFacts.related_fold_modify; [exact sameBody_refl | exact sameBody_trans |].
    intros o. destruct (Physics.isLive o && _);
      [apply sameBody_integrateVelocity | apply sameBody_refl]. }
  unfold Physics.resolveCollisions in *.
  destruct (fold_left Physics.resolveCollision _ _) as [h2 log2]. cbn [fst] in *.
  eapply HeapFacts.related_trans; [exact sameBody_trans | exact H1 |].
  eapply HeapFacts.related_trans; [exact sameBody_trans | exact H2 |].
  apply HeapFacts.related_fold_modify; [exact sameBody_refl | exact sameBody_trans |].
  intros o. destruct (Physics.isLive o);
    [apply sameBody_set_position | apply sameBody_refl].
Qed.

Lemma bodies_repeat_step
  (step : Heap num * list (Physics.Event num) -> Heap num * list (Physics.Event num))
  (n : nat) (st : Heap num * list (Physics.Event num)) :
  (forall st', Forall2 (@Motion.sameBody num) (fst st') (fst (step st'))) ->
  Forall2 (@Motion.sameBody num) (fst st) (fst (Physics.repeat_step n step st)).
Proof.
  intros Hstep. revert st. induction n as [| n IH]; intros st; cbn.
  - apply HeapFacts.related_refl, sameBody_refl.
  - eapply HeapFacts.related_trans; [exact sameBody_trans | apply Hstep | apply IH].
Qed.

Lemma bodies_update (this : Physics.t num) (objects : list Ref) (dt : num) (h : Heap num) :
  Forall2 (@Motion.sameBody num) h (snd (fst (Physics.update this objects dt h))).
Proof.
  unfold Physics.update.
  match goal with
  | |- context [Physics.repeat_step ?n ?step (?h1, [])] =>
      pose proof (bodies_repeat_step step n (h1, [])
                    (fun st' => bodies_physicsSubStep _ _ _ st')) as H2;
      assert (H1 : Forall2 (@Motion.sameBody num) h h1)
  end.
  { apply HeapFacts.related_fold_modify; [exact sameBody_refl | exact sameBody_trans |].
    intros o. apply sameBody_applyGravityTo. }
  destruct (Physics.repeat_step _ _ _) as [h2 log]. cbn [fst snd] in *.
  eapply HeapFacts.related_trans; [exact sameBody_trans | exact H1 | exact H2].
Qed.

(** *** What the step leaves alone *)

Lemma lookup_fold_modify_other (f : GameObject.t num -> GameObject.t num)
  (refs : list Ref) (h : Heap num) (r : Ref) :
  ~ In r refs -> Heap.lookup (fold_left (Heap.modify f) refs h) r = Heap.lookup h r.
Proof.
  revert h. induction refs as [| r' rest IH]; intros h Hnot; cbn [fold_left].
  - reflexivity.
  - rewrite IH by (intros Hin; apply Hnot; right; exact Hin).
    rewrite HeapFacts.lookup_modify.
    destruct (Nat.eqb_spec r r') as [-> | _]; [| reflexivity].
    exfalso. apply Hnot. left. reflexivity.
Qed.

Lemma lookup_resolveCollision_other (st : Heap num * list (Physics.Event num))
  (pair : Physics.Pair num) (r : Ref) :
  r <> Physics.objectA pair -> r <> Physics.objectB pair ->
  Heap.lookup (fst (Physics.resolveCollision st pair)) r = Heap.lookup (fst st) r.
Proof.
  intros HA HB. destruct st as [h log]. unfold Physics.resolveCollision.
  destruct (Heap.lookup h (Physics.objectA pair)); [| reflexivity].
  destruct (Heap.lookup h (Physics.objectB pair)); [| reflexivity].
  destruct (Physics.resolveCollisionObjects _ _ _ _ _) as [[objA' objB'] events].
  cbn [fst]. rewrite !HeapFacts.lookup_write.
  destruct (Nat.eqb_spec r (Physics.objectB pair)); [contradiction |].
  destruct (Nat.eqb_spec r (Physics.objectA pair)); [contradiction | reflexivity].
Qed.

Lemma lookup_resolveCollisions_other (pairs : list (Physics.Pair num))
  (st : Heap num * list (Physics.Event num)) (r : Ref) :
  (forall pair, In pair pairs -> r <> Physics.objectA pair /\ r <> Physics.objectB pair) ->
  Heap.lookup (fst (fold_left Physics.resolveCollision pairs st)) r = Heap.lookup (fst st) r.
Proof.
  revert st. induction pairs as [| pair rest IH]; intros st Hnot; cbn [fold_left].
  - reflexivity.
  - rewrite IH by (intros q Hq; apply Hnot; right; exact Hq).
    destruct (Hnot pair (or_introl eq_refl)) as [HA HB].
    apply lookup_resolveCollision_other; assumption.
Qed.

Lemma In_insertByPenetration (p q : Physics.Pair num) (l : list (Physics.Pair num)) :
  In q (Physics.insertByPenetration p l) -> q = p \/ In q l.
Proof.
  induction l as [| first rest IH]; cbn.
  - intros [<- | []]. left. reflexivity.
  - match goal with |- context [if ?g then _ else _] => destruct g end.
    + intros [<- | Hin]; [right; left; reflexivity |].
      destruct (IH Hin) as [-> | Hrest]; [left; reflexivity | right; right; exact Hrest].
    + intros [<- | Hin]; [left; reflexivity | right; exact Hin].
Qed.

Lemma In_sortByPenetration (q : Physics.Pair num) (l : list (Physics.Pair num)) :
  In q (Physics.sortByPenetration l) -> In q l.
Proof.
  induction l as [| p rest IH]; cbn.
  - intros [].
  - intros Hin. apply In_insertByPenetration in Hin.
    destruct Hin as [-> | Hin]; [left; reflexivity | right; apply IH; exact Hin].
Qed.

(** The pairs of the narrow phase are made of objects of the grid. *)
Lemma detectCollisions_from_grid (P : Ref -> Prop) (this : Physics.t num) (h : Heap num)
  (pair : Physics.Pair num) :
  GridInv.allObjects P (SpatialGrid.grid (Physics.spatialGrid this)) ->
  In pair (Physics.detectCollisions this h) ->
  P (Physics.objectA pair) /\ P (Physics.objectB pair).
Proof.
  intros Hall Hin. unfold Physics.detectCollisions in Hin.
  apply in_flat_map in Hin. destruct Hin as ([a b] & Hpot & Hin).
  destruct (GridFacts.getPotentialCollisionPairs_spec h (Physics.spatialGrid this))
    as (_ & _ & Hfrom).
  apply Hfrom in Hpot. apply in_flat_map in Hpot. destruct Hpot as (entry & Hentry & Hcell).
  apply GridFacts.In_cellPairs in Hcell. destruct Hcell as [Ha Hb].
  assert (HP : P a /\ P b) by (split; eapply Hall; eassumption).
  destruct (Heap.lookup h a); [| destruct Hin].
  destruct (Heap.lookup h b); [| destruct Hin].
  destruct (Physics.shouldCheckCollision a b _ _); [| destruct Hin].
  destruct (Physics.checkAABBCollision _ _); [| destruct Hin].
  destruct Hin as [<- | []]. exact HP.
Qed.

Lemma lookup_physicsSubStep_other (this : Physics.t num) (objects : list Ref) (dt : num)
  (st : Heap num * list (Physics.Event num)) (r : Ref) :
  GridInv.allObjects (fun x => In x objects) (SpatialGrid.grid (Physics.spatialGrid this)) ->
  ~ In r objects ->
  Heap.lookup (fst (Physics.physicsSubStep this objects dt st)) r = Heap.lookup (fst st) r.
Proof.
  intros Hall Hnot. destruct st as [h log]. unfold Physics.physicsSubStep.
  match goal with
  | |- context [Physics.resolveCollisions ?pairs (?h1, log)] =>
      pose proof (@lookup_resolveCollisions_other (Physics.sortByPenetration pairs)
                    (h1, log) r) as H2;
      assert (H1 : Heap.lookup h1 r = Heap.lookup h r)
        by (apply lookup_fold_modify_other; exact Hnot)
  end.
  unfold Physics.resolveCollisions.
  destruct (fold_left Physics.resolveCollision _ _) as [h2 log2]. cbn [fst] in *.
  rewrite lookup_fold_modify_other by exact Hnot.
  rewrite H2; [exact H1 |].
  intros pair Hin. apply In_sortByPenetration in Hin.
  destruct (@detectCollisions_from_grid (fun x => In x objects) this _ pair Hall Hin)
    as [HA HB].
  split; intros ->; contradiction.
Qed.

Lemma lookup_repeat_step_other
  (step : Heap num * list (Physics.Event num) -> Heap num * list (Physics.Event num))
  (n : nat) (st : Heap num * list (Physics.Event num)) (r : Ref) :
  (forall st', Heap.lookup (fst (step st')) r = Heap.lookup (fst st') r) ->
  Heap.lookup (fst (Physics.repeat_step n step st)) r = Heap.lookup (fst st) r.
Proof.
  intros Hstep. revert st. induction n as [| n IH]; intros st; cbn.
  - reflexivity.
  - rewrite IH. apply Hstep.
Qed.

Lemma update_grid_objects (this : Physics.t num) (objects : list Ref) (h : Heap num) :
  GridInv.allObjects (fun x => In x objects)
    (SpatialGrid.grid
       (SpatialGrid.addObjects h (SpatialGrid.clear (Physics.spatialGrid this)) objects)).
Proof.
  destruct (GridFacts.addObjects_spec h objects (SpatialGrid.clear (Physics.spatialGrid this)))
    as (_ & _ & Hall).
  apply Hall.
  - intros entry obj [].
  - intros x Hx _. exact Hx.
Qed.

Lemma lookup_update_other (this : Physics.t num) (objects : list Ref) (dt : num)
  (h : Heap num) (r : Ref) :
  ~ In r objects ->
  Heap.lookup (snd (fst (Physics.update this objects dt h))) r = Heap.lookup h r.
Proof.
  intros Hnot. unfold Physics.update.
  match goal with
  | |- context [Physics.repeat_step ?n ?step (?h1, [])] =>
      pose proof (@lookup_repeat_step_other step n (h1, []) r) as H2;
      assert (H1 : Heap.lookup h1 r = Heap.lookup h r)
        by (apply lookup_fold_modify_other; exact Hnot)
  end.
  destruct (Physics.repeat_step _ _ _) as [h2 log]. cbn [fst snd] in *.
  rewrite H2; [exact H1 |].
  intros st'. apply lookup_physicsSubStep_other; [| exact Hnot].
  apply update_grid_objects.
Qed.

End Facts.

End FrameFacts.

(** X16.  A physics frame writes nothing but motion: the heap keeps its
    size, every object comes out with at most another position, velocity
    and acceleration (its size, mass, flags, tags, layers and handlers are
    as before), and an object that is not in the list given to [update] is
    not written at all. *)
Theorem physics_update_writes_only_motion :
  forall (num : Type) (N : JSNumber num) (F : JSFloor num)
         (this : Physics.t num) (objects : list Ref) (deltaTime : num) (h : Heap num),
    let h' := snd (fst (Physics.update this objects deltaTime h)) in
    List.length h' = List.length h
    /\ (forall (r : Ref) (o : GameObject.t num),
          Heap.lookup h r = Some o ->
          exists o', Heap.lookup h' r = Some o' /\ Motion.sameBody o o')
    /\ (forall r : Ref, ~ In r objects -> Heap.lookup h' r = Heap.lookup h r).
Proof.
  intros num N F this objects deltaTime h h'.
  pose proof (FrameFacts.bodies_update this objects deltaTime h) as Hrel. fold h' in Hrel.
  split; [symmetry; eapply Forall2_length; exact Hrel |]. split.
  - intros r o Hlook.
    apply (HeapFacts.related_lookup (R := @Motion.sameBody num) (h := h) (h' := h')); assumption.
  - intros r Hnot. apply FrameFacts.lookup_update_other. exact Hnot.
Qed.

Module FallFacts.

Import FallInv.

Section Alone.
Context {num : Type} {N : JSNumber num}.

Lemma detectCollisions_alone (this : Physics.t num) (h : Heap num) (r : Ref) :
  GridInv.allObjects (eq r) (SpatialGrid.grid (Physics.spatialGrid this)) ->
  Physics.detectCollisions this h = [].
Proof.
  intros Hall.
  destruct (Physics.detectCollisions this h) as [| pair rest] eqn:E; [reflexivity |].
  exfalso.
  assert (Hin : In pair (Physics.detectCollisions this h)) by (rewrite E; left; reflexivity).
  destruct (@FrameFacts.detectCollisions_from_grid num _ (eq r) this h pair Hall Hin) as [HA HB].
  unfold Physics.detectCollisions in Hin.
  apply in_flat_map in Hin. destruct Hin as ([a b] & _ & Hin).
  destruct (Heap.lookup h a); [| destruct Hin].
  destruct (Heap.lookup h b); [| destruct Hin].
  destruct (Physics.shouldCheckCollision a b _ _) eqn:Echeck; [| destruct Hin].
  destruct (Physics.checkAABBCollision _ _); [| destruct Hin].
  destruct Hin as [<- | []]. cbn in HA, HB. subst a b.
  unfold Physics.shouldCheckCollision in Echeck. rewrite Nat.eqb_refl in Echeck. discriminate.
Qed.

(** A sub-step on a lone object does not look at what the grid holds, as
    long as the grid holds nothing else. *)
Lemma physicsSubStep_any_grid (this1 this2 : Physics.t num) (r : Ref) (deltaTime : num)
  (st : Heap num * list (Physics.Event num)) :
  GridInv.allObjects (eq r) (SpatialGrid.grid (Physics.spatialGrid this1)) ->
  GridInv.allObjects (eq r) (SpatialGrid.grid (Physics.spatialGrid this2)) ->
  Physics.physicsSubStep this1 [r] deltaTime st
  = Physics.physicsSubStep this2 [r] deltaTime st.
Proof.
  intros H1 H2. destruct st as [h log]. unfold Physics.physicsSubStep.
  rewrite (detectCollisions_alone _ _ H1), (detectCollisions_alone _ _ H2). reflexivity.
Qed.

Lemma repeat_step_any_grid (this1 this2 : Physics.t num) (r : Ref) (deltaTime : num)
  (n : nat) (st : Heap num * list (Physics.Event num)) :
  GridInv.allObjects (eq r) (SpatialGrid.grid (Physics.spatialGrid this1)) ->
  GridInv.allObjects (eq r) (SpatialGrid.grid (Physics.spatialGrid this2)) ->
  Physics.repeat_step n (Physics.physicsSubStep this1 [r] deltaTime) st
  = Physics.repeat_step n (Physics.physicsSubStep this2 [r] deltaTime) st.
Proof.
  intros H1 H2. revert st. induction n as [| n IH]; intros st; cbn [Physics.repeat_step].
  - reflexivity.
  - rewrite (@physicsSubStep_any_grid this1 this2 r deltaTime st H1 H2). apply IH.
Qed.

(** The grid of [update] on a lone object holds nothing else, whatever
    cells [Math.floor] gives. *)
Lemma update_grid_alone (F : JSFloor num) (this : Physics.t num) (r : Ref) (h : Heap num) :
  GridInv.allObjects (eq r)
    (SpatialGrid.grid
       (Physics.spatialGrid
          (Physics.withGrid this
             (SpatialGrid.addObjects h (SpatialGrid.clear (Physics.spatialGrid this)) [r])))).
Proof.
  cbn [Physics.withGrid Physics.spatialGrid].
  destruct (GridFacts.addObjects_spec h [r] (SpatialGrid.clear (Physics.spatialGrid this)))
    as (_ & _ & Hgrid).
  apply Hgrid.
  - intros entry obj [].
  - intros x [<- | []] _. reflexivity.
Qed.

(** So the heap and the calls after [update] on a lone object do not
    depend on the cells. *)
Lemma update_alone_any_floor (F1 F2 : JSFloor num) (this : Physics.t num) (r : Ref)
  (deltaTime : num) (h : Heap num) :
  snd (fst (Physics.update (F := F1) this [r] deltaTime h))
  = snd (fst (Physics.update (F := F2) this [r] deltaTime h))
  /\ snd (Physics.update (F := F1) this [r] deltaTime h)
     = snd (Physics.update (F := F2) this [r] deltaTime h).
Proof.
  unfold Physics.update.
  set (h1 := Physics.applyGravity this [r] deltaTime h).
  rewrite (@repeat_step_any_grid _ _ r
             (deltaTime / lit (inject_Z (Z.of_nat (Physics.subSteps this))))%js
             (Physics.subSteps this) (h1, [])
             (update_grid_alone F1 this r h1) (update_grid_alone F2 this r h1)).
  destruct (Physics.repeat_step _ _ _) as [h2 log]. split; reflexivity.
Qed.

End Alone.

Lemma modify_one (f : GameObject.t Q -> GameObject.t Q) (h : Heap Q) (r : Ref)
  (o : GameObject.t Q) :
  Heap.lookup h r = Some o -> Heap.lookup (Heap.modify f h r) r = Some (f o).
Proof.
  intros Hlook. rewrite HeapFacts.lookup_modify, Nat.eqb_refl, Hlook. reflexivity.
Qed.

Lemma physicsSubStep_alone (this : Physics.t Q) (h : Heap Q) (log : list (Physics.Event Q))
  (r : Ref) (o : GameObject.t Q) (dt : Q) :
  GridInv.allObjects (eq r) (SpatialGrid.grid (Physics.spatialGrid this)) ->
  Heap.lookup h r = Some o ->
  Physics.isLive o = true -> ~ GameObject.gravityScale o == 0 ->
  let st := Physics.physicsSubStep this [r] dt (h, log) in
  Heap.lookup (fst st) r = Some (stepAlone dt o) /\ snd st = log.
Proof.
  intros Hall Hlook Hlive Hscale. unfold Physics.physicsSubStep. cbn [fold_left].
  rewrite (detectCollisions_alone _ _ Hall). cbn [Physics.resolveCollisions
    Physics.sortByPenetration fold_right fold_left fst snd].
  split; [| reflexivity].
  erewrite modify_one; [| apply modify_one; exact Hlook].
  assert (Hne : negb (neqb (GameObject.gravityScale o) (lit 0)) = true).
  { apply negb_true_iff. cbn [neqb lit QNumber].
    destruct (Qeq_bool (GameObject.gravityScale o) 0) eqn:E; [| reflexivity].
    apply Qeq_bool_iff in E. contradiction. }
  rewrite Hlive, Hne. cbn [andb].
  assert (Hlive' : Physics.isLive (Physics.integrateVelocity o dt) = true) by exact Hlive.
  rewrite Hlive'. reflexivity.
Qed.

Lemma repeat_step_alone (this : Physics.t Q) (r : Ref) (dt : Q) (n : nat) :
  GridInv.allObjects (eq r) (SpatialGrid.grid (Physics.spatialGrid this)) ->
  forall (h : Heap Q) (log : list (Physics.Event Q)) (o : GameObject.t Q),
    Heap.lookup h r = Some o ->
    Physics.isLive o = true -> ~ GameObject.gravityScale o == 0 ->
    let st := Physics.repeat_step n (Physics.physicsSubStep this [r] dt) (h, log) in
    Heap.lookup (fst st) r = Some (iterate n (stepAlone dt) o) /\ snd st = log.
Proof.
  intros Hall. induction n as [| n IH]; intros h log o Hlook Hlive Hscale;
    cbn [Physics.repeat_step iterate].
  - split; [exact Hlook | reflexivity].
  - destruct (@physicsSubStep_alone this h log r o dt Hall Hlook Hlive Hscale) as [H1 H2].
    destruct (Physics.physicsSubStep this [r] dt (h, log)) as [h1 log1].
    cbn [fst snd] in H1, H2. subst log1.
    apply IH; [exact H1 | exact Hlive | exact Hscale].
Qed.

(** After its first sub-step an object has no acceleration left: the later
    sub-steps only move it. *)
Lemma iterate_coasting (dt : Q) (n : nat) (o : GameObject.t Q) :
  GameObject.acceleration o = Vector2.mk 0 0 ->
  let o' := iterate n (stepAlone dt) o in
  Motion.sameBody o o'
  /\ GameObject.acceleration o' = Vector2.mk 0 0
  /\ Geometry.sameVector (GameObject.velocity o') (GameObject.velocity o)
  /\ Geometry.sameVector (GameObject.position o')
       (Vector2.add (GameObject.position o)
          (Vector2.multiply (GameObject.velocity o) (inject_Z (Z.of_nat n) * dt))).
Proof.
  revert o. induction n as [| n IH]; intros o Hacc.
  - cbn [iterate]. split; [apply FrameFacts.sameBody_refl |]. split; [exact Hacc |].
    unfold Geometry.sameVector. cbn. repeat split; ring.
  - cbn [iterate].
    assert (Hacc1 : GameObject.acceleration (stepAlone dt o) = Vector2.mk 0 0) by reflexivity.
    destruct (IH _ Hacc1) as (Hbody & Hacc' & [Hvx Hvy] & [Hpx Hpy]).
    split; [| split; [exact Hacc' | split]].
    + eapply FrameFacts.sameBody_trans; [| exact Hbody].
      unfold stepAlone, Physics.integratePosition.
      eapply FrameFacts.sameBody_trans;
        [apply FrameFacts.sameBody_integrateVelocity | apply FrameFacts.sameBody_set_position].
    + unfold Geometry.sameVector. rewrite Hvx, Hvy.
      unfold stepAlone, Physics.integratePosition, Physics.integrateVelocity. rewrite Hacc.
      cbn. split; ring.
    + unfold Geometry.sameVector. rewrite Hpx, Hpy.
      rewrite Nat2Z.inj_succ. unfold Z.succ. rewrite inject_Z_plus.
      unfold stepAlone, Physics.integratePosition, Physics.integrateVelocity. rewrite Hacc.
      cbn -[inject_Z Z.of_nat]. split; ring.
Qed.

(** The first sub-step after [applyGravity]. *)
Lemma first_step (this : Physics.t Q) (o : GameObject.t Q) (dt : Q) :
  Physics.isLive o = true -> 0 < GameObject.gravityScale o -> ~ GameObject.mass o == 0 ->
  let o2 := stepAlone dt (Physics.applyGravityTo this o) in
  Geometry.sameVector (GameObject.velocity o2)
    (Vector2.add
       (Vector2.mk (Vector2.x (GameObject.velocity o))
          (Qmin (Vector2.y (GameObject.velocity o)) (Physics.terminalVelocity this)))
       (Vector2.multiply
          (Vector2.add (GameObject.acceleration o)
             (Vector2.multiply (Physics.gravity this) (GameObject.gravityScale o)))
          dt))
  /\ GameObject.position o2
     = Vector2.add (GameObject.position o) (Vector2.multiply (GameObject.velocity o2) dt).
Proof.
  intros Hlive Hscale Hmass o2. subst o2.
  unfold stepAlone, Physics.integratePosition, Physics.integrateVelocity,
    Physics.applyGravityTo, GameObject.addForce.
  rewrite Hlive.
  assert (Hg : nltb (lit 0) (GameObject.gravityScale o) = true)
    by (apply ExactFacts.ltb_true_iff; exact Hscale).
  rewrite Hg. cbn [andb].
  cbn [GameObject.set_acceleration GameObject.set_velocity GameObject.velocity
       GameObject.acceleration GameObject.position GameObject.set_position
       GameObject.mass GameObject.gravityScale nltb QNumber].
  set (T := Physics.terminalVelocity this). set (m := GameObject.mass o) in *.
  set (s := GameObject.gravityScale o) in *.
  destruct (ExactNum.ltb T (Vector2.y (GameObject.velocity o))) eqn:Ecap;
    [apply ExactFacts.ltb_true_iff in Ecap | apply ExactFacts.ltb_false_iff in Ecap];
    (split; [| reflexivity]); unfold Geometry.sameVector;
    cbn [GameObject.set_acceleration GameObject.set_velocity GameObject.velocity
         GameObject.acceleration GameObject.position GameObject.set_position
         Vector2.x Vector2.y
         Vector2.add Vector2.multiply Vector2.divide nadd nmul ndiv QNumber];
    [rewrite (Q.min_r _ T) by lra | rewrite (Q.min_l _ T) by lra];
    split; field; exact Hmass.
Qed.

End FallFacts.

Module PatrolFacts.

Lemma frame_any_floor (F1 F2 : JSFloor float) (e : Enemy.t float) :
  PatrolScene.frame (F := F1) e = PatrolScene.frame (F := F2) e.
Proof.
  unfold PatrolScene.frame.
  destruct (FallFacts.update_alone_any_floor F1 F2 Physics.new 0%nat PatrolScene.dt
              [Enemy.base (Enemy.update e PatrolScene.dt)]) as [Hheap _].
  destruct (Physics.update (F := F1) _ _ _ _) as [[this1 h1] log1].
  destruct (Physics.update (F := F2) _ _ _ _) as [[this2 h2] log2].
  cbn [fst snd] in Hheap. subst h2. reflexivity.
Qed.

Lemma turns_any_floor (F1 F2 : JSFloor float) (n : nat) :
  forall (i : nat) (e : Enemy.t float),
    PatrolScene.turns (F := F1) n i e = PatrolScene.turns (F := F2) n i e.
Proof.
  induction n as [| n IH]; intros i e; cbn [PatrolScene.turns].
  - reflexivity.
  - rewrite (frame_any_floor F1 F2 e), IH. reflexivity.
Qed.

End PatrolFacts.

(** C9 in the running game, in IEEE-754 arithmetic: a basic enemy alone in
    the world, stepped at 60 frames a second for ten seconds, turns round
    three times, whatever cells the grid files it under.  The first turn,
    in frame 93, is made on the distance; the second, in frame 274, is made
    on the timer alone, the enemy being short of its patrol distance; for
    the third both conditions hold. *)
Example patrol_in_the_game_loop :
  forall F : JSFloor float,
    let turns := PatrolScene.turns 600 0 (Enemy.new 0%float 0%float 1%Z) in
    map (fun turn => fst (fst turn)) turns = [93; 274; 455]%nat
    /\ map PatrolScene.byDistance turns = [true; false; false]
    /\ map PatrolScene.byTimer turns = [false; true; false].
Proof.
  intros F.
  rewrite (PatrolFacts.turns_any_floor F {| nfloor := fun _ : float => 0%Z |}).
  vm_compute. repeat split.
Qed.

(** X17.  A frame of a live object alone in the list, with a positive
    gravity scale and a mass that is not zero: no event is logged, the
    acceleration is cleared, and the velocity grows by the object's
    acceleration plus gravity times the gravity scale, over the time of ONE
    sub-step ([deltaTime / subSteps]), after the vertical velocity was
    capped at the terminal velocity; the position then moves by the new
    velocity over the whole [deltaTime].  So gravity acts at
    [1 / subSteps] of its nominal strength. *)
Theorem lone_object_free_fall :
  forall (this : Physics.t Q) (h : Heap Q) (r : Ref) (o : GameObject.t Q) (deltaTime : Q),
    Heap.lookup h r = Some o ->
    Physics.isLive o = true ->
    0 < GameObject.gravityScale o ->
    ~ GameObject.mass o == 0 ->
    (0 < Physics.subSteps this)%nat ->
    let subSteps := inject_Z (Z.of_nat (Physics.subSteps this)) in
    let pull :=
      Vector2.add (GameObject.acceleration o)
        (Vector2.multiply (Physics.gravity this) (GameObject.gravityScale o)) in
    let '(_, h', log) := Physics.update this [r] deltaTime h in
    log = []
    /\ exists o' : GameObject.t Q,
         Heap.lookup h' r = Some o'
         /\ Motion.sameBody o o'
         /\ GameObject.acceleration o' = Vector2.mk 0 0
         /\ Geometry.sameVector (GameObject.velocity o')
              (Vector2.add (Dynamics.capped this (GameObject.velocity o))
                 (Vector2.multiply pull (deltaTime / subSteps)))
         /\ Geometry.sameVector (GameObject.position o')
              (Vector2.add (GameObject.position o)
                 (Vector2.multiply (GameObject.velocity o') deltaTime)).
Proof.
  intros this h r o deltaTime Hlook Hlive Hscale Hmass Hsteps subSteps pull.
  unfold Physics.update. unfold Physics.applyGravity. cbn [fold_left].
  set (h1 := Heap.modify (Physics.applyGravityTo this) h r).
  set (o1 := Physics.applyGravityTo this o).
  assert (Hlook1 : Heap.lookup h1 r = Some o1) by (apply FallFacts.modify_one; exact Hlook).
  assert (Hbody1 : Motion.sameBody o o1) by apply FrameFacts.sameBody_applyGravityTo.
  assert (Hlive1 : Physics.isLive o1 = true).
  { rewrite Hbody1. exact Hlive. }
  assert (Hscale1 : ~ GameObject.gravityScale o1 == 0).
  { rewrite Hbody1. cbn. lra. }
  set (g := SpatialGrid.addObjects h1 (SpatialGrid.clear (Physics.spatialGrid this)) [r]).
  assert (Hall : GridInv.allObjects (eq r)
                   (SpatialGrid.grid (Physics.spatialGrid (Physics.withGrid this g)))).
  { cbn [Physics.withGrid Physics.spatialGrid]. subst g.
    destruct (GridFacts.addObjects_spec h1 [r] (SpatialGrid.clear (Physics.spatialGrid this)))
      as (_ & _ & Hgrid).
    apply Hgrid.
    - intros entry obj [].
    - intros x [<- | []] _. reflexivity. }
  set (sdt := ndiv deltaTime (lit (inject_Z (Z.of_nat (Physics.subSteps this))))).
  destruct (@FallFacts.repeat_step_alone (Physics.withGrid this g) r sdt (Physics.subSteps this)
              Hall h1 [] o1 Hlook1 Hlive1 Hscale1) as [Hfinal Hlog].
  destruct (Physics.repeat_step _ _ _) as [h2 log]. cbn [fst snd] in Hfinal, Hlog.
  split; [exact Hlog |].
  destruct (Physics.subSteps this) as [| k] eqn:Ek; [lia |].
  cbn [FallInv.iterate] in Hfinal.
  set (o2 := FallInv.stepAlone sdt o1) in *.
  assert (Hacc2 : GameObject.acceleration o2 = Vector2.mk 0 0) by reflexivity.
  destruct (@FallFacts.iterate_coasting sdt k o2 Hacc2) as (Hbody & Hacc & [Hvx Hvy] & [Hpx Hpy]).
  eexists. split; [exact Hfinal |].
  split; [| split; [exact Hacc | split]].
  - eapply FrameFacts.sameBody_trans; [exact Hbody1 |].
    eapply FrameFacts.sameBody_trans; [| exact Hbody].
    unfold o2, FallInv.stepAlone, Physics.integratePosition.
    eapply FrameFacts.sameBody_trans;
      [apply FrameFacts.sameBody_integrateVelocity | apply FrameFacts.sameBody_set_position].
  - destruct (@FallFacts.first_step this o sdt Hlive Hscale Hmass) as [[H2x H2y] _].
    fold o1 in H2x, H2y. fold o2 in H2x, H2y.
    unfold Geometry.sameVector. rewrite Hvx, Hvy, H2x, H2y.
    unfold Dynamics.capped. subst pull sdt subSteps. split; reflexivity.
  - destruct (@FallFacts.first_step this o sdt Hlive Hscale Hmass) as [_ H2p].
    fold o1 in H2p. fold o2 in H2p.
    assert (Hn : ~ subSteps == 0).
    { subst subSteps. rewrite Nat2Z.inj_succ. unfold Z.succ. rewrite inject_Z_plus.
      assert (0 <= inject_Z (Z.of_nat k)) by (rewrite <- (Zle_Qle 0); lia).
      change (inject_Z 1) with 1. lra. }
    unfold Geometry.sameVector. rewrite Hpx, Hpy, H2p.
    cbn [Vector2.x Vector2.y Vector2.add Vector2.multiply nadd nmul ndiv QNumber].
    rewrite Hvx, Hvy.
    assert (Hdt : sdt + inject_Z (Z.of_nat k) * sdt == deltaTime).
    { subst sdt. cbn [ndiv lit QNumber]. fold subSteps.
      assert (Hs : subSteps == 1 + inject_Z (Z.of_nat k)).
      { subst subSteps. rewrite Nat2Z.inj_succ. unfold Z.succ. rewrite inject_Z_plus.
        change (inject_Z 1) with 1. ring. }
      transitivity ((1 + inject_Z (Z.of_nat k)) * (deltaTime / subSteps)); [ring |].
      rewrite <- Hs. field. exact Hn. }
    split.
    + transitivity (Vector2.x (GameObject.position o)
                    + Vector2.x (GameObject.velocity o2)
                      * (sdt + inject_Z (Z.of_nat k) * sdt)); [ring |].
      rewrite Hdt. reflexivity.
    + transitivity (Vector2.y (GameObject.position o)
                    + Vector2.y (GameObject.velocity o2)
                      * (sdt + inject_Z (Z.of_nat k) * sdt)); [ring |].
      rewrite Hdt. reflexivity.
Qed.

(** A crate at rest, one frame of 1/60 s with the default engine (gravity
    980, four sub-steps): it falls at 980 / 60 / 4. *)
Lemma lone_object_free_fall_witness :
  let '(_, h', log) :=
    Physics.update Physics.new (@cons Ref 0%nat []) (1 # 60) Samples.heap in
  log = []
  /\ exists o' : GameObject.t Q,
       Heap.lookup h' 0 = Some o'
       /\ Vector2.y (GameObject.velocity o') == 49 # 12.
Proof.
  pose proof (@lone_object_free_fall Physics.new Samples.heap 0%nat CorrectionScene.crateA
                (1 # 60)) as H.
  cbv zeta in H.
  destruct (Physics.update Physics.new (@cons Ref 0%nat []) (1 # 60) Samples.heap)
    as [[g h'] log].
  destruct H as (Hlog & o' & Hlook & _ & _ & [_ Hvy] & _).
  - reflexivity.
  - reflexivity.
  - reflexivity.
  - discriminate.
  - cbn. lia.
  - split; [exact Hlog |]. exists o'. split; [exact Hlook |].
    rewrite Hvy. reflexivity.
Defined.

(* ================================================================= *)
(** ** Further properties: World *)

Module QueueFacts.

Import ClockInv.

Section Facts.
Context {num : Type} {N : JSNumber num}.

Lemma fold_left_invariant (A B : Type) (P : A -> Prop) (f : A -> B -> A) (l : list B) (a : A) :
  P a -> (forall x y, P x -> P (f x y)) -> P (fold_left f l a).
Proof.
  intros Ha Hf. revert a Ha. induction l as [| y rest IH]; intros a Ha; cbn.
  - exact Ha.
  - apply IH. apply Hf. exact Ha.
Qed.

Lemma runCall_clock (st : Heap num * World.t num) (c : World.Call) :
  clock (snd (World.runCall st c)) = clock (snd st).
Proof.
  destruct st as [h w]. destruct c; cbn; try reflexivity.
  unfold World.removeObject. destruct (negb _); reflexivity.
Qed.

Lemma updateGameObjects_clock (script : Ref -> list World.Call) (dt : num)
  (st : Heap num * World.t num) :
  clock (snd (World.updateGameObjects script dt st)) = clock (snd st).
Proof.
  unfold World.updateGameObjects.
  apply (@fold_left_invariant _ _ (fun x => clock (snd x) = clock (snd st))); [reflexivity |].
  intros x obj Hx. destruct (World.isLive (fst x) obj); [| exact Hx].
  rewrite <- Hx.
  apply (@fold_left_invariant _ _
           (fun y : Heap num * World.t num => clock (snd y) = clock (snd x))); [reflexivity |].
  intros y c Hy. rewrite runCall_clock. exact Hy.
Qed.

End Facts.

End QueueFacts.

(** X18.  The clock of the world.  [update] on a paused world changes
    nothing; [setTimeScale] never leaves a negative scale; a frame of a
    running world adds [deltaTime] times the scale (a negative scale counts
    as 0) to [worldTime], whatever the objects do during the frame and
    whether or not the drain of the queues throws; so [worldTime] never
    runs backwards when [deltaTime] is not negative. *)
Theorem world_clock_runs_forward :
  forall (script : Ref -> list World.Call) (deltaTime scale : Q) (h : Heap Q) (w : World.t Q),
    let run := fun w0 => snd (fst (World.update script deltaTime (h, w0))) in
    World.update script deltaTime (h, World.pause w) = ((h, World.pause w), Returned)
    /\ 0 <= World.timeScale (World.setTimeScale w scale)
    /\ (World.paused w = false ->
        World.worldTime (run (World.setTimeScale w scale))
        == World.worldTime w + deltaTime * Qmax 0 scale)
    /\ (0 <= deltaTime ->
        World.worldTime w <= World.worldTime (run (World.setTimeScale w scale))).
Proof.
  intros script deltaTime scale h w run.
  assert (Hrun : forall w0, World.paused w0 = false ->
            World.worldTime (run w0)
            = World.worldTime w0 + deltaTime * World.timeScale w0).
  { intros w0 Hp. subst run. cbn beta. unfold World.update. rewrite Hp.
    match goal with
    | |- context [World.processObjectChanges h ?w1] =>
        pose proof (@WorldFacts.processObjectChanges_clock Q h w1) as H1;
        destruct (World.processObjectChanges h w1) as [w2 [| e]]
    end; cbn [fst snd] in *.
    - pose proof (QueueFacts.updateGameObjects_clock script
                    (nmul deltaTime (World.timeScale w0)) (h, w2)) as H2.
      cbn [snd] in H2. rewrite H1 in H2.
      unfold ClockInv.clock in H2. cbn [World.paused World.timeScale World.worldTime] in H2.
      injection H2 as _ _ H2. exact H2.
    - unfold ClockInv.clock in H1. cbn [World.paused World.timeScale World.worldTime] in H1.
      injection H1 as _ _ H1. exact H1. }
  split; [reflexivity |].
  split; [cbn; apply Q.le_max_l |]. split.
  - intros Hp. rewrite Hrun by exact Hp. reflexivity.
  - intros Hdt. destruct (World.paused w) eqn:Hp.
    + subst run. cbn beta. unfold World.update.
      cbn [World.setTimeScale World.paused]. rewrite Hp. cbn. apply Qle_refl.
    + rewrite Hrun by exact Hp. cbn [World.setTimeScale World.timeScale World.worldTime].
      assert (0 <= Qmax 0 scale) by apply Q.le_max_l.
      cbn [nmax lit QNumber nadd nmul]. nra.
Qed.

Module RemovalFacts.

Lemma removeFirst_NoDup (obj : Ref) (l : list Ref) :
  NoDup l -> NoDup (World.removeFirst obj l) /\ ~ In obj (World.removeFirst obj l).
Proof.
  induction l as [| first rest IH]; intros Hnd; cbn.
  - split; [constructor | intros []].
  - inversion Hnd as [| ? ? Hnot Hrest]; subst.
    destruct (Nat.eqb_spec first obj) as [-> | Hne].
    + split; assumption.
    + destruct (IH Hrest) as [Hnd' Hout]. split.
      * constructor; [| exact Hnd'].
        intros Hin. apply Hnot. eapply WorldFacts.removeFirst_incl. exact Hin.
      * intros [Heq | Hin]; [congruence | exact (Hout Hin)].
Qed.

Section Loop.
Context {num : Type}.

Lemma remove_loop_removes (removed : list Ref) (w : World.t num) (obj : Ref) :
  NoDup (World.gameObjects w) ->
  snd (World.drainRemoved removed w) = Returned ->
  In obj removed \/ ~ In obj (World.gameObjects w) ->
  ~ In obj (World.gameObjects (fst (World.drainRemoved removed w))).
Proof.
  revert w. induction removed as [| x rest IH]; intros w Hnd Hret Hcase;
    cbn [World.drainRemoved] in *.
  - destruct Hcase as [[] | Hout]. exact Hout.
  - destruct (World.includes (World.gameObjects w) x) eqn:Einc.
    + cbn [World.set_lists World.layers World.gameObjects World.toAdd World.toRemove] in *.
      destruct (World.removeObjectFromLayer (World.layers w) x) as [ls | e];
        [| discriminate].
      destruct (removeFirst_NoDup x Hnd) as [Hnd' Hout].
      apply IH; cbn [World.set_lists World.gameObjects]; [exact Hnd' | exact Hret |].
      destruct Hcase as [[<- | Hin] | Hnot].
      * right. exact Hout.
      * left. exact Hin.
      * right. intros Hin. apply Hnot. eapply WorldFacts.removeFirst_incl. exact Hin.
    + apply IH; [exact Hnd | exact Hret |].
      destruct Hcase as [[<- | Hin] | Hnot].
      * right. intros Hin. apply WorldFacts.world_includes_In in Hin. congruence.
      * left. exact Hin.
      * right. exact Hnot.
Qed.

End Loop.

End RemovalFacts.

(** X19.  The removal queue is a set.  After [removeObject] the object is
    queued; asking twice queues it once; the queue gets no duplicate.
    [processObjectChanges] returns when the layer table holds only layers,
    and when it returns and no object is twice in the list and the add
    queue, an object that was queued for removal is out of the object list,
    also when it was added in the same drain.  When the layer table starts
    with a tile array, as after [loadLevel], and nothing is queued to be
    added, the drain throws at the first queued object that is listed: the
    object is spliced out of the list and the queue is left as it is. *)
Theorem removal_queue_is_a_set :
  forall (num : Type) (h : Heap num) (w : World.t num) (obj : Ref),
    In obj (World.toRemove (World.removeObject w obj))
    /\ World.removeObject (World.removeObject w obj) obj = World.removeObject w obj
    /\ (NoDup (World.toRemove w) -> NoDup (World.toRemove (World.removeObject w obj)))
    /\ (Layers.proper (World.layers w) ->
        snd (World.processObjectChanges h w) = Returned)
    /\ (snd (World.processObjectChanges h w) = Returned ->
        NoDup (World.gameObjects w ++ World.toAdd w) ->
        In obj (World.toRemove w) ->
        ~ In obj (World.gameObjects (fst (World.processObjectChanges h w))))
    /\ (forall (name : string) (data : list Z) (others : list (string * World.Entry))
               (queued : list Ref),
          World.layers w = (name, World.Tiles data) :: others ->
          World.toAdd w = [] ->
          World.toRemove w = obj :: queued ->
          In obj (World.gameObjects w) ->
          World.processObjectChanges h w
          = (World.set_lists w (World.removeFirst obj (World.gameObjects w)) []
               (obj :: queued) (World.layers w),
             Thrown "TypeError")).
Proof.
  intros num h w obj.
  assert (Hin : In obj (World.toRemove (World.removeObject w obj))).
  { unfold World.removeObject. destruct (World.includes (World.toRemove w) obj) eqn:E; cbn.
    - apply WorldFacts.world_includes_In. exact E.
    - apply in_or_app. right. left. reflexivity. }
  split; [exact Hin |]. split; [| split; [| split; [| split]]].
  - apply WorldFacts.world_includes_In in Hin.
    unfold World.removeObject at 1. rewrite Hin. reflexivity.
  - intros Hnd. unfold World.removeObject.
    destruct (World.includes (World.toRemove w) obj) eqn:E; cbn; [exact Hnd |].
    apply GridFacts.NoDup_snoc; [exact Hnd |].
    intros Hmem. apply WorldFacts.world_includes_In in Hmem. congruence.
  - intros Hproper. apply WorldFacts.processObjectChanges_proper. exact Hproper.
  - intros Hret Hnd Hq Hmem.
    destruct (WorldFacts.add_loop h (World.toAdd w) w)
      as ((done & Hlist & _ & Hall) & _ & Hrem & _).
    destruct (WorldFacts.processObjectChanges_cases h w)
      as [(e & _ & Heq) | [(_ & e & _ & Heq) | (Hret1 & Hret3 & Heq)]];
      rewrite Heq in *; cbn [fst snd] in *; try discriminate.
    cbn [World.set_lists World.gameObjects] in Hmem.
    apply filter_In in Hmem. destruct Hmem as [Hmem _]. revert Hmem.
    apply RemovalFacts.remove_loop_removes.
    + cbn [World.set_lists World.gameObjects]. rewrite Hlist, (Hall Hret1). exact Hnd.
    + exact Hret3.
    + left. cbn [World.set_lists World.toRemove]. rewrite Hrem. exact Hq.
  - intros name data others queued Hlayers Hadd Hrem Hlisted.
    unfold World.processObjectChanges. rewrite Hadd. cbn [World.drainAdded].
    cbn [World.set_lists World.toRemove World.gameObjects World.toAdd World.layers].
    rewrite Hrem. cbn [World.drainRemoved].
    cbn [World.set_lists World.toRemove World.gameObjects World.toAdd World.layers].
    apply WorldFacts.world_includes_In in Hlisted. rewrite Hlisted.
    rewrite Hlayers. cbn [World.removeObjectFromLayer].
    unfold World.set_lists. cbn. try rewrite Hrem. reflexivity.
Qed.

(** The loaded world of [FrameScene] after the frame in which the first
    crate asks to be removed: the next drain throws at it. *)
Lemma removal_queue_is_a_set_witness :
  let st :=
    fst (World.update FrameScene.leave FrameScene.dt
           (Game.heap FrameScene.loaded, Game.world FrameScene.loaded)) in
  let drained := World.processObjectChanges (fst st) (snd st) in
  World.toRemove (snd st) = [0%nat]
  /\ snd drained = Thrown "TypeError"
  /\ World.gameObjects (fst drained) = [1%nat]
  /\ World.toRemove (fst drained) = [0%nat].
Proof.
  intros st drained.
  destruct (@removal_queue_is_a_set Q (fst st) (snd st) 0%nat)
    as (_ & _ & _ & _ & _ & Hthrow).
  specialize (Hthrow "background"%string [0; 0]%Z _ (@nil Ref)
                eq_refl eq_refl eq_refl (or_introl eq_refl)).
  fold drained in Hthrow. rewrite Hthrow.
  split; [reflexivity |]. split; [reflexivity |]. split; reflexivity.
Defined.

Module LayerFacts.

Import Layers.

Lemma removeFirst_snoc (obj : Ref) (l : list Ref) :
  ~ In obj l -> World.removeFirst obj (l ++ [obj]) = l.
Proof.
  induction l as [| first rest IH]; intros Hnot; cbn.
  - rewrite Nat.eqb_refl. reflexivity.
  - destruct (Nat.eqb_spec first obj) as [-> | _].
    + exfalso. apply Hnot. left. reflexivity.
    + rewrite IH; [reflexivity |]. intros Hin. apply Hnot. right. exact Hin.
Qed.

Lemma proper_tail (entry : string * World.Entry) (ls : list (string * World.Entry)) :
  proper (entry :: ls) -> proper ls.
Proof. intros Hp n d Hin. apply (Hp n d). right. exact Hin. Qed.

Lemma inNoLayer_tail (entry : string * World.Entry) (ls : list (string * World.Entry))
  (obj : Ref) :
  inNoLayer (entry :: ls) obj -> inNoLayer ls obj.
Proof. intros Hn n l Hin. apply (Hn n l). right. exact Hin. Qed.

Lemma remove_absent (ls : list (string * World.Entry)) (obj : Ref) :
  proper ls -> inNoLayer ls obj -> World.removeObjectFromLayer ls obj = Normal ls.
Proof.
  induction ls as [| [name entry] rest IH]; intros Hp Hnone; cbn.
  - reflexivity.
  - destruct entry as [layer | data]; [| exfalso; apply (Hp name data); left; reflexivity].
    destruct (World.includes (World.objects layer) obj) eqn:E.
    + exfalso. apply WorldFacts.world_includes_In in E.
      exact (Hnone name layer (or_introl eq_refl) E).
    + rewrite IH; [reflexivity | exact (proper_tail Hp) | exact (inNoLayer_tail Hnone)].
Qed.

Lemma push_then_remove (ls : list (string * World.Entry)) (name : string) (obj : Ref) :
  proper ls -> inNoLayer ls obj ->
  exists added,
    World.pushToLayer ls name obj = Normal added
    /\ World.removeObjectFromLayer added obj = Normal ls.
Proof.
  induction ls as [| [k entry] rest IH]; intros Hp Hnone; cbn.
  - exists []. split; reflexivity.
  - destruct entry as [layer | data]; [| exfalso; apply (Hp k data); left; reflexivity].
    assert (Hhere : ~ In obj (World.objects layer))
      by exact (Hnone k layer (or_introl eq_refl)).
    destruct (String.eqb k name).
    + eexists. split; [reflexivity |].
      cbn [World.removeObjectFromLayer World.objects World.zIndex].
      assert (Hinc : World.includes (World.objects layer ++ [obj]) obj = true).
      { apply WorldFacts.world_includes_In. apply in_or_app. right. left. reflexivity. }
      rewrite Hinc. rewrite removeFirst_snoc by exact Hhere. destruct layer. reflexivity.
    + destruct (IH (proper_tail Hp) (inNoLayer_tail Hnone)) as (added & -> & Hrem).
      eexists. split; [reflexivity |].
      cbn [World.removeObjectFromLayer].
      destruct (World.includes (World.objects layer) obj) eqn:E.
      * exfalso. apply WorldFacts.world_includes_In in E. exact (Hhere E).
      * rewrite Hrem. reflexivity.
Qed.

Lemma push_unknown (ls : list (string * World.Entry)) (name : string) (obj : Ref) :
  isLayer ls name = false -> World.pushToLayer ls name obj = Normal ls.
Proof.
  induction ls as [| [k entry] rest IH]; cbn; intros Hno.
  - reflexivity.
  - apply orb_false_iff in Hno. destruct Hno as [Hk Hrest].
    rewrite Hk. rewrite IH by exact Hrest. reflexivity.
Qed.

Lemma push_known (ls added : list (string * World.Entry)) (name : string) (obj : Ref) :
  isLayer ls name = true ->
  World.pushToLayer ls name obj = Normal added ->
  exists layer, In (name, World.Group layer) added /\ In obj (World.objects layer).
Proof.
  revert added. induction ls as [| [k entry] rest IH]; cbn; intros added Hknown Hpush.
  - discriminate.
  - destruct (String.eqb k name) eqn:E.
    + apply String.eqb_eq in E. subst k.
      destruct entry as [layer | data]; [| discriminate].
      injection Hpush as <-.
      eexists. split; [left; reflexivity |].
      cbn. apply in_or_app. right. left. reflexivity.
    + destruct (World.pushToLayer rest name obj) as [rest' |] eqn:Erest; [| discriminate].
      injection Hpush as <-.
      destruct (IH rest' Hknown eq_refl) as (layer & Hin & Hobj).
      exists layer. split; [right; exact Hin | exact Hobj].
Qed.

(** Pushing to a name whose entry is a tile array throws, and a later
    [set] of another name does not change that. *)
Lemma push_to_tiles (ls : list (string * World.Entry)) (name : string) (data : list Z)
  (obj : Ref) :
  World.pushToLayer (World.setEntry ls name (World.Tiles data)) name obj = Throw "TypeError".
Proof.
  induction ls as [| [k entry] rest IH]; cbn.
  - rewrite String.eqb_refl. reflexivity.
  - destruct (String.eqb k name) eqn:E; cbn; rewrite E; [reflexivity |].
    rewrite IH. reflexivity.
Qed.

Lemma push_after_set (ls : list (string * World.Entry)) (name other : string)
  (entry : World.Entry) (obj : Ref) (e : string) :
  other <> name ->
  World.pushToLayer ls name obj = Throw e ->
  World.pushToLayer (World.setEntry ls other entry) name obj = Throw e.
Proof.
  intros Hne. induction ls as [| [k v] rest IH]; cbn.
  - discriminate.
  - destruct (String.eqb k other) eqn:Eother; cbn.
    + apply String.eqb_eq in Eother. subst k.
      apply String.eqb_neq in Hne. rewrite Hne.
      destruct (World.pushToLayer rest name obj); [discriminate | exact (fun H => H)].
    + destruct (String.eqb k name);
        [destruct v; [discriminate | exact (fun H => H)] |].
      destruct (World.pushToLayer rest name obj) as [rest' | e'] eqn:Erest;
        [discriminate |].
      intros H. injection H as <-. rewrite (IH eq_refl). reflexivity.
Qed.

End LayerFacts.

(** X20.  Adding to a layer and removing from it.  When the layer table
    holds only layers and the object is in none of them: adding it to its
    layer and removing it again restores the table; removing it changes
    nothing; adding it changes nothing when the table has no entry of the
    object's layer name (the object is then in the world but in no layer),
    and otherwise files it under that layer.  When [loadLevel] has stored
    its tile arrays in a table whose first entry is ['background'],
    [removeObjectFromLayer] throws a TypeError for every object, and
    [addObjectToLayer] throws for an object whose layer is ['background'],
    ['collision'] or ['foreground']. *)
Theorem layer_add_then_remove :
  forall (num : Type) (h : Heap num) (w : World.t num) (obj : Ref),
    (Layers.proper (World.layers w) ->
     Layers.inNoLayer (World.layers w) obj ->
     exists added : list (string * World.Entry),
       World.addObjectToLayer h (World.layers w) obj = Normal added
       /\ World.removeObjectFromLayer added obj = Normal (World.layers w)
       /\ World.removeObjectFromLayer (World.layers w) obj = Normal (World.layers w)
       /\ (Layers.isLayer (World.layers w) (World.layerNameOf h obj) = false ->
           added = World.layers w)
       /\ (Layers.isLayer (World.layers w) (World.layerNameOf h obj) = true ->
           exists layer : World.Layer,
             In (World.layerNameOf h obj, World.Group layer) added
             /\ In obj (World.objects layer)))
    /\ (forall (first : World.Entry) (others : list (string * World.Entry))
               (background collision foreground : list Z),
          World.layers w = ("background"%string, first) :: others ->
          let loaded :=
            World.loadTileLayers (World.layers w) background collision foreground in
          World.removeObjectFromLayer loaded obj = Throw "TypeError"
          /\ (In (World.layerNameOf h obj) ["background"; "collision"; "foreground"]%string ->
              World.addObjectToLayer h loaded obj = Throw "TypeError")).
Proof.
  intros num h w obj. split.
  - intros Hproper Hnone. unfold World.addObjectToLayer.
    destruct (LayerFacts.push_then_remove (World.layerNameOf h obj) Hproper Hnone)
      as (added & Hpush & Hrem).
    exists added. split; [exact Hpush |]. split; [exact Hrem |].
    split; [apply LayerFacts.remove_absent; assumption |]. split.
    + intros Hno. rewrite (@LayerFacts.push_unknown _ _ obj Hno) in Hpush. congruence.
    + intros Hknown. exact (@LayerFacts.push_known _ _ _ _ Hknown Hpush).
  - intros first others background collision foreground Hlayers loaded. subst loaded.
    rewrite Hlayers. unfold World.loadTileLayers. split; [reflexivity |].
    unfold World.addObjectToLayer. rewrite <- Hlayers.
    intros [<- | [<- | [<- | []]]].
    + apply LayerFacts.push_after_set; [discriminate |].
      apply LayerFacts.push_after_set; [discriminate |].
      apply LayerFacts.push_to_tiles.
    + apply LayerFacts.push_after_set; [discriminate |].
      apply LayerFacts.push_to_tiles.
    + apply LayerFacts.push_to_tiles.
Qed.

(** The crate and the layer table of a new world, before and after the
    tile arrays of [loadLevel]. *)
Lemma layer_add_then_remove_witness :
  (exists added : list (string * World.Entry),
     World.addObjectToLayer Samples.heap World.setupDefaultLayers 0%nat = Normal added
     /\ World.removeObjectFromLayer added 0%nat = Normal World.setupDefaultLayers)
  /\ World.removeObjectFromLayer
       (World.loadTileLayers World.setupDefaultLayers [0; 0]%Z [0; 1]%Z [0; 0]%Z) 0%nat
     = Throw "TypeError".
Proof.
  destruct (@layer_add_then_remove Q Samples.heap (@World.new Q QNumber) 0%nat)
    as [Hfresh Hloaded].
  split.
  - destruct Hfresh as (added & Hadd & Hrem & _).
    + intros name data Hin. cbn in Hin.
      repeat (destruct Hin as [Hin | Hin]; [discriminate |]). exact Hin.
    + intros name layer Hin Hobj. cbn in Hin.
      repeat (destruct Hin as [Hin | Hin];
              [injection Hin as _ <-; exact Hobj |]). exact Hin.
    + exists added. split; [exact Hadd | exact Hrem].
  - exact (proj1 (Hloaded _ _ [0; 0]%Z [0; 1]%Z [0; 0]%Z eq_refl)).
Defined.

Module CollectFacts.

Import CollectInv.

Section Facts.
Context {num : Type}.

Lemma count_from (m : Collectibles.t num) (type : string) (start : nat) :
  fold_left
    (fun count entry =>
       if String.eqb (Collectibles.itemType (snd entry)) type then S count else count)
    m start
  = (start + List.length (filter (ofType type) m))%nat.
Proof.
  revert start. induction m as [| entry rest IH]; intros start; cbn [fold_left filter].
  - cbn. lia.
  - rewrite IH. unfold ofType at 2. destruct (String.eqb _ type); cbn [List.length]; lia.
Qed.

Lemma count_filter (m : Collectibles.t num) (type : string) :
  Collectibles.getCollectionCount m type = List.length (filter (ofType type) m).
Proof. unfold Collectibles.getCollectionCount. rewrite count_from. reflexivity. Qed.

Lemma collected_set (m : Collectibles.t num) (id id' : string) (item : Collectibles.Item num) :
  Collectibles.isItemCollected (Collectibles.set m id item) id'
  = String.eqb id id' || Collectibles.isItemCollected m id'.
Proof.
  unfold Collectibles.isItemCollected.
  induction m as [| [k v] rest IH]; cbn.
  - rewrite orb_false_r. reflexivity.
  - destruct (String.eqb_spec k id) as [-> | Hne]; cbn.
    + destruct (String.eqb id id'); reflexivity.
    + rewrite IH. destruct (String.eqb k id'), (String.eqb id id'); reflexivity.
Qed.

Lemma set_new (m : Collectibles.t num) (id : string) (item : Collectibles.Item num) :
  Collectibles.isItemCollected m id = false -> Collectibles.set m id item = m ++ [(id, item)].
Proof.
  unfold Collectibles.isItemCollected.
  induction m as [| [k v] rest IH]; cbn; intros Hnew.
  - reflexivity.
  - apply orb_false_iff in Hnew. destruct Hnew as [Hk Hrest].
    rewrite Hk. rewrite IH by exact Hrest. reflexivity.
Qed.

Lemma set_set (m : Collectibles.t num) (id : string) (item item' : Collectibles.Item num) :
  Collectibles.set (Collectibles.set m id item) id item' = Collectibles.set m id item'.
Proof.
  induction m as [| [k v] rest IH]; cbn.
  - rewrite String.eqb_refl. reflexivity.
  - destruct (String.eqb k id) eqn:E; cbn; rewrite E; [reflexivity |].
    rewrite IH. reflexivity.
Qed.

Lemma count_set_same_type (m : Collectibles.t num) (id type : string)
  (item item' : Collectibles.Item num) :
  Collectibles.itemType item = Collectibles.itemType item' ->
  List.length (filter (ofType type) (Collectibles.set m id item))
  = List.length (filter (ofType type) (Collectibles.set m id item')).
Proof.
  intros Hsame. induction m as [| [k v] rest IH]; cbn.
  - unfold ofType. cbn. rewrite Hsame. destruct (String.eqb _ type); reflexivity.
  - destruct (String.eqb k id); cbn.
    + unfold ofType. cbn. rewrite Hsame. destruct (String.eqb _ type); reflexivity.
    + destruct (ofType type (k, v)); cbn; rewrite IH; reflexivity.
Qed.

End Facts.

End CollectFacts.

(** X21.  After [collectItem] the item counts as collected and no other
    item changes; the first collection of an item raises the count of its
    type by one, and collecting the same item again under the same type
    leaves every count as it is. *)
Theorem collecting_twice_counts_once :
  forall (num : Type) (m : Collectibles.t num) (worldTime laterTime : num)
         (id other type anyType : string),
    let once := Collectibles.collectItem m worldTime id type in
    let twice := Collectibles.collectItem once laterTime id type in
    Collectibles.isItemCollected once id = true
    /\ (other <> id ->
        Collectibles.isItemCollected once other = Collectibles.isItemCollected m other)
    /\ (Collectibles.isItemCollected m id = false ->
        Collectibles.getCollectionCount once type
        = S (Collectibles.getCollectionCount m type))
    /\ Collectibles.getCollectionCount twice anyType
       = Collectibles.getCollectionCount once anyType.
Proof.
  intros num m worldTime laterTime id other type anyType once twice.
  subst once twice. unfold Collectibles.collectItem.
  split; [| split; [| split]].
  - rewrite CollectFacts.collected_set, String.eqb_refl. reflexivity.
  - intros Hne. rewrite CollectFacts.collected_set.
    apply not_eq_sym in Hne. apply String.eqb_neq in Hne. rewrite Hne. reflexivity.
  - intros Hnew. rewrite !CollectFacts.count_filter. rewrite CollectFacts.set_new by exact Hnew.
    rewrite filter_app, length_app. cbn [filter]. unfold CollectInv.ofType at 2.
    cbn [snd Collectibles.itemType]. rewrite String.eqb_refl. cbn [List.length]. lia.
  - rewrite !CollectFacts.count_filter, CollectFacts.set_set.
    apply CollectFacts.count_set_same_type. reflexivity.
Qed.

(* ================================================================= *)
(** ** Further properties: Tilemap *)

Module TileFacts.

Lemma nth_error_assign (l : list (option Z)) (i j : nat) (v : Z) :
  nth_error (Tilemap.assign l i v) j
  = if Nat.eqb j i then Some (Some v)
    else match nth_error l j with
         | Some slot => Some slot
         | None => if Nat.ltb j i then Some None else None
         end.
Proof.
  revert l j. induction i as [| i IH]; intros l j.
  - destruct l as [| first rest], j as [| j]; cbn; try reflexivity.
    + destruct j; reflexivity.
    + destruct (nth_error rest j); reflexivity.
  - destruct l as [| first rest], j as [| j]; cbn [Tilemap.assign nth_error]; try reflexivity.
    + rewrite IH. cbn [Nat.eqb]. destruct (Nat.eqb j i); [reflexivity |].
      destruct j; cbn; reflexivity.
    + rewrite IH. cbn [Nat.eqb]. destruct (Nat.eqb j i); [reflexivity |].
      destruct (nth_error rest j); reflexivity.
Qed.

Section Facts.
Context {num : Type}.

Lemma outside_false (this : Tilemap.t num) (x y : Z) :
  Tilemap.outside this x y = false
  <-> (0 <= x < Tilemap.width this /\ 0 <= y < Tilemap.height this)%Z.
Proof.
  unfold Tilemap.outside. rewrite !orb_false_iff.
  rewrite Z.ltb_ge, Z.ltb_ge.
  rewrite <- !Z.ltb_ge. rewrite !Z.geb_leb, !Z.leb_gt, !Z.ltb_ge. lia.
Qed.

Lemma index_inj (w x y x' y' : Z) :
  (0 <= x < w)%Z -> (0 <= x' < w)%Z -> (0 <= y)%Z -> (0 <= y')%Z ->
  Z.to_nat (y * w + x) = Z.to_nat (y' * w + x') -> x = x' /\ y = y'.
Proof.
  intros Hx Hx' Hy Hy' Heq.
  assert (H : (y * w + x = y' * w + x')%Z) by nia.
  assert (Hyy : y = y') by nia. subst y'. split; [lia | reflexivity].
Qed.

End Facts.

End TileFacts.

(** X22.  [getTile] after [setTile] returns the tile that was set, at a
    position of the map; outside the map [setTile] does nothing and
    [getTile] returns 0; and every other position reads as before. *)
Theorem tilemap_set_then_get :
  forall (num : Type) (this : Tilemap.t num) (x y tile x' y' : Z),
    (Tilemap.outside this x y = false ->
     Tilemap.getTile (Tilemap.setTile this x y tile) x y = tile)
    /\ (Tilemap.outside this x y = true ->
        Tilemap.setTile this x y tile = this /\ Tilemap.getTile this x y = 0%Z)
    /\ ((x', y') <> (x, y) ->
        Tilemap.getTile (Tilemap.setTile this x y tile) x' y' = Tilemap.getTile this x' y').
Proof.
  intros num this x y tile x' y'.
  split; [| split].
  - intros Hin. unfold Tilemap.setTile, Tilemap.getTile. rewrite Hin.
    unfold Tilemap.outside in *. cbn [Tilemap.width Tilemap.height Tilemap.tiles].
    rewrite Hin. rewrite TileFacts.nth_error_assign, Nat.eqb_refl. reflexivity.
  - intros Hout. unfold Tilemap.setTile, Tilemap.getTile. rewrite Hout. split; reflexivity.
  - intros Hne. unfold Tilemap.setTile.
    destruct (Tilemap.outside this x y) eqn:Hxy; [reflexivity |].
    unfold Tilemap.getTile.
    assert (Hsame : Tilemap.outside
                      {| Tilemap.width := Tilemap.width this;
                         Tilemap.height := Tilemap.height this;
                         Tilemap.tileSize := Tilemap.tileSize this;
                         Tilemap.tiles :=
                           Tilemap.assign (Tilemap.tiles this)
                             (Z.to_nat (y * Tilemap.width this + x)) tile;
                         Tilemap.tileProperties := Tilemap.tileProperties this |} x' y'
                    = Tilemap.outside this x' y') by reflexivity.
    rewrite Hsame. destruct (Tilemap.outside this x' y') eqn:Hxy'; [reflexivity |].
    cbn [Tilemap.width Tilemap.tiles].
    rewrite TileFacts.nth_error_assign.
    apply TileFacts.outside_false in Hxy, Hxy'.
    destruct (Nat.eqb_spec (Z.to_nat (y' * Tilemap.width this + x'))
                (Z.to_nat (y * Tilemap.width this + x))) as [Heq | _].
    + exfalso. apply Hne.
      destruct (@TileFacts.index_inj (Tilemap.width this) x' y' x y) as [-> ->];
        try lia. reflexivity.
    + destruct (nth_error (Tilemap.tiles this) _) as [slot |]; [reflexivity |].
      destruct (Nat.ltb _ _); reflexivity.
Qed.

Module SolidFacts.

Lemma In_upTo (n i : Z) : In i (Tilemap.upTo n) <-> (0 <= i < n)%Z.
Proof.
  unfold Tilemap.upTo. rewrite in_map_iff. split.
  - intros (k & <- & Hk). apply in_seq in Hk. lia.
  - intros Hi. exists (Z.to_nat i). split; [lia | apply in_seq; lia].
Qed.

Lemma NoDup_upTo (n : Z) : NoDup (Tilemap.upTo n).
Proof.
  unfold Tilemap.upTo. generalize (seq_NoDup (Z.to_nat n) 0).
  induction (seq 0 (Z.to_nat n)) as [| k rest IH]; intros Hnd; cbn.
  - constructor.
  - inversion Hnd as [| ? ? Hnot Hrest]; subst. constructor; [| apply IH; exact Hrest].
    intros Hin. apply in_map_iff in Hin. destruct Hin as (k' & Heq & Hk').
    apply Nat2Z.inj in Heq. subst k'. contradiction.
Qed.

Lemma NoDup_flat_map (A B : Type) (f : A -> list B) (l : list A) :
  NoDup l -> (forall a, In a l -> NoDup (f a)) ->
  (forall a a' b, In a l -> In a' l -> In b (f a) -> In b (f a') -> a = a') ->
  NoDup (flat_map f l).
Proof.
  induction l as [| a rest IH]; intros Hnd Heach Hsep; cbn.
  - constructor.
  - inversion Hnd as [| ? ? Hnot Hrest]; subst.
    apply NoDup_app.
    + apply Heach. left. reflexivity.
    + apply IH; [exact Hrest | |].
      * intros a' Ha'. apply Heach. right. exact Ha'.
      * intros a1 a2 b H1 H2. apply Hsep; right; assumption.
    + intros b Hb Hb'. apply in_flat_map in Hb'. destruct Hb' as (a' & Ha' & Hb').
      assert (a = a') by (eapply Hsep; [left; reflexivity | right; exact Ha' | exact Hb | exact Hb']).
      subst a'. contradiction.
Qed.

End SolidFacts.

(** X23.  [getSolidTiles] lists exactly the positions of the map whose
    tile is solid, each with its tile, and each once. *)
Theorem solid_tiles_are_listed_once :
  forall (num : Type) (this : Tilemap.t num) (x y tile : Z),
    (In (Tilemap.mkSolidTile x y tile) (Tilemap.getSolidTiles this)
     <-> Tilemap.outside this x y = false
         /\ tile = Tilemap.getTile this x y
         /\ Tilemap.isTileSolid this tile = true)
    /\ NoDup (Tilemap.getSolidTiles this).
Proof.
  intros num this x y tile. split.
  - unfold Tilemap.getSolidTiles. rewrite in_flat_map. split.
    + intros (y0 & Hy & Hin). apply in_flat_map in Hin. destruct Hin as (x0 & Hx & Hin).
      apply SolidFacts.In_upTo in Hy, Hx.
      destruct (Tilemap.isTileSolid this (Tilemap.getTile this x0 y0)) eqn:E; [| destruct Hin].
      destruct Hin as [Heq | []]. injection Heq as -> -> <-.
      split; [apply TileFacts.outside_false; lia |]. split; [reflexivity | exact E].
    + intros (Hin & -> & Hsolid). apply TileFacts.outside_false in Hin.
      exists y. split; [apply SolidFacts.In_upTo; lia |].
      apply in_flat_map. exists x. split; [apply SolidFacts.In_upTo; lia |].
      rewrite Hsolid. left. reflexivity.
  - unfold Tilemap.getSolidTiles.
    apply SolidFacts.NoDup_flat_map; [apply SolidFacts.NoDup_upTo | |].
    + intros y0 _. apply SolidFacts.NoDup_flat_map; [apply SolidFacts.NoDup_upTo | |].
      * intros x0 _. destruct (Tilemap.isTileSolid _ _); repeat constructor. intros [].
      * intros x1 x2 b _ _ H1 H2.
        destruct (Tilemap.isTileSolid this (Tilemap.getTile this x1 y0)); [| destruct H1].
        destruct (Tilemap.isTileSolid this (Tilemap.getTile this x2 y0)); [| destruct H2].
        destruct H1 as [<- | []]. destruct H2 as [H2 | []]. congruence.
    + intros y1 y2 b _ _ H1 H2.
      apply in_flat_map in H1, H2.
      destruct H1 as (x1 & _ & H1). destruct H2 as (x2 & _ & H2).
      destruct (Tilemap.isTileSolid this (Tilemap.getTile this x1 y1)); [| destruct H1].
      destruct (Tilemap.isTileSolid this (Tilemap.getTile this x2 y2)); [| destruct H2].
      destruct H1 as [<- | []]. destruct H2 as [H2 | []]. congruence.
Qed.

(* ================================================================= *)
(** ** Further properties: Player and PowerUp *)

(** X24.  With a positive [invulnerabilityDuration], a hit that lands
    starts the invulnerability, and a second [takeDamage] before any update
    does nothing: it returns [false], changes no field and asks for no
    effect. *)
Theorem landed_hit_blocks_the_next :
  forall (checkpoint : option (Vector2.t Q)) (p : Player.t Q) (amount amount' : Q)
         (source source' : option (GameObject.t Q)),
    0 < Player.invulnerabilityDuration p ->
    let '(landed, p', _) := Player.takeDamage checkpoint p amount source in
    landed = true ->
    0 < Player.invulnerabilityTime p'
    /\ Player.takeDamage checkpoint p' amount' source' = (false, p', []).
Proof.
  intros checkpoint p amount amount' source source' Hduration.
  assert (Hblock : forall q : Player.t Q,
            0 < Player.invulnerabilityTime q ->
            Player.takeDamage checkpoint q amount' source' = (false, q, [])).
  { intros q Hq. unfold Player.takeDamage.
    apply ExactFacts.ltb_true_iff in Hq. cbn [nltb lit QNumber]. rewrite Hq. reflexivity. }
  unfold Player.takeDamage at 1.
  destruct (nltb (lit 0) (Player.invulnerabilityTime p)); [discriminate |].
  destruct (Player.hasAbility p "shield" && _); [discriminate |].
  match goal with
  | |- context [if ?g then Player.die checkpoint ?p3 else (?p3, [])] =>
      assert (H3 : Player.invulnerabilityTime p3 = Player.invulnerabilityDuration p
                   /\ Player.invulnerabilityDuration p3 = Player.invulnerabilityDuration p)
        by (destruct source; split; reflexivity);
      set (q3 := p3) in *
  end.
  destruct (nleb (Player.health q3) (lit 0)).
  - unfold Player.die. destruct H3 as [H3 H3'].
    destruct (nltb (lit 0) (Player.lives (Player.set_lives q3 _)));
      lazy beta iota zeta; intros _.
    + assert (Ht : Player.invulnerabilityTime
                     (Player.respawn checkpoint
                        (Player.set_lives q3 (nsub (Player.lives q3) (lit 1))))
                   = Player.invulnerabilityDuration p * 2).
      { unfold Player.respawn. destruct checkpoint; cbn; rewrite H3'; reflexivity. }
      assert (Hpos : 0 < Player.invulnerabilityTime
                     (Player.respawn checkpoint
                        (Player.set_lives q3 (nsub (Player.lives q3) (lit 1)))))
        by (rewrite Ht; lra).
      split; [exact Hpos | apply Hblock; exact Hpos].
    + assert (Hpos : 0 < Player.invulnerabilityTime
                           (Player.set_lives q3 (nsub (Player.lives q3) (lit 1))))
        by (cbn; rewrite H3; exact Hduration).
      split; [exact Hpos | apply Hblock; exact Hpos].
  - lazy beta iota zeta. intros _. destruct H3 as [H3 _].
    assert (Hpos : 0 < Player.invulnerabilityTime q3) by (rewrite H3; exact Hduration).
    split; [exact Hpos | apply Hblock; exact Hpos].
Qed.

(** A fresh player hit twice. *)
Lemma landed_hit_blocks_the_next_witness :
  let '(landed, p', _) := Player.takeDamage None Samples.hero 10 None in
  landed = true
  /\ Player.takeDamage None p' 10 None = (false, p', []).
Proof.
  pose proof (@landed_hit_blocks_the_next None Samples.hero 10 10 None None) as H.
  destruct (Player.takeDamage None Samples.hero 10 None) as [[landed p'] effects] eqn:E.
  assert (Hlanded : landed = true) by (vm_compute in E; congruence).
  split; [exact Hlanded |].
  apply H; [reflexivity | exact Hlanded].
Defined.

Module AbilityFacts.

Section Facts.
Context {num : Type} {N : JSNumber num}.

Lemma find_mutateAbility (l : list (string * Player.Ability num)) (name other : string)
  (f : Player.Ability num -> Player.Ability num) :
  find (fun entry => String.eqb (fst entry) other) (Player.mutateAbility l name f)
  = if String.eqb name other
    then option_map (fun entry => (fst entry, f (snd entry)))
           (find (fun entry => String.eqb (fst entry) other) l)
    else find (fun entry => String.eqb (fst entry) other) l.
Proof.
  induction l as [| [k ability] rest IH]; cbn.
  - destruct (String.eqb name other); reflexivity.
  - destruct (String.eqb_spec k name) as [-> | Hne]; cbn.
    + destruct (String.eqb name other); reflexivity.
    + rewrite IH. destruct (String.eqb_spec k other) as [-> | Hne'].
      * destruct (String.eqb_spec name other) as [-> | _]; [contradiction | reflexivity].
      * reflexivity.
Qed.

Lemma getAbility_mutate (p : Player.t num) (name other : string)
  (f : Player.Ability num -> Player.Ability num) :
  Player.getAbility (Player.set_abilities p (Player.mutateAbility (Player.abilities p) name f))
    other
  = if String.eqb name other then option_map f (Player.getAbility p other)
    else Player.getAbility p other.
Proof.
  unfold Player.getAbility. cbn [Player.set_abilities Player.abilities].
  rewrite find_mutateAbility.
  destruct (String.eqb name other); [| reflexivity].
  destruct (find _ (Player.abilities p)); reflexivity.
Qed.

End Facts.

End AbilityFacts.

(** X25.  [unlockAbility] on a known ability enables it at the given
    level and notifies once; on an unknown name it changes nothing and the
    ability stays missing; no other ability changes.  [upgradeAbility]
    does nothing to an ability that is not enabled, and sets the level of
    an enabled one. *)
Theorem unlocking_an_ability :
  forall (num : Type) (N : JSNumber num) (p : Player.t num) (name other : string) (lvl : num),
    let '(p', notices, _) := Player.unlockAbility p name lvl in
    (Player.getAbility p name <> None ->
     Player.hasAbility p' name = true
     /\ Player.getAbilityLevel p' name = lvl
     /\ notices = [Player.AbilityUnlocked name])
    /\ (Player.getAbility p name = None ->
        p' = p /\ notices = [] /\ Player.hasAbility p' name = false)
    /\ (other <> name -> Player.getAbility p' other = Player.getAbility p other)
    /\ (Player.hasAbility p name = false ->
        Player.upgradeAbility p name lvl = (p, []))
    /\ (Player.hasAbility p name = true ->
        Player.getAbilityLevel (fst (Player.upgradeAbility p name lvl)) name = lvl
        /\ Player.hasAbility (fst (Player.upgradeAbility p name lvl)) name = true).
Proof.
  intros num N p name other lvl. unfold Player.unlockAbility.
  destruct (Player.getAbility p name) as [ability |] eqn:E.
  - split; [| split; [| split; [| split]]].
    + intros _. unfold Player.hasAbility, Player.getAbilityLevel.
      rewrite AbilityFacts.getAbility_mutate, String.eqb_refl, E. cbn. repeat split.
    + discriminate.
    + intros Hne. rewrite AbilityFacts.getAbility_mutate.
      apply not_eq_sym in Hne. apply String.eqb_neq in Hne. rewrite Hne. reflexivity.
    + intros Hlocked. unfold Player.upgradeAbility. rewrite Hlocked. reflexivity.
    + intros Hopen. unfold Player.upgradeAbility. rewrite Hopen. cbn [fst].
      unfold Player.hasAbility, Player.getAbilityLevel in *.
      rewrite AbilityFacts.getAbility_mutate, String.eqb_refl, E in *. cbn in *.
      split; [reflexivity | exact Hopen].
  - split; [| split; [| split; [| split]]].
    + intros H. contradiction.
    + intros _. unfold Player.hasAbility. rewrite E. repeat split.
    + reflexivity.
    + intros Hlocked. unfold Player.upgradeAbility. rewrite Hlocked. reflexivity.
    + unfold Player.hasAbility. rewrite E. discriminate.
Qed.

Module CooldownFacts.

Import CooldownInv AbilityTrace.

Lemma mutate_noCooldowns (l : list (string * Player.Ability Q)) (name : string)
  (f : Player.Ability Q -> Player.Ability Q) :
  (forall a, Player.cooldown a = 0 /\ Player.maxCooldown a = 0 ->
             Player.cooldown (f a) = 0 /\ Player.maxCooldown (f a) = 0) ->
  Forall (fun entry : string * Player.Ability Q =>
            Player.cooldown (snd entry) = 0 /\ Player.maxCooldown (snd entry) = 0) l ->
  Forall (fun entry : string * Player.Ability Q =>
            Player.cooldown (snd entry) = 0 /\ Player.maxCooldown (snd entry) = 0)
         (Player.mutateAbility l name f).
Proof.
  intros Hf Hall. induction Hall as [| [k a] rest Ha Hrest IH]; cbn.
  - constructor.
  - destruct (String.eqb k name); constructor; auto. apply Hf. exact Ha.
Qed.

Lemma runs_keep_noCooldowns (calls : list AbilityCall) (p0 : Player.t Q) :
  CooldownInv.noCooldowns p0 ->
  CooldownInv.noCooldowns (fold_left runAbilityCall calls p0).
Proof.
  revert p0. induction calls as [| c rest IH]; intros p0 H0; cbn [fold_left]; [exact H0 |].
  apply IH. unfold CooldownInv.noCooldowns in *.
  destruct c as [n l | n l | n | dt]; cbn [runAbilityCall].
  - unfold Player.unlockAbility. destruct (Player.getAbility p0 n); [| exact H0].
    cbn [fst Player.set_abilities Player.abilities].
    apply CooldownFacts.mutate_noCooldowns; [| exact H0]. intros ab Hab. exact Hab.
  - unfold Player.upgradeAbility. destruct (Player.hasAbility p0 n); [| exact H0].
    cbn [fst Player.set_abilities Player.abilities].
    apply CooldownFacts.mutate_noCooldowns; [| exact H0]. intros ab Hab. exact Hab.
  - unfold Player.startAbilityCooldown. cbn [Player.set_abilities Player.abilities].
    apply CooldownFacts.mutate_noCooldowns; [| exact H0]. intros ab [_ Hab]. split; exact Hab.
  - unfold Player.updateAbilityCooldowns. cbn [Player.set_abilities Player.abilities].
    apply Forall_map. eapply Forall_impl; [| exact H0].
    intros [k ab] [Hc Hm]. cbn [snd fst] in *. rewrite Hc. cbn. split; assumption.
Qed.

End CooldownFacts.

(** X26.  No ability of a player ever cools down.  The constructor gives
    every ability the [maxCooldown] 0, and nothing writes that field, so
    after any sequence of unlocks, upgrades, [startAbilityCooldown] and
    cooldown updates, [isAbilityCoolingDown] is false for every name. *)
Theorem abilities_never_cool_down :
  forall (x y : Q) (newId : Z) (calls : list AbilityTrace.AbilityCall) (name : string),
    let p := fold_left AbilityTrace.runAbilityCall calls (Player.new x y newId) in
    Player.isAbilityCoolingDown p name = false.
Proof.
  intros x y newId calls name p.
  assert (Hinv : CooldownInv.noCooldowns p).
  { subst p. apply CooldownFacts.runs_keep_noCooldowns.
    unfold CooldownInv.noCooldowns. cbn. repeat constructor. }
  unfold Player.isAbilityCoolingDown, Player.getAbility.
  destruct (find _ (Player.abilities p)) as [entry |] eqn:E; [| reflexivity].
  apply find_some in E. destruct E as [Hin _].
  unfold CooldownInv.noCooldowns in Hinv. rewrite Forall_forall in Hinv.
  destruct (Hinv _ Hin) as [Hc _]. rewrite Hc. reflexivity.
Qed.

Module QuietFacts.

Section Facts.
Context {num : Type} {N : JSNumber num} {F : JSFloor num}.

Lemma sameBody_quiet (o o' : GameObject.t num) :
  Motion.sameBody o o' -> Handlers.quiet o -> Handlers.quiet o'.
Proof.
  unfold Motion.sameBody, Handlers.quiet. intros -> H. exact H.
Qed.

Lemma related_quiet (h h' : Heap num) :
  Forall2 (@Motion.sameBody num) h h' -> Forall (@Handlers.quiet num) h -> Forall (@Handlers.quiet num) h'.
Proof.
  induction 1 as [| o o' rest rest' Hbody _ IH]; intros Hq.
  - constructor.
  - inversion Hq as [| ? ? Ho Hrest]; subst.
    constructor; [exact (sameBody_quiet Hbody Ho) | exact (IH Hrest)].
Qed.

Lemma lookup_quiet (h : Heap num) (r : Ref) (o : GameObject.t num) :
  Forall (@Handlers.quiet num) h -> Heap.lookup h r = Some o -> Handlers.quiet o.
Proof.
  intros Hq Hlook. rewrite Forall_forall in Hq. apply Hq.
  eapply nth_error_In. exact Hlook.
Qed.

(** Between two objects without handlers [resolveCollision] calls
    nothing. *)
Lemma quiet_resolveCollisionObjects (a b : Ref) (objA objB : GameObject.t num)
  (c : Physics.Collision num) :
  Handlers.quiet objA -> Handlers.quiet objB ->
  snd (Physics.resolveCollisionObjects a b objA objB c) = [].
Proof.
  intros HA HB.
  pose proof (FrameFacts.sameBody_resolveCollisionObjects a b objA objB c) as Hbody.
  unfold Physics.resolveCollisionObjects in *.
  destruct (GameObject.isTrigger objA || GameObject.isTrigger objB).
  - unfold Physics.handleTriggerCollision.
    destruct HA as [_ HA]. destruct HB as [_ HB]. rewrite HA, HB.
    cbn [Physics.isSome snd]. rewrite !andb_false_r. reflexivity.
  - destruct (negb (GameObject.solid objA) && negb (GameObject.solid objB)); [reflexivity |].
    destruct (Physics.positionalCorrection objA objB c) as [objA1 objB1].
    destruct (Physics.resolveVelocity objA1 objB1 c) as [objA2 objB2].
    destruct Hbody as [HbA HbB].
    destruct (sameBody_quiet HbA HA) as [HA2 _].
    destruct (sameBody_quiet HbB HB) as [HB2 _].
    cbn [snd]. unfold Physics.handleCollisionCallbacks. rewrite HA2, HB2. reflexivity.
Qed.

Lemma quiet_resolveCollision (h : Heap num) (log : list (Physics.Event num))
  (pair : Physics.Pair num) :
  Forall (@Handlers.quiet num) h ->
  snd (Physics.resolveCollision (h, log) pair) = log
  /\ Forall (@Handlers.quiet num) (fst (Physics.resolveCollision (h, log) pair)).
Proof.
  intros Hq. split.
  - unfold Physics.resolveCollision.
    destruct (Heap.lookup h (Physics.objectA pair)) as [objA |] eqn:EA; [| reflexivity].
    destruct (Heap.lookup h (Physics.objectB pair)) as [objB |] eqn:EB; [| reflexivity].
    pose proof (quiet_resolveCollisionObjects (Physics.objectA pair) (Physics.objectB pair)
                  (Physics.collision pair) (lookup_quiet _ Hq EA) (lookup_quiet _ Hq EB))
      as Hnone.
    destruct (Physics.resolveCollisionObjects _ _ objA objB _) as [[objA' objB'] events].
    cbn [snd] in *. rewrite Hnone. apply app_nil_r.
  - eapply related_quiet; [apply FrameFacts.bodies_resolveCollision | exact Hq].
Qed.

Lemma quiet_resolveCollisions (pairs : list (Physics.Pair num)) (h : Heap num)
  (log : list (Physics.Event num)) :
  Forall (@Handlers.quiet num) h ->
  snd (fold_left Physics.resolveCollision pairs (h, log)) = log
  /\ Forall (@Handlers.quiet num) (fst (fold_left Physics.resolveCollision pairs (h, log))).
Proof.
  revert h log. induction pairs as [| pair rest IH]; intros h log Hq; cbn [fold_left].
  - split; [reflexivity | exact Hq].
  - destruct (quiet_resolveCollision log pair Hq) as [Hlog Hq1].
    destruct (Physics.resolveCollision (h, log) pair) as [h1 log1].
    cbn [fst snd] in *. subst log1. apply IH. exact Hq1.
Qed.

Lemma quiet_physicsSubStep (this : Physics.t num) (objects : list Ref) (dt : num)
  (h : Heap num) (log : list (Physics.Event num)) :
  Forall (@Handlers.quiet num) h ->
  snd (Physics.physicsSubStep this objects dt (h, log)) = log
  /\ Forall (@Handlers.quiet num) (fst (Physics.physicsSubStep this objects dt (h, log))).
Proof.
  intros Hq. split.
  - unfold Physics.physicsSubStep, Physics.resolveCollisions.
    match goal with
    | |- context [fold_left Physics.resolveCollision ?pairs (?h1, log)] =>
        assert (Hq1 : Forall (@Handlers.quiet num) h1);
        [| destruct (quiet_resolveCollisions pairs log Hq1) as [Hlog _];
           destruct (fold_left Physics.resolveCollision pairs (h1, log)) as [h2 log2] ]
    end.
    + eapply related_quiet; [| exact Hq].
      apply HeapFacts.related_fold_modify;
        [exact FrameFacts.sameBody_refl | exact FrameFacts.sameBody_trans |].
      intros o. destruct (Physics.isLive o && _);
        [apply FrameFacts.sameBody_integrateVelocity | apply FrameFacts.sameBody_refl].
    + cbn [snd] in *. exact Hlog.
  - eapply related_quiet; [| exact Hq].
    apply (FrameFacts.bodies_physicsSubStep this objects dt (h, log)).
Qed.

Lemma quiet_repeat_step (this : Physics.t num) (objects : list Ref) (dt : num) (n : nat)
  (h : Heap num) (log : list (Physics.Event num)) :
  Forall (@Handlers.quiet num) h ->
  snd (Physics.repeat_step n (Physics.physicsSubStep this objects dt) (h, log)) = log
  /\ Forall (@Handlers.quiet num)
       (fst (Physics.repeat_step n (Physics.physicsSubStep this objects dt) (h, log))).
Proof.
  revert h log. induction n as [| n IH]; intros h log Hq; cbn [Physics.repeat_step].
  - split; [reflexivity | exact Hq].
  - destruct (quiet_physicsSubStep this objects dt log Hq) as [Hlog Hq1].
    destruct (Physics.physicsSubStep this objects dt (h, log)) as [h1 log1].
    cbn [fst snd] in *. subst log1. apply IH. exact Hq1.
Qed.

End Facts.

End QuietFacts.

(** X27.  No handler is ever called.  The constructors of [GameObject],
    [Player], [Enemy] and [PowerUp] leave the own properties [onCollision]
    and [onTriggerEnter] at [null], hiding the methods that the subclasses
    declare; a direct call of [powerUp.onTriggerEnter] throws; and a frame
    of physics on objects without handlers calls no handler and assigns
    none, whatever the objects and however they collide.  A power-up is
    therefore never collected through its trigger. *)
Theorem handlers_are_never_called :
  forall (num : Type) (N : JSNumber num) (F : JSFloor num),
    (forall (x y width height : num) (newId : Z),
        Handlers.quiet (GameObject.new x y width height newId))
    /\ (forall (x y : num) (newId : Z),
          Handlers.quiet (Player.base (Player.new x y newId))
          /\ Handlers.quiet (Enemy.base (Enemy.new x y newId))
          /\ Handlers.quiet (PowerUp.new x y newId))
    /\ (forall (x y : num) (type : string) (newId : Z),
          PowerUp.onTriggerEnter (PowerUp.newPowerUp x y type newId) = Throw "TypeError")
    /\ (forall (this : Physics.t num) (objects : list Ref) (deltaTime : num) (h : Heap num),
          Forall (@Handlers.quiet num) h ->
          let '(_, h', log) := Physics.update this objects deltaTime h in
          log = [] /\ Forall (@Handlers.quiet num) h').
Proof.
  intros num N F.
  split; [intros; split; reflexivity |].
  split; [intros; repeat split; reflexivity |].
  split; [intros; reflexivity |].
  intros this objects deltaTime h Hq.
  unfold Physics.update.
  match goal with
  | |- context [Physics.repeat_step ?n (Physics.physicsSubStep ?this1 objects ?dt) (?h1, [])] =>
      assert (Hq1 : Forall (@Handlers.quiet num) h1);
      [| destruct (QuietFacts.quiet_repeat_step this1 objects dt n [] Hq1)
           as [Hlog Hq2];
         destruct (Physics.repeat_step n (Physics.physicsSubStep this1 objects dt) (h1, []))
           as [h2 log] ]
  end.
  - eapply QuietFacts.related_quiet; [| exact Hq].
    apply HeapFacts.related_fold_modify;
      [exact FrameFacts.sameBody_refl | exact FrameFacts.sameBody_trans |].
    intros o. apply FrameFacts.sameBody_applyGravityTo.
  - cbn [fst snd] in *. split; assumption.
Qed.

(** The pickup and the player standing in it: a frame calls nothing. *)
Lemma handlers_are_never_called_witness :
  Forall (@Handlers.quiet Q) TriggerScene.heap0
  /\ snd (Physics.update Physics.new TriggerScene.gameObjects (1 # 60) TriggerScene.heap0) = [].
Proof.
  assert (Hquiet : Forall (@Handlers.quiet Q) TriggerScene.heap0).
  { repeat constructor. }
  split; [exact Hquiet |].
  destruct (@handlers_are_never_called Q QNumber QFloor) as (_ & _ & _ & Hcalls).
  specialize (Hcalls Physics.new TriggerScene.gameObjects (1 # 60) TriggerScene.heap0 Hquiet).
  destruct (Physics.update Physics.new TriggerScene.gameObjects (1 # 60) TriggerScene.heap0)
    as [[this' h'] log].
  exact (proj1 Hcalls).
Defined.

(** X28.  A power-up of one of the five ability types (double jump, dash,
    wall jump, attack, shield) unlocks that ability of the player at level
    1 when the player has an entry for it, and gives neither score nor
    health; it asks for the unlock notice and sound, a small explosion at
    its centre and the power-up sound. *)
Theorem ability_power_up_unlocks :
  forall (num : Type) (N : JSNumber num) (x y : num) (newId : Z) (type : string)
         (player : Player.t num) (score : num),
    In type ["doubleJump"; "dash"; "wallJump"; "attack"; "shield"]%string ->
    Player.getAbility player type <> None ->
    let this := PowerUp.newPowerUp x y type newId in
    let '(_, player', score', asked) := PowerUp.collect this player score in
    Player.hasAbility player' type = true
    /\ Player.getAbilityLevel player' type = lit 1
    /\ score' = score
    /\ Player.health player' = Player.health player
    /\ asked = [ PowerUp.PlayerNotice (Player.AbilityUnlocked type);
                 PowerUp.PlayerEffect (Player.PlaySound "abilityUnlock");
                 PowerUp.CreateExplosion (GameObject.getCenter (PowerUp.base this)) "small";
                 PowerUp.PlaySound "powerUp" ].
Proof.
  intros num N x y newId type player score Htype Hknown this.
  destruct (Player.getAbility player type) as [ability |] eqn:E; [clear Hknown | contradiction].
  assert (Hcollect :
    PowerUp.collect this player score
    = (PowerUp.mk (GameObject.destroy (PowerUp.base this)) type true (lit 1) (lit 1) (Some type),
       fst (fst (Player.unlockAbility player type (lit 1))), score,
       [ PowerUp.PlayerNotice (Player.AbilityUnlocked type);
         PowerUp.PlayerEffect (Player.PlaySound "abilityUnlock");
         PowerUp.CreateExplosion (GameObject.getCenter (PowerUp.base this)) "small";
         PowerUp.PlaySound "powerUp" ])).
  { subst this. cbn in Htype.
    destruct Htype as [<- | [<- | [<- | [<- | [<- | []]]]]];
      unfold PowerUp.collect, PowerUp.newPowerUp;
      cbn [PowerUp.powerType PowerUp.abilityName PowerUp.value PowerUp.level PowerUp.base
           existsb String.eqb Ascii.eqb Bool.eqb orb andb];
      unfold Player.unlockAbility; rewrite E; reflexivity. }
  rewrite Hcollect. unfold Player.unlockAbility. rewrite E. cbn [fst].
  unfold Player.hasAbility, Player.getAbilityLevel.
  rewrite AbilityFacts.getAbility_mutate, String.eqb_refl, E. cbn. repeat split.
Qed.

(** A fresh player, who cannot dash, and a dash power-up. *)
Lemma ability_power_up_unlocks_witness :
  Player.hasAbility Samples.hero "dash" = false
  /\ let '(_, player', _, _) :=
       PowerUp.collect (PowerUp.newPowerUp 64 0 "dash" 8) Samples.hero 0 in
     Player.hasAbility player' "dash" = true.
Proof.
  split; [reflexivity |].
  pose proof (@ability_power_up_unlocks Q _ 64 0 8%Z "dash" Samples.hero 0) as H.
  cbv zeta in H.
  destruct (PowerUp.collect (PowerUp.newPowerUp 64 0 "dash" 8) Samples.hero 0)
    as [[[this' player'] score'] asked].
  destruct H as (Hable & _).
  - right. left. reflexivity.
  - discriminate.
  - exact Hable.
Defined.

(* ================================================================= *)
(** ** Further properties: CollisionDetection *)

(** X29.  A point that [lineIntersection] returns lies on both
    segments. *)
Theorem lineIntersection_is_on_both_segments :
  forall (a b c d p : Vector2.t Q),
    CollisionDetection.lineIntersection a b c d = Some p ->
    Geometry.onSegment p a b /\ Geometry.onSegment p c d.
Proof.
  intros [x1 y1] [x2 y2] [x3 y3] [x4 y4] p.
  unfold CollisionDetection.lineIntersection, Geometry.onSegment, Geometry.sameVector,
    Vector2.lerp.
  cbn [Vector2.x Vector2.y nltb nleb QNumber nadd nsub nmul ndiv nneg nabs lit].
  set (denom := (x1 - x2) * (y3 - y4) - (y1 - y2) * (x3 - x4)).
  destruct (ExactNum.ltb (Qabs denom) (1 # 10000000000)) eqn:Eparallel; [discriminate |].
  apply ExactFacts.ltb_false_iff in Eparallel.
  assert (Hdenom : ~ denom == 0).
  { intros H0. rewrite H0 in Eparallel. cbn in Eparallel.
    apply Qle_not_lt in Eparallel. apply Eparallel. reflexivity. }
  set (t := ((x1 - x3) * (y3 - y4) - (y1 - y3) * (x3 - x4)) / denom).
  set (u := - ((x1 - x2) * (y1 - y3) - (y1 - y2) * (x1 - x3)) / denom).
  destruct (Qle_bool 0 t) eqn:Et0; [| discriminate].
  destruct (Qle_bool t 1) eqn:Et1; [| discriminate].
  destruct (Qle_bool 0 u) eqn:Eu0; [| discriminate].
  destruct (Qle_bool u 1) eqn:Eu1; [| discriminate].
  cbn [andb]. intros Hp. injection Hp as <-.
  apply Qle_bool_iff in Et0, Et1, Eu0, Eu1.
  cbn [Vector2.x Vector2.y]. split.
  - exists t. split; [split; assumption |]. split; ring.
  - exists u. split; [split; assumption |].
    subst t u. unfold denom in *. split; field; exact Hdenom.
Qed.

(** The two diagonals of the square from (0, 0) to (2, 2) cross. *)
Lemma lineIntersection_is_on_both_segments_witness :
  exists p : Vector2.t Q,
    CollisionDetection.lineIntersection Samples.diagA Samples.diagB Samples.antiA Samples.antiB
    = Some p
    /\ Geometry.onSegment p Samples.diagA Samples.diagB
    /\ Geometry.onSegment p Samples.antiA Samples.antiB.
Proof.
  destruct (CollisionDetection.lineIntersection
              Samples.diagA Samples.diagB Samples.antiA Samples.antiB) as [p |] eqn:E;
    [| vm_compute in E; discriminate].
  exists p. split; [reflexivity |].
  exact (@lineIntersection_is_on_both_segments
           Samples.diagA Samples.diagB Samples.antiA Samples.antiB p E).
Defined.

Module NearestFacts.

Lemma square_nonneg (z : Q) : 0 <= z * z.
Proof.
  destruct (Qlt_le_dec z 0) as [Hneg | Hpos].
  - setoid_replace (z * z) with ((- z) * (- z)) by ring.
    apply Qmult_le_0_compat; lra.
  - apply Qmult_le_0_compat; assumption.
Qed.

Lemma square_le (a b : Q) : 0 <= a <= b -> a * a <= b * b.
Proof.
  intros [Ha Hab].
  apply Qle_trans with (a * b).
  - setoid_replace (a * b) with (a * a + a * (b - a)) by ring.
    assert (0 <= a * (b - a)) by (apply Qmult_le_0_compat; lra). lra.
  - setoid_replace (b * b) with (a * b + (b - a) * b) by ring.
    assert (0 <= (b - a) * b) by (apply Qmult_le_0_compat; lra). lra.
Qed.

Lemma clamp_nearest (lo hi c q : Q) :
  lo <= hi -> lo <= q <= hi ->
  let n := Qmax lo (Qmin c hi) in
  lo <= n <= hi /\ (c - n) * (c - n) <= (c - q) * (c - q).
Proof.
  intros Hlohi Hq n. subst n.
  destruct (Q.min_spec c hi) as [[H1 Hm] | [H1 Hm]];
  destruct (Q.max_spec lo (Qmin c hi)) as [[H2 HM] | [H2 HM]];
  set (m := Qmin c hi) in *; set (n := Qmax lo m) in *;
  (split; [lra |]).
  - setoid_replace (c - n) with 0 by lra.
    setoid_replace (0 * 0) with 0 by ring. apply square_nonneg.
  - setoid_replace (c - n) with (c - lo) by lra.
    setoid_replace ((c - lo) * (c - lo)) with ((lo - c) * (lo - c)) by ring.
    setoid_replace ((c - q) * (c - q)) with ((q - c) * (q - c)) by ring.
    apply square_le. lra.
  - setoid_replace (c - n) with (c - hi) by lra.
    apply square_le. lra.
  - setoid_replace (c - n) with (c - hi) by lra.
    apply square_le. lra.
Qed.

End NearestFacts.

(** X30.  [circleRectOverlap] is exact for a rectangle of non-negative
    size: it answers [true] if and only if some point of the rectangle is
    at less than the radius from the centre of the circle. *)
Theorem circleRectOverlap_is_exact :
  forall (circle : CollisionDetection.Circle Q) (rect : Bounds.t Q),
    0 <= Bounds.width rect -> 0 <= Bounds.height rect ->
    (CollisionDetection.circleRectOverlap circle rect = true
     <-> exists q : Vector2.t Q,
           CollisionDetection.pointInRect q rect = true
           /\ CollisionDetection.distanceSquared
                (Vector2.mk (CollisionDetection.centerX circle)
                            (CollisionDetection.centerY circle)) q
              < CollisionDetection.radius circle * CollisionDetection.radius circle).
Proof.
  intros [cx cy radius] [rx ry w h]. 
  unfold CollisionDetection.circleRectOverlap, CollisionDetection.pointInRect,
    CollisionDetection.distanceSquared.
  cbn [CollisionDetection.centerX CollisionDetection.centerY CollisionDetection.radius
       Bounds.x Bounds.y Bounds.width Bounds.height Vector2.x Vector2.y
       nltb nleb QNumber nadd nsub nmul nmin nmax].
  intros Hw Hh.
  assert (Hbox : forall q : Vector2.t Q,
            Qle_bool rx (Vector2.x q) && Qle_bool (Vector2.x q) (rx + w)
            && Qle_bool ry (Vector2.y q) && Qle_bool (Vector2.y q) (ry + h) = true
            <-> (rx <= Vector2.x q <= rx + w) /\ (ry <= Vector2.y q <= ry + h)).
  { intros q. rewrite !andb_true_iff, !Qle_bool_iff. tauto. }
  rewrite ExactFacts.ltb_true_iff.
  set (nx := Qmax rx (Qmin cx (rx + w))). set (ny := Qmax ry (Qmin cy (ry + h))).
  split.
  - intros Hnear. exists (Vector2.mk nx ny). rewrite Hbox. cbn [Vector2.x Vector2.y].
    assert (Hx : rx <= rx + w) by lra. assert (Hy : ry <= ry + h) by lra.
    destruct (@NearestFacts.clamp_nearest rx (rx + w) cx rx Hx) as [Hnx _]; [lra |].
    destruct (@NearestFacts.clamp_nearest ry (ry + h) cy ry Hy) as [Hny _]; [lra |].
    fold nx in Hnx. fold ny in Hny. split; [tauto | exact Hnear].
  - intros ([qx qy] & Hin & Hdist). apply Hbox in Hin. cbn [Vector2.x Vector2.y] in *.
    destruct Hin as [Hqx Hqy].
    assert (Hx : rx <= rx + w) by lra. assert (Hy : ry <= ry + h) by lra.
    destruct (@NearestFacts.clamp_nearest rx (rx + w) cx qx Hx Hqx) as [_ Hnx].
    destruct (@NearestFacts.clamp_nearest ry (ry + h) cy qy Hy Hqy) as [_ Hny].
    fold nx in Hnx. fold ny in Hny. lra.
Qed.

(** A circle of radius 2 around (5, 5) reaches into the square from (0, 0)
    to (4, 4). *)
Lemma circleRectOverlap_is_exact_witness :
  exists q : Vector2.t Q,
    CollisionDetection.pointInRect q Samples.square = true
    /\ CollisionDetection.distanceSquared
         (Vector2.mk (CollisionDetection.centerX Samples.circle)
                     (CollisionDetection.centerY Samples.circle)) q
       < CollisionDetection.radius Samples.circle * CollisionDetection.radius Samples.circle.
Proof.
  apply (@circleRectOverlap_is_exact Samples.circle Samples.square).
  - discriminate.
  - discriminate.
  - reflexivity.
Defined.
